(** * gosip, package sip: requests, address resolution and derived requests

    A shallow embedding of [request.go]: the [request] type, its
    constructor [NewRequest], the two address resolution methods [Source]
    and [Destination], and the derivation functions [Clone], [WithFields],
    [NewAckRequest], [NewCancelRequest] and [CopyRequest].

    Go objects reached through pointers (SIP URIs, Via hops, the address
    lists of Route and Record-Route headers, CSeq and Contact headers) live
    in a store with a bump allocator, so that sharing between a request and
    the requests derived from it is visible.  A run-time panic of Go (a nil
    dereference, a failed unchecked type assertion) is an explicit
    outcome. *)

From Stdlib Require Import ZArith String Ascii List Lia DecimalString.
From stdpp Require Import base option list strings gmap functions.

Local Open Scope string_scope.
Local Open Scope list_scope.
Local Open Scope nat_scope.

(** ** Pieces of the Go runtime and standard library used by request.go *)

(** The two ways request.go can panic. *)
Inductive PanicCause :=
| NilDereference        (* a field or method reached through a nil pointer or nil interface *)
| InterfaceConversion.  (* [x.(T)] without the comma-ok form, on a value that is not a [T] *)

Inductive Result (A : Type) :=
| Ok (a : A)
| Panic (cause : PanicCause).
Arguments Ok {A} a.
Arguments Panic {A} cause.

Module strconv.

Inductive NumError := ErrSyntax | ErrRange.

Definition maxUint64 : Z := 2 ^ 64 - 1.
(** [cutoff] is the smallest number such that [cutoff * 10 > maxUint64]. *)
Definition cutoff : Z := maxUint64 / 10 + 1.

Definition digit (c : ascii) : option Z :=
  let d := (Z.of_N (N_of_ascii c) - 48)%Z in
  if ((0 <=? d) && (d <=? 9))%Z then Some d else None.

(** The digit loop of [ParseUint(s, 10, 64)]: it stops at the first byte
    that is not a decimal digit (syntax error, value 0) and at the first
    overflow (range error, value [maxUint64]), whichever comes first. *)
Fixpoint ParseUint_loop (s : string) (n : Z) : Z * option NumError :=
  match s with
  | EmptyString => (n, None)
  | String c s' =>
      match digit c with
      | None => (0%Z, Some ErrSyntax)
      | Some d =>
          if (cutoff <=? n)%Z then (maxUint64, Some ErrRange)
          else
            let n1 := (n * 10 + d)%Z in
            if (maxUint64 <? n1)%Z then (maxUint64, Some ErrRange)
            else ParseUint_loop s' n1
      end
  end.

Definition ParseUint (s : string) : Z * option NumError :=
  match s with
  | EmptyString => (0%Z, Some ErrSyntax)
  | _ => ParseUint_loop s 0%Z
  end.

(** [ParseInt(s, 10, 0)] with a 64-bit [int]. *)
Definition ParseInt (s : string) : Z * option NumError :=
  match s with
  | EmptyString => (0%Z, Some ErrSyntax)
  | String c s' =>
      let neg := bool_decide (c = "-"%char) in
      let digits := if bool_decide (c = "+"%char) || neg then s' else s in
      let int_cutoff := (2 ^ 63)%Z in
      match ParseUint digits with
      | (_, Some ErrSyntax) => (0%Z, Some ErrSyntax)
      | (un, _) =>
          if negb neg && (int_cutoff <=? un)%Z then ((int_cutoff - 1)%Z, Some ErrRange)
          else if neg && (int_cutoff <? un)%Z then ((- int_cutoff)%Z, Some ErrRange)
          else ((if neg then - un else un)%Z, None)
      end
  end.

(** [Atoi] is [ParseInt(s, 10, 0)]; its fast path for short strings
    returns the same value and the same kind of error. *)
Definition Atoi (s : string) : Z * option NumError := ParseInt s.

End strconv.

(** The conversion [uint16(p)] of an [int]: the low 16 bits. *)
Definition uint16 (p : Z) : Z := (p mod 2 ^ 16)%Z.

Module fmt.

(** The verb [%v] on an unsigned integer: its decimal digits. *)
Definition uint_v (n : Z) : string :=
  NilEmpty.string_of_uint (N.to_uint (Z.to_N n)).

(** [fmt.Sprintf("%v:%v", host, port)] for a string and a [Port]. *)
Definition Sprintf_host_port (host : string) (port : Z) : string :=
  (host ++ ":" ++ uint_v port)%string.

End fmt.

Module strings.

(** [strings.TrimSpace] trims the white space of [unicode.IsSpace], rune
    by rune, a string being the bytes of its UTF-8 encoding.

    The ASCII white space, Go's [asciiSpace] table: tab, line feed,
    vertical tab, form feed, carriage return and space. *)
Definition isSpace (c : ascii) : bool :=
  let n := N_of_ascii c in
  ((9 <=? n) && (n <=? 13) || (n =? 32))%N.

(** The white space runes on two bytes: U+0085 and U+00A0, encoded
    [C2 85] and [C2 A0]. *)
Definition isSpace2 (c1 c2 : ascii) : bool :=
  let n1 := N_of_ascii c1 in
  let n2 := N_of_ascii c2 in
  ((n1 =? 0xC2) && ((n2 =? 0x85) || (n2 =? 0xA0)))%N.

(** The white space runes on three bytes: U+1680 ([E1 9A 80]), U+2000 to
    U+200A, U+2028, U+2029 and U+202F ([E2 80 80] to [E2 80 8A],
    [E2 80 A8], [E2 80 A9], [E2 80 AF]), U+205F ([E2 81 9F]) and U+3000
    ([E3 80 80]).  No rune on four bytes is white space. *)
Definition isSpace3 (c1 c2 c3 : ascii) : bool :=
  let n1 := N_of_ascii c1 in
  let n2 := N_of_ascii c2 in
  let n3 := N_of_ascii c3 in
  ((n1 =? 0xE1) && (n2 =? 0x9A) && (n3 =? 0x80)
   || (n1 =? 0xE2) && (n2 =? 0x80)
      && ((0x80 <=? n3) && (n3 <=? 0x8A) || (n3 =? 0xA8) || (n3 =? 0xA9) || (n3 =? 0xAF))
   || (n1 =? 0xE2) && (n2 =? 0x81) && (n3 =? 0x9F)
   || (n1 =? 0xE3) && (n2 =? 0x80) && (n3 =? 0x80))%N.

(** [TrimLeftFunc(s, unicode.IsSpace)]: the runes are decoded from the
    front; the bytes of a white space rune decode to that rune whatever
    follows them, and any other bytes decode to a rune that is not white
    space, the error rune of an invalid encoding included. *)
Fixpoint trimLeft (s : string) : string :=
  match s with
  | EmptyString => EmptyString
  | String c1 s1 =>
      if isSpace c1 then trimLeft s1
      else
        match s1 with
        | EmptyString => s
        | String c2 s2 =>
            if isSpace2 c1 c2 then trimLeft s2
            else
              match s2 with
              | EmptyString => s
              | String c3 s3 => if isSpace3 c1 c2 c3 then trimLeft s3 else s
              end
        end
  end.

(** [TrimRightFunc(s, unicode.IsSpace)] on the bytes in reverse order:
    [DecodeLastRuneInString] steps back to the nearest byte that starts a
    rune and decodes from there, so the last rune is a white space rune
    exactly when the string ends with the bytes of one. *)
Fixpoint trimLeft_reversed (s : string) : string :=
  match s with
  | EmptyString => EmptyString
  | String c1 s1 =>
      if isSpace c1 then trimLeft_reversed s1
      else
        match s1 with
        | EmptyString => s
        | String c2 s2 =>
            if isSpace2 c2 c1 then trimLeft_reversed s2
            else
              match s2 with
              | EmptyString => s
              | String c3 s3 => if isSpace3 c3 c2 c1 then trimLeft_reversed s3 else s
              end
        end
  end.

Fixpoint rev_onto (s acc : string) : string :=
  match s with
  | EmptyString => acc
  | String c s' => rev_onto s' (String c acc)
  end.

(** The fast path of [TrimSpace] for ASCII gives the same string as
    trimming the runes from the front and then from the end. *)
Definition TrimSpace (s : string) : string :=
  rev_onto (trimLeft_reversed (rev_onto (trimLeft s) EmptyString)) EmptyString.

(** The string of the given bytes. *)
Definition of_bytes (bytes : list N) : string :=
  fold_right (λ b s, String (ascii_of_N b) s) EmptyString bytes.

End strings.

(** ** Package log: the metadata mapping *)

Module log.

(** [log.Fields] is a [map[string]interface{}]; the values are kept as
    their printed form. *)
Abbreviation Fields := (gmap string string).

(** Modelled from the spec: [Fields.WithFields] is absent from the
    sources; it is a "merge producing a new mapping" in which "new keys
    override same-named old keys". *)
Definition WithFields (fields newFields : Fields) : Fields :=
  newFields ∪ fields.

End log.

(** ** Package sip: the data model *)

Definition loc := nat.

(** [type Port uint16] *)
Definition Port := Z.
Definition MessageID := string.
Definition RequestMethod := string.
Definition INVITE : RequestMethod := "INVITE".
Definition ACK : RequestMethod := "ACK".
Definition CANCEL : RequestMethod := "CANCEL".

(** Modelled from the spec: the interface [MaybeString] is declared outside
    the sources; request.go builds [String{Str: s}], calls [String()] and
    tests for nil, and "values may be empty-string markers".  A value is
    nil, or [String{Str: s}]. *)
Abbreviation MaybeString := (option string).

(** The parameters of a header: "an ordered parameter mapping (supports
    add/get by key, values may be empty-string markers)". *)
Module Params.

Abbreviation t := (list (string * MaybeString)).

(** Modelled from the spec: [Params.Get] is outside the sources; "get by
    key", which returns the value and the comma-ok flag. *)
Fixpoint Get (params : t) (key : string) : MaybeString * bool :=
  match params with
  | [] => (None, false)
  | (k, v) :: rest => if bool_decide (k = key) then (v, true) else Get rest key
  end.

(** Modelled from the spec: [Params.Add] is outside the sources; "add by
    key", which sets the value of a key and keeps the position of a key
    that is already there. *)
Fixpoint Add (params : t) (key : string) (val : MaybeString) : t :=
  match params with
  | [] => [(key, val)]
  | (k, v) :: rest =>
      if bool_decide (k = key) then (k, val) :: rest
      else (k, v) :: Add rest key val
  end.

End Params.

(** Modelled from the spec: the type [SipUri] is declared outside the
    sources; "a concrete SipUri variant additionally exposes host/port
    directly", the fields [FHost] and [FPort] that request.go reads. *)
Module SipUri.
Record t := mk { FHost : string; FPort : option Port }.
End SipUri.

(** Modelled from the spec: the type [ViaHop] is declared outside the
    sources; a hop "carries host, port, transport, and parameters", of
    which request.go reads [Host], [Port] and [Params]. *)
Module ViaHop.
Record t := mk {
  Transport : string;
  Host : string;
  Port : option Port;
  Params : Params.t }.

Definition withParams (hop : t) (params : Params.t) : t :=
  mk (Transport hop) (Host hop) (Port hop) params.
End ViaHop.

(** Modelled from the spec: the type [CSeq] is declared outside the
    sources; it "carries a sequence number and a method token, both
    mutable". *)
Module CSeq.
Record t := mk { SeqNo : Z; MethodName : RequestMethod }.
End CSeq.

(** Modelled from the spec: the interface [Uri] is declared outside the
    sources; a URI is a pointer to a [SipUri] or "some other URI variant"
    (the comma-ok assertion on the recipient in [Destination] shows there
    are others), which request.go only carries around and clones. *)
Inductive Uri :=
| SipUriPtr (p : loc)
| OtherUri (repr : string).

(** Modelled from the spec: the type [ContactHeader] is declared outside
    the sources; request.go reads its [Address]. *)
Module ContactHeader.
Record t := mk { Address : Uri }.
End ContactHeader.

(** Modelled from the spec: the interface [Header] and its
    implementations are declared outside the sources; a header is "one of
    {Via, Route, RecordRoute, CSeq, Contact, From, To, CallID, Generic}".
    As request.go uses them, a [ViaHeader] is a slice of hop pointers, each
    of which may be nil, and the other variants are pointers.  From, To,
    Call-ID and generic headers are opaque to request.go: their object is
    kept as its contents. *)
Inductive Header :=
| ViaHeader (hops : list (option loc))
| RouteHeader (p : loc)
| RecordRouteHeader (p : loc)
| CSeqPtr (p : loc)
| ContactHeaderPtr (p : loc)
| FromHeader (p : loc)
| ToHeader (p : loc)
| CallID (p : loc)
| GenericHeader (HeaderName : string) (p : loc).

(** Modelled from the spec: [Name] is outside the sources; every header
    "exposes a Name() string used as the collection key". *)
Definition Name (h : Header) : string :=
  match h with
  | ViaHeader _ => "Via"
  | RouteHeader _ => "Route"
  | RecordRouteHeader _ => "Record-Route"
  | CSeqPtr _ => "CSeq"
  | ContactHeaderPtr _ => "Contact"
  | FromHeader _ => "From"
  | ToHeader _ => "To"
  | CallID _ => "Call-ID"
  | GenericHeader name _ => name
  end.

(** ** The store

    One table per pointer type, total on locations, and the next free
    location: a pointer always points to an object of its type, as in Go,
    and [new] hands out locations in increasing order.  The store also
    counts the message identifiers and branch tokens issued so far. *)
Record World := mkWorld {
  uris : loc → SipUri.t;
  hops : loc → ViaHop.t;
  addresses : loc → list Uri;   (* [Addresses] of a [*RouteHeader] or [*RecordRouteHeader] *)
  cseqs : loc → CSeq.t;
  contacts : loc → ContactHeader.t;
  opaques : loc → string;
  next : loc;
  issuedIDs : nat;
  issuedBranches : nat }.

Definition new_SipUri (u : SipUri.t) (w : World) : loc * World :=
  (next w,
   mkWorld (<[next w := u]> (uris w)) (hops w) (addresses w) (cseqs w) (contacts w)
     (opaques w) (S (next w)) (issuedIDs w) (issuedBranches w)).

Definition new_ViaHop (hop : ViaHop.t) (w : World) : loc * World :=
  (next w,
   mkWorld (uris w) (<[next w := hop]> (hops w)) (addresses w) (cseqs w) (contacts w)
     (opaques w) (S (next w)) (issuedIDs w) (issuedBranches w)).

Definition new_addresses (us : list Uri) (w : World) : loc * World :=
  (next w,
   mkWorld (uris w) (hops w) (<[next w := us]> (addresses w)) (cseqs w) (contacts w)
     (opaques w) (S (next w)) (issuedIDs w) (issuedBranches w)).

Definition new_CSeq (c : CSeq.t) (w : World) : loc * World :=
  (next w,
   mkWorld (uris w) (hops w) (addresses w) (<[next w := c]> (cseqs w)) (contacts w)
     (opaques w) (S (next w)) (issuedIDs w) (issuedBranches w)).

Definition new_Contact (c : ContactHeader.t) (w : World) : loc * World :=
  (next w,
   mkWorld (uris w) (hops w) (addresses w) (cseqs w) (<[next w := c]> (contacts w))
     (opaques w) (S (next w)) (issuedIDs w) (issuedBranches w)).

Definition new_opaque (s : string) (w : World) : loc * World :=
  (next w,
   mkWorld (uris w) (hops w) (addresses w) (cseqs w) (contacts w)
     (<[next w := s]> (opaques w)) (S (next w)) (issuedIDs w) (issuedBranches w)).

(** Assignments through a pointer. *)
Definition store_SipUri (p : loc) (u : SipUri.t) (w : World) : World :=
  mkWorld (<[p := u]> (uris w)) (hops w) (addresses w) (cseqs w) (contacts w)
    (opaques w) (next w) (issuedIDs w) (issuedBranches w).

Definition store_ViaHop (p : loc) (hop : ViaHop.t) (w : World) : World :=
  mkWorld (uris w) (<[p := hop]> (hops w)) (addresses w) (cseqs w) (contacts w)
    (opaques w) (next w) (issuedIDs w) (issuedBranches w).

Definition store_CSeq (p : loc) (c : CSeq.t) (w : World) : World :=
  mkWorld (uris w) (hops w) (addresses w) (<[p := c]> (cseqs w)) (contacts w)
    (opaques w) (next w) (issuedIDs w) (issuedBranches w).

(** ** State passing

    [St A] is a computation on the store that cannot panic, [M A] one that
    can. *)
Definition St (A : Type) : Type := World → A * World.
Definition M (A : Type) : Type := World → Result (A * World).

Definition St_ret {A} (a : A) : St A := λ w, (a, w).
Definition St_bind {A B} (m : St A) (k : A → St B) : St B :=
  λ w, let '(a, w') := m w in k a w'.

Definition M_ret {A} (a : A) : M A := λ w, Ok (a, w).
Definition M_bind {A B} (m : M A) (k : A → M B) : M B :=
  λ w, match m w with
       | Ok (a, w') => k a w'
       | Panic c => Panic c
       end.
Definition lift {A} (m : St A) : M A := λ w, Ok (m w).
Definition panic {A} (c : PanicCause) : M A := λ _, Panic c.

Declare Scope st_scope.
Delimit Scope st_scope with st.
Notation "'let*' x ':=' m 'in' k" :=
  (St_bind m (λ x, k))
  (at level 10, x pattern, m at level 100, k at level 200) : st_scope.

Declare Scope m_scope.
Delimit Scope m_scope with M.
Notation "'let*' x ':=' m 'in' k" :=
  (M_bind m (λ x, k))
  (at level 10, x pattern, m at level 100, k at level 200) : m_scope.

Fixpoint St_mapM {A B} (f : A → St B) (l : list A) : St (list B) :=
  match l with
  | [] => St_ret []
  | x :: l' =>
      (let* y := f x in
       let* ys := St_mapM f l' in
       St_ret (y :: ys))%st
  end.

(** ** Deep copies

    A clone is a new object with the contents of the original, and the
    objects the original points to are cloned in turn. *)

(** Modelled from the spec: [Uri.Clone] is outside the sources; a URI has
    "a clone operation", and URIs "are deep-cloned". *)
Definition Uri_Clone (u : Uri) : St Uri :=
  match u with
  | SipUriPtr p => λ w, let '(p', w') := new_SipUri (uris w p) w in (SipUriPtr p', w')
  | OtherUri repr => St_ret (OtherUri repr)
  end.

(** Modelled from the spec: the [Clone] method of a hop pointer is outside
    the sources; a "deep copy, independent of the original".  The clone of
    a nil pointer is nil, so that [NewCancelRequest] has "no failure path"
    on a request without a Via hop. *)
Definition ViaHop_Clone (hop : option loc) : St (option loc) :=
  match hop with
  | None => St_ret None
  | Some p => λ w, let '(p', w') := new_ViaHop (hops w p) w in (Some p', w')
  end.

(** Modelled from the spec: [Header.Clone] is outside the sources; "every
    variant supports Clone() Header (deep copy, independent of the
    original)". *)
Definition Header_Clone (h : Header) : St Header :=
  match h with
  | ViaHeader hs =>
      (let* hs' := St_mapM ViaHop_Clone hs in St_ret (ViaHeader hs'))%st
  | RouteHeader p =>
      (let* us := (λ w, St_mapM Uri_Clone (addresses w p) w) in
       let* p' := new_addresses us in St_ret (RouteHeader p'))%st
  | RecordRouteHeader p =>
      (let* us := (λ w, St_mapM Uri_Clone (addresses w p) w) in
       let* p' := new_addresses us in St_ret (RecordRouteHeader p'))%st
  | CSeqPtr p =>
      (let* p' := (λ w, new_CSeq (cseqs w p) w) in St_ret (CSeqPtr p'))%st
  | ContactHeaderPtr p =>
      (let* u := (λ w, Uri_Clone (ContactHeader.Address (contacts w p)) w) in
       let* p' := new_Contact (ContactHeader.mk u) in St_ret (ContactHeaderPtr p'))%st
  | FromHeader p =>
      (let* p' := (λ w, new_opaque (opaques w p) w) in St_ret (FromHeader p'))%st
  | ToHeader p =>
      (let* p' := (λ w, new_opaque (opaques w p) w) in St_ret (ToHeader p'))%st
  | CallID p =>
      (let* p' := (λ w, new_opaque (opaques w p) w) in St_ret (CallID p'))%st
  | GenericHeader name p =>
      (let* p' := (λ w, new_opaque (opaques w p) w) in St_ret (GenericHeader name p'))%st
  end.

(** ** The header collection *)

Module headers.

(** Modelled from the spec: the type [headers] is declared outside the
    sources; it is a "mapping from header name to an ordered sequence of
    Header values; insertion order across distinct names is preserved for
    rendering". *)
Record t := mk {
  headers : gmap string (list Header);
  headerOrder : list string }.

Definition empty : t := mk ∅ [].

(** Modelled from the spec: [AppendHeader] is outside the sources; it
    "adds to the end of the name's bucket and to the overall render
    order". *)
Definition AppendHeader (hs : t) (header : Header) : t :=
  let name := Name header in
  match headers hs !! name with
  | Some bucket => mk (<[name := (bucket ++ [header])%list]> (headers hs)) (headerOrder hs)
  | None => mk (<[name := [header]]> (headers hs)) (headerOrder hs ++ [name])%list
  end.

(** Modelled from the spec: [newHeaders] is outside the sources; it
    "builds from an ordered list; headers with the same name are all
    retained, in input order". *)
Definition newHeaders (hdrs : list Header) : t :=
  fold_left AppendHeader hdrs empty.

(** Modelled from the spec: [GetHeaders] is outside the sources; it
    "returns all headers with that name, in original insertion order, or
    an empty sequence if none; never fails". *)
Definition GetHeaders (hs : t) (name : string) : list Header :=
  default [] (headers hs !! name).

(** Modelled from the spec: [Headers] is outside the sources; all the
    headers, in the render order of the names. *)
Definition Headers (hs : t) : list Header :=
  concat (map (GetHeaders hs) (headerOrder hs)).

(** Modelled from the spec: [CloneHeaders] is outside the sources; it
    "returns a new ordered sequence where every element is an independent
    deep copy". *)
Definition CloneHeaders (hs : t) : St (list Header) :=
  St_mapM Header_Clone (Headers hs).

(** Modelled from the spec: [ViaHop] is outside the sources; it locates
    "the request's top-most Via header (the Via hop)", a "lookup-first-by-
    name": the first hop of the first Via header, with the comma-ok flag
    that [Source] tests; the pointer is nil when the flag is false. *)
Definition ViaHop (hs : t) : option loc * bool :=
  match GetHeaders hs "Via" with
  | ViaHeader (hop :: _) :: _ => (hop, true)
  | _ => (None, false)
  end.

(** Modelled from the spec: [CSeq] is outside the sources; the first CSeq
    header, with the comma-ok flag. *)
Definition CSeq (hs : t) : option loc * bool :=
  match GetHeaders hs "CSeq" with
  | CSeqPtr p :: _ => (Some p, true)
  | _ => (None, false)
  end.

(** Modelled from the spec: [Contact] is outside the sources; the first
    Contact header, with the comma-ok flag that [NewAckRequest] tests. *)
Definition Contact (hs : t) : option loc * bool :=
  match GetHeaders hs "Contact" with
  | ContactHeaderPtr p :: _ => (Some p, true)
  | _ => (None, false)
  end.

End headers.

(** ** Messages, requests and responses *)

Module message.

(** Modelled from the spec: the type [message], embedded in requests and
    responses, is declared outside the sources; its fields are
    "messageID", "sipVersion", "headers", "body", "fields" and "src/dest
    (resolved transport address overrides, empty until set by the transport
    layer)". *)
Record t := mk {
  messID : MessageID;
  sipVersion : string;
  headers : headers.t;
  body : string;
  fields : log.Fields;
  src : string;
  dest : string }.

Definition withHeaders (msg : t) (hs : headers.t) : t :=
  mk (messID msg) (sipVersion msg) hs (body msg) (fields msg) (src msg) (dest msg).

Definition AppendHeader (msg : t) (header : Header) : t :=
  withHeaders msg (headers.AppendHeader (headers msg) header).

Definition GetHeaders (msg : t) (name : string) : list Header :=
  headers.GetHeaders (headers msg) name.

End message.

(** [type request struct { message; method RequestMethod; recipient Uri }] *)
Record request := mkRequest {
  msg : message.t;
  method : RequestMethod;
  recipient : Uri }.

(** Modelled from the spec: the type of responses is declared outside the
    sources; a response is a "Message", and request.go uses nothing
    else of it. *)
Record response := mkResponse {
  resp_msg : message.t }.

Definition withMsg (req : request) (m : message.t) : request :=
  mkRequest m (method req) (recipient req).

Definition Method (req : request) : RequestMethod := method req.
Definition Recipient (req : request) : Uri := recipient req.
Definition MessageID_of (req : request) : MessageID := message.messID (msg req).
Definition SipVersion (req : request) : string := message.sipVersion (msg req).
Definition Body (req : request) : string := message.body (msg req).
Definition Fields (req : request) : log.Fields := message.fields (msg req).
Definition Headers (req : request) : list Header := headers.Headers (message.headers (msg req)).
Definition GetHeaders (req : request) (name : string) : list Header :=
  message.GetHeaders (msg req) name.
Definition AppendHeader (req : request) (header : Header) : request :=
  withMsg req (message.AppendHeader (msg req) header).
Definition ViaHop_of (req : request) : option loc * bool :=
  headers.ViaHop (message.headers (msg req)).
Definition CSeq_of (req : request) : option loc * bool :=
  headers.CSeq (message.headers (msg req)).

Definition IsInvite (req : request) : bool := bool_decide (Method req = INVITE).
Definition IsAck (req : request) : bool := bool_decide (Method req = ACK).
Definition IsCancel (req : request) : bool := bool_decide (Method req = CANCEL).

(** Modelled from the spec: [CopyHeaders] is absent from the sources; the
    derived requests "copy" the headers of a name from one message to
    another, and "headers are cloned, never shared": each header of that
    name is cloned and the clone appended, in order. *)
Fixpoint CopyHeaders_loop (hdrs : list Header) (to : message.t) : St message.t :=
  match hdrs with
  | [] => St_ret to
  | h :: rest =>
      (let* h' := Header_Clone h in
       CopyHeaders_loop rest (message.AppendHeader to h'))%st
  end.

Definition CopyHeaders (name : string) (from : message.t) (to : request) : St request :=
  (let* m := CopyHeaders_loop (message.GetHeaders from name) (msg to) in
   St_ret (withMsg to m))%st.

(** ** The collaborators

    The functions of the package that request.go calls and that are
    outside the sources, taken as parameters: the default port of a
    transport, the transport of a message, and the generators of message
    identifiers and branch tokens, which return the value of a sequence at
    the number of tokens issued so far. *)
Class Collaborators := {
  DefaultPort : string → Port;
  Transport : World → message.t → string;
  messageIDs : nat → MessageID;
  branches : nat → string }.

(** ** request.go *)

Section Request.
Context `{Collaborators}.

Definition NextMessageID : St MessageID :=
  λ w, (messageIDs (issuedIDs w),
        mkWorld (uris w) (hops w) (addresses w) (cseqs w) (contacts w) (opaques w)
          (next w) (S (issuedIDs w)) (issuedBranches w)).

Definition GenerateBranch : St string :=
  λ w, (branches (issuedBranches w),
        mkWorld (uris w) (hops w) (addresses w) (cseqs w) (contacts w) (opaques w)
          (next w) (issuedIDs w) (S (issuedBranches w))).

(** Modelled from the spec: [SetBody] is outside the sources; the body is
    "set on the message with a flag indicating the body was explicitly
    provided". *)
Definition SetBody (req : request) (body : string) (setContentLength : bool) : request :=
  mkRequest
    (message.mk (MessageID_of req) (SipVersion req) (message.headers (msg req)) body
       (Fields req) (message.src (msg req)) (message.dest (msg req)))
    (method req) (recipient req).

Definition NewRequest (messID : MessageID) (method : RequestMethod) (recipient : Uri)
    (sipVersion : string) (hdrs : list Header) (body : string) (fields : log.Fields)
  : St request :=
  (let* id := (if bool_decide (messID = "") then NextMessageID else St_ret messID) in
   let req :=
     mkRequest
       (message.mk id sipVersion (headers.newHeaders hdrs) ""
          (log.WithFields fields {["request_id" := id]}) "" "")
       method recipient in
   St_ret (if bool_decide (strings.TrimSpace body ≠ "") then SetBody req body true
           else req))%st.

Definition Clone (req : request) : St request :=
  (let* r := Uri_Clone (Recipient req) in
   let* hdrs := headers.CloneHeaders (message.headers (msg req)) in
   NewRequest "" (Method req) r (SipVersion req) hdrs (Body req) (Fields req))%st.

Definition WithFields (req : request) (fields : log.Fields) : St request :=
  (let* r := Uri_Clone (Recipient req) in
   let* hdrs := headers.CloneHeaders (message.headers (msg req)) in
   NewRequest (MessageID_of req) (Method req) r (SipVersion req) hdrs (Body req)
     (log.WithFields (Fields req) fields))%st.

(** [Source] and [Destination] only read the store. *)
Definition Source (req : request) (w : World) : Result string :=
  if bool_decide (message.src (msg req) ≠ "") then Ok (message.src (msg req))
  else
    match ViaHop_of req with
    | (_, false) => Ok ""
    | (None, true) => Panic NilDereference
    | (Some p, true) =>
        let viaHop := hops w p in
        let host :=
          match Params.Get (ViaHop.Params viaHop) "received" with
          | (Some received, true) =>
              Ok (if bool_decide (received ≠ "") then received else ViaHop.Host viaHop)
          | (None, true) => Panic NilDereference
          | (_, false) => Ok (ViaHop.Host viaHop)
          end in
        let fallback :=
          match ViaHop.Port viaHop with
          | Some port => port
          | None => DefaultPort (Transport w (msg req))
          end in
        let port :=
          match Params.Get (ViaHop.Params viaHop) "rport" with
          | (Some rport, true) =>
              if bool_decide (rport ≠ "") then uint16 (strconv.Atoi rport).1
              else fallback
          | _ => fallback
          end in
        match host with
        | Ok host => Ok (fmt.Sprintf_host_port host port)
        | Panic c => Panic c
        end
    end.

Definition Destination (req : request) (w : World) : Result string :=
  if bool_decide (message.dest (msg req) ≠ "") then Ok (message.dest (msg req))
  else
    let route : Result (option loc) :=
      match GetHeaders req "Route" with
      | RouteHeader routeHeader :: _ =>
          match addresses w routeHeader with
          | SipUriPtr uri :: _ => Ok (Some uri)
          | OtherUri _ :: _ => Panic InterfaceConversion
          | [] => Ok None
          end
      | _ :: _ => Panic InterfaceConversion
      | [] => Ok None
      end in
    let governing : Result (option loc) :=
      match route with
      | Ok None =>
          match Recipient req with
          | SipUriPtr u => Ok (Some u)
          | OtherUri _ => Ok None
          end
      | r => r
      end in
    match governing with
    | Panic c => Panic c
    | Ok None => Ok ""
    | Ok (Some uri) =>
        let host := SipUri.FHost (uris w uri) in
        let port :=
          match SipUri.FPort (uris w uri) with
          | None => DefaultPort (Transport w (msg req))
          | Some port => port
          end in
        Ok (fmt.Sprintf_host_port host port)
    end.

(** The inner loop of [NewAckRequest]:
    [for i := len(Addresses) - 1; i >= 0; i-- { uris = append(uris, Addresses[i].Clone()) }],
    entered with [n = len(Addresses)]. *)
Fixpoint reversed_clones (n : nat) (recordRoute : loc) (uris : list Uri) : St (list Uri) :=
  match n with
  | O => St_ret uris
  | S i =>
      λ w,
        match addresses w recordRoute !! i with
        | Some u =>
            (let* u' := Uri_Clone u in
             reversed_clones i recordRoute (uris ++ [u'])%list)%st w
        | None => (uris, w)
        end
  end.

(** The loop over the Record-Route headers of the response. *)
Fixpoint routes_of_record_routes (hdrs : list Header) (ackRequest : request) : M request :=
  match hdrs with
  | [] => M_ret ackRequest
  | RecordRouteHeader h :: rest =>
      (let* uris := lift (λ w, reversed_clones (length (addresses w h)) h [] w) in
       let* route := lift (new_addresses uris) in
       routes_of_record_routes rest (AppendHeader ackRequest (RouteHeader route)))%M
  | _ :: _ => panic InterfaceConversion
  end.

Definition set_branch (viaHop : loc) (branch : string) : St unit :=
  λ w, (tt, store_ViaHop viaHop
              (ViaHop.withParams (hops w viaHop)
                 (Params.Add (ViaHop.Params (hops w viaHop)) "branch" (Some branch))) w).

Definition set_MethodName (cseq : loc) (m : RequestMethod) : St unit :=
  λ w, (tt, store_CSeq cseq (CSeq.mk (CSeq.SeqNo (cseqs w cseq)) m) w).

Definition NewAckRequest (ackID : MessageID) (inviteRequest : request)
    (inviteResponse : response) (fields : log.Fields) : M request :=
  (let* recipient :=
     lift (λ w,
       (match headers.Contact (message.headers (resp_msg inviteResponse)) with
        | (Some contact, true) => ContactHeader.Address (contacts w contact)
        | _ => Recipient inviteRequest
        end, w)) in
   let* ackRequest :=
     lift (NewRequest ackID ACK recipient (message.sipVersion (resp_msg inviteResponse))
             [] ""
             (log.WithFields (log.WithFields (Fields inviteRequest) fields)
                {[ "invite_request_id" := MessageID_of inviteRequest;
                   "invite_response_id" := message.messID (resp_msg inviteResponse) ]})) in
   let* ackRequest := lift (CopyHeaders "Via" (msg inviteRequest) ackRequest) in
   let* tt :=
     match ViaHop_of ackRequest with
     | (Some viaHop, _) =>
         lift (let* branch := GenerateBranch in set_branch viaHop branch)%st
     | (None, _) => panic NilDereference
     end in
   let* ackRequest :=
     (if bool_decide (0 < length (GetHeaders inviteRequest "Route"))
      then lift (CopyHeaders "Route" (msg inviteRequest) ackRequest)
      else routes_of_record_routes
             (message.GetHeaders (resp_msg inviteResponse) "Record-Route") ackRequest) in
   let* ackRequest := lift (CopyHeaders "From" (msg inviteRequest) ackRequest) in
   let* ackRequest := lift (CopyHeaders "To" (resp_msg inviteResponse) ackRequest) in
   let* ackRequest := lift (CopyHeaders "Call-ID" (msg inviteRequest) ackRequest) in
   let* ackRequest := lift (CopyHeaders "CSeq" (msg inviteRequest) ackRequest) in
   let* tt :=
     match CSeq_of ackRequest with
     | (Some cseq, _) => lift (set_MethodName cseq ACK)
     | (None, _) => panic NilDereference
     end in
   M_ret ackRequest)%M.

Definition NewCancelRequest (cancelID : MessageID) (requestForCancel : request)
    (fields : log.Fields) : M request :=
  (let* cancelReq :=
     lift (NewRequest cancelID CANCEL (Recipient requestForCancel)
             (SipVersion requestForCancel) [] ""
             (log.WithFields (log.WithFields (Fields requestForCancel) fields)
                {[ "cancelling_request_id" := MessageID_of requestForCancel ]})) in
   let* hop := lift (ViaHop_Clone (ViaHop_of requestForCancel).1) in
   let cancelReq := AppendHeader cancelReq (ViaHeader [hop]) in
   let* cancelReq := lift (CopyHeaders "Route" (msg requestForCancel) cancelReq) in
   let* cancelReq := lift (CopyHeaders "From" (msg requestForCancel) cancelReq) in
   let* cancelReq := lift (CopyHeaders "To" (msg requestForCancel) cancelReq) in
   let* cancelReq := lift (CopyHeaders "Call-ID" (msg requestForCancel) cancelReq) in
   let* cancelReq := lift (CopyHeaders "CSeq" (msg requestForCancel) cancelReq) in
   let* tt :=
     match CSeq_of cancelReq with
     | (Some cseq, _) => lift (set_MethodName cseq CANCEL)
     | (None, _) => panic NilDereference
     end in
   M_ret cancelReq)%M.

Definition CopyRequest (req : request) : St request :=
  (let* hdrs := St_mapM Header_Clone (Headers req) in
   let* r := Uri_Clone (Recipient req) in
   NewRequest (MessageID_of req) (Method req) r (SipVersion req) hdrs (Body req)
     (Fields req))%st.

End Request.

(** ** Views of a request in a store, used to state the properties *)

(** The branch parameter of the top Via hop. *)
Definition branch_of (req : request) (w : World) : MaybeString * bool :=
  match ViaHop_of req with
  | (Some p, true) => Params.Get (ViaHop.Params (hops w p)) "branch"
  | _ => (None, false)
  end.

(** The contents of the first CSeq header. *)
Definition cseq_of (req : request) (w : World) : option CSeq.t :=
  match CSeq_of req with
  | (Some p, true) => Some (cseqs w p)
  | _ => None
  end.

(** The contents of a URI. *)
Inductive UriView :=
| SipUriView (u : SipUri.t)
| OtherUriView (repr : string).

Definition view_uri (w : World) (u : Uri) : UriView :=
  match u with
  | SipUriPtr p => SipUriView (uris w p)
  | OtherUri repr => OtherUriView repr
  end.

(** The Route set of a request: the addresses of its Route headers, in
    the order in which a proxy reads them. *)
Definition route_set (req : request) (w : World) : list UriView :=
  concat (map (λ h, match h with
                    | RouteHeader p => map (view_uri w) (addresses w p)
                    | _ => []
                    end) (GetHeaders req "Route")).

(** The addresses of the Record-Route headers of a response, in header
    order. *)
Definition record_route_set (res : response) (w : World) : list UriView :=
  concat (map (λ h, match h with
                    | RecordRouteHeader p => map (view_uri w) (addresses w p)
                    | _ => []
                    end) (message.GetHeaders (resp_msg res) "Record-Route")).

(** Every header of a collection sits in the bucket of its own name; this
    holds of every collection built by [newHeaders] and [AppendHeader]. *)
Definition headers_wf (hs : headers.t) : Prop :=
  ∀ k h, h ∈ headers.GetHeaders hs k → Name h = k.

Definition is_RecordRouteHeader (h : Header) : Prop :=
  match h with RecordRouteHeader _ => True | _ => False end.

(** What is left of a store by a computation that only allocates: the
    objects allocated before are where they were, with the same
    contents. *)
Record frame (w w' : World) : Prop := mkFrame {
  frame_next : next w ≤ next w';
  frame_uris : ∀ l, l < next w → uris w' l = uris w l;
  frame_hops : ∀ l, l < next w → hops w' l = hops w l;
  frame_addresses : ∀ l, l < next w → addresses w' l = addresses w l;
  frame_cseqs : ∀ l, l < next w → cseqs w' l = cseqs w l;
  frame_contacts : ∀ l, l < next w → contacts w' l = contacts w l;
  frame_opaques : ∀ l, l < next w → opaques w' l = opaques w l }.

(** A computation that only allocates: it also leaves the generators
    alone. *)
Definition allocates_only {A} (m : St A) : Prop :=
  ∀ w, frame w (m w).2 ∧
       issuedIDs (m w).2 = issuedIDs w ∧
       issuedBranches (m w).2 = issuedBranches w.

(** Two stores with the same objects (the generators may differ). *)
Record same_objects (w w' : World) : Prop := mkSameObjects {
  same_uris : uris w' = uris w;
  same_hops : hops w' = hops w;
  same_addresses : addresses w' = addresses w;
  same_cseqs : cseqs w' = cseqs w;
  same_contacts : contacts w' = contacts w;
  same_opaques : opaques w' = opaques w;
  same_next : next w' = next w }.

(** What a constructor returns, seen through a view. *)
Definition observe {A B} (view : A → World → B) (r : Result (A * World)) : Result B :=
  match r with
  | Ok (a, w) => Ok (view a w)
  | Panic c => Panic c
  end.

(** The host and port of a SIP URI as [Destination] prints them. *)
Definition host_port (default_port : Port) (u : SipUri.t) : string :=
  fmt.Sprintf_host_port (SipUri.FHost u)
    (match SipUri.FPort u with Some port => port | None => default_port end).

(** ** The specification's wording of two rules, for comparison *)

(** The port of a non-empty rport parameter in the words of the
    specification of [Source]: "parsed as an unsigned 16-bit integer", "a
    parse failure yields a zero port rather than aborting". *)
Definition rport_as_specified (rport : string) : Port :=
  match strconv.Atoi rport with
  | (p, None) => uint16 p
  | (_, Some _) => 0%Z
  end.

(** The governing URI in the words of the specification of
    [Destination]: "the first address of the first Route header" when "the
    request carries one or more Route headers", else the recipient "only
    if it is of the concrete SIP-URI variant". *)
Definition Destination_as_specified `{Collaborators} (req : request) (w : World) : Prop :=
  match GetHeaders req "Route" with
  | first :: _ =>
      ∃ p u rest,
        first = RouteHeader p ∧ addresses w p = SipUriPtr u :: rest ∧
        Destination req w = Ok (host_port (DefaultPort (Transport w (msg req))) (uris w u))
  | [] =>
      match Recipient req with
      | SipUriPtr u =>
          Destination req w = Ok (host_port (DefaultPort (Transport w (msg req))) (uris w u))
      | OtherUri _ => Destination req w = Ok ""
      end
  end.

(** ** Example data *)

(** Collaborators for the examples: 5061 for TLS and 5060 otherwise, every
    message on UDP, and numbered tokens. *)
Definition example_collaborators : Collaborators :=
  {| DefaultPort := λ transport, if bool_decide (transport = "TLS") then 5061%Z else 5060%Z;
     Transport := λ _ _, "UDP";
     messageIDs := λ n, ("id-" ++ fmt.uint_v (Z.of_nat n))%string;
     branches := λ n, ("z9hG4bK." ++ fmt.uint_v (Z.of_nat n))%string |}.

(** A store with the objects of the examples, all below location 19. *)
Definition example_world : World :=
  mkWorld
    (<[0 := SipUri.mk "example.com" None]>
     (<[6 := SipUri.mk "p1.example.com" None]>
     (<[7 := SipUri.mk "p2.example.com" None]>
     (<[14 := SipUri.mk "proxy.example.com" (Some 5080%Z)]>
     (λ _, SipUri.mk "" None)))))
    (<[1 := ViaHop.mk "UDP" "client.example.com" (Some 5060%Z) [("branch", Some "z9hG4bK-1")]]>
     (<[12 := ViaHop.mk "UDP" "10.0.0.1" (Some 5060%Z) [("received", Some "1.2.3.4")]]>
     (<[13 := ViaHop.mk "UDP" "client.example.com" (Some 5060%Z)
                [("rport", Some "99999999999999999999")]]>
     (<[18 := ViaHop.mk "UDP" "client.example.com" None [("received", None)]]>
     (λ _, ViaHop.mk "" "" None [])))))
    (<[8 := [SipUriPtr 6]]>
     (<[9 := [SipUriPtr 7]]>
     (<[11 := [SipUriPtr 6; SipUriPtr 7]]>
     (<[15 := [SipUriPtr 14]]>
     (<[16 := []]>
     (λ _, []))))))
    (<[5 := CSeq.mk 42 INVITE]> (λ _, CSeq.mk 0 ""))
    (λ _, ContactHeader.mk (OtherUri ""))
    (<[2 := "<sip:alice@example.com>;tag=a1"]>
     (<[3 := "<sip:bob@example.com>"]>
     (<[4 := "call-1"]>
     (<[10 := "<sip:bob@example.com>;tag=b2"]>
     (λ _, "")))))
    19 0 0.

(** A request to [sip:example.com] (the URI at location 0) with the given
    headers. *)
Definition example_request (hdrs : list Header) : request :=
  mkRequest
    (message.mk "inv-1" "SIP/2.0" (headers.newHeaders hdrs) "" {["request_id" := "inv-1"]}
       "" "")
    INVITE (SipUriPtr 0).

(** An INVITE with Via branch [z9hG4bK-1] and CSeq [(42, INVITE)]. *)
Definition example_invite : request :=
  example_request [ViaHeader [Some 1]; FromHeader 2; ToHeader 3; CallID 4; CSeqPtr 5].

Definition invite_without_Via : request :=
  example_request [FromHeader 2; ToHeader 3; CallID 4; CSeqPtr 5].

Definition invite_without_CSeq : request :=
  example_request [ViaHeader [Some 1]; FromHeader 2; ToHeader 3; CallID 4].

Definition example_response_with (hdrs : list Header) : response :=
  mkResponse (message.mk "resp-1" "SIP/2.0" (headers.newHeaders hdrs) "" ∅ "" "").

(** A 2xx response with two Record-Route header lines, R1 = p1.example.com
    then R2 = p2.example.com. *)
Definition example_response : response :=
  example_response_with [RecordRouteHeader 8; RecordRouteHeader 9; ToHeader 10].

(** The same addresses on one Record-Route header line. *)
Definition response_with_one_line : response :=
  example_response_with [RecordRouteHeader 11; ToHeader 10].

Definition R1 : UriView := SipUriView (SipUri.mk "p1.example.com" None).
Definition R2 : UriView := SipUriView (SipUri.mk "p2.example.com" None).

(** Requests for the address resolution examples. *)
Definition request_with_received : request := example_request [ViaHeader [Some 12]].
Definition request_with_long_rport : request := example_request [ViaHeader [Some 13]].
Definition request_with_nil_received : request := example_request [ViaHeader [Some 18]].
Definition request_with_route : request := example_request [RouteHeader 15].
Definition request_with_empty_route : request := example_request [RouteHeader 16].



(** The example INVITE with the given body. *)
Definition invite_with_body (body : string) : request :=
  mkRequest
    (message.mk "inv-1" "SIP/2.0" (message.headers (msg example_invite)) body
       {["request_id" := "inv-1"]} "" "")
    INVITE (SipUriPtr 0).

(** An assignment to the host of the URI that the recipient of [req]
    points to. *)
Definition set_recipient_host (host : string) (req : request) (w : World) : World :=
  match Recipient req with
  | SipUriPtr p => store_SipUri p (SipUri.mk host (SipUri.FPort (uris w p))) w
  | OtherUri _ => w
  end.

(** ** More of request.go: the request line *)

(** [StartLine] prints the method, the recipient and the SIP version with
    [fmt.Sprintf("%s %s %s", ...)].  The [String] method of URIs is outside
    the sources: it is the parameter [Uri_String], a function of the
    contents of the URI. *)
Definition StartLine (Uri_String : UriView → string) (req : request) (w : World) : string :=
  (Method req ++ " " ++ Uri_String (view_uri w (Recipient req)) ++ " " ++ SipVersion req)%string.

(** ** Views of whole headers *)

(** The contents of a header, with the objects it points to. *)
Inductive HeaderView :=
| ViaView (hops : list (option ViaHop.t))
| RouteView (addrs : list UriView)
| RecordRouteView (addrs : list UriView)
| CSeqView (c : CSeq.t)
| ContactView (addr : UriView)
| FromView (contents : string)
| ToView (contents : string)
| CallIDView (contents : string)
| GenericView (name contents : string).

Definition view_header (w : World) (h : Header) : HeaderView :=
  match h with
  | ViaHeader hs => ViaView (map (option_map (hops w)) hs)
  | RouteHeader p => RouteView (map (view_uri w) (addresses w p))
  | RecordRouteHeader p => RecordRouteView (map (view_uri w) (addresses w p))
  | CSeqPtr p => CSeqView (cseqs w p)
  | ContactHeaderPtr p => ContactView (view_uri w (ContactHeader.Address (contacts w p)))
  | FromHeader p => FromView (opaques w p)
  | ToHeader p => ToView (opaques w p)
  | CallID p => CallIDView (opaques w p)
  | GenericHeader name p => GenericView name (opaques w p)
  end.

(** The headers of a name, by contents. *)
Definition view_headers (w : World) (req : request) (name : string) : list HeaderView :=
  map (view_header w) (GetHeaders req name).

(** Every object that a URI, a header or a request points to, directly or
    through another object, lies at a location from [lo] up to, and not
    including, [hi]. *)
Definition uri_between (lo hi : loc) (u : Uri) : Prop :=
  match u with
  | SipUriPtr p => lo ≤ p < hi
  | OtherUri _ => True
  end.

Definition hop_between (lo hi : loc) (hop : option loc) : Prop :=
  match hop with
  | Some p => lo ≤ p < hi
  | None => True
  end.

Definition header_between (lo hi : loc) (w : World) (h : Header) : Prop :=
  match h with
  | ViaHeader hs => Forall (hop_between lo hi) hs
  | RouteHeader p | RecordRouteHeader p =>
      lo ≤ p < hi ∧ Forall (uri_between lo hi) (addresses w p)
  | ContactHeaderPtr p =>
      lo ≤ p < hi ∧ uri_between lo hi (ContactHeader.Address (contacts w p))
  | CSeqPtr p | FromHeader p | ToHeader p | CallID p | GenericHeader _ p => lo ≤ p < hi
  end.

Definition headers_between (lo hi : loc) (w : World) (hs : headers.t) : Prop :=
  ∀ k h, h ∈ headers.GetHeaders hs k → header_between lo hi w h.

Definition request_between (lo hi : loc) (w : World) (req : request) : Prop :=
  headers_between lo hi w (message.headers (msg req)) ∧ uri_between lo hi (Recipient req).

(** A header collection as [newHeaders] and [AppendHeader] build it: every
    header is in the bucket of its name, and the render order lists each
    name that has a bucket once. *)
Definition headers_ok (hs : headers.t) : Prop :=
  headers_wf hs ∧
  NoDup (headers.headerOrder hs) ∧
  ∀ k, k ∈ headers.headerOrder hs ↔ is_Some (headers.headers hs !! k).

(** Two requests that differ by their headers only. *)
Definition same_envelope (a b : request) : Prop :=
  method a = method b ∧ recipient a = recipient b ∧
  message.messID (msg a) = message.messID (msg b) ∧
  message.sipVersion (msg a) = message.sipVersion (msg b) ∧
  message.body (msg a) = message.body (msg b) ∧
  message.fields (msg a) = message.fields (msg b) ∧
  message.src (msg a) = message.src (msg b) ∧
  message.dest (msg a) = message.dest (msg b).

(** The name of a header, read off its contents. *)
Definition view_name (v : HeaderView) : string :=
  match v with
  | ViaView _ => "Via"
  | RouteView _ => "Route"
  | RecordRouteView _ => "Record-Route"
  | CSeqView _ => "CSeq"
  | ContactView _ => "Contact"
  | FromView _ => "From"
  | ToView _ => "To"
  | CallIDView _ => "Call-ID"
  | GenericView name _ => name
  end.

(** Two stores with the same objects at the locations from [lo] up to, and
    not including, [hi]. *)
Record agree (lo hi : loc) (w w' : World) : Prop := mkAgree {
  agree_uris : ∀ l, lo ≤ l < hi → uris w' l = uris w l;
  agree_hops : ∀ l, lo ≤ l < hi → hops w' l = hops w l;
  agree_addresses : ∀ l, lo ≤ l < hi → addresses w' l = addresses w l;
  agree_cseqs : ∀ l, lo ≤ l < hi → cseqs w' l = cseqs w l;
  agree_contacts : ∀ l, lo ≤ l < hi → contacts w' l = contacts w l;
  agree_opaques : ∀ l, lo ≤ l < hi → opaques w' l = opaques w l }.

(** A request under construction in [w] by a call that started in [w0]:
    the objects of [w0] are as they were, and the headers of the request
    are in the buckets of their names and point to objects allocated since
    then only. *)
Definition built (w0 w : World) (to : request) : Prop :=
  agree 0 (next w0) w0 w ∧ next w0 ≤ next w ∧
  headers_wf (message.headers (msg to)) ∧
  headers_between (next w0) (next w) w (message.headers (msg to)).

(** The Route header that [NewAckRequest] builds from a Record-Route
    header: the same addresses in reverse order. *)
Definition route_of_record_route (v : HeaderView) : HeaderView :=
  match v with
  | RecordRouteView addrs => RouteView (rev addrs)
  | v => v
  end.

(** [r'] in [w'] is a deep copy of [r] in [w]: the same request line, the
    same headers under every name and the same recipient by contents, on
    objects that were allocated since [w] only, the objects of [w] being
    as they were.  The body is kept unless it is blank, and the cached
    source and destination addresses are not kept.  A Content-Length
    header is left out when there is a body, [SetBody] being outside the
    sources. *)
Definition is_copy_of (w : World) (r : request) (w' : World) (r' : request) : Prop :=
  Method r' = Method r ∧ SipVersion r' = SipVersion r ∧
  Body r' = (if bool_decide (strings.TrimSpace (Body r) ≠ "") then Body r else "") ∧
  message.src (msg r') = "" ∧ message.dest (msg r') = "" ∧
  view_uri w' (Recipient r') = view_uri w (Recipient r) ∧
  (∀ k, strings.TrimSpace (Body r) = "" ∨ k ≠ "Content-Length" →
        view_headers w' r' k = view_headers w r k) ∧
  request_between (next w) (next w') w' r' ∧
  frame w w'.

(** The addresses of a Route header, by contents. *)
Definition route_addresses (v : HeaderView) : list UriView :=
  match v with
  | RouteView addrs => addrs
  | _ => []
  end.

(** ** Package log: the logger of logrus.go *)

Module LogrusLogger.
Section Logger.

(** [logrus.Ext1FieldLogger], the logger of the logrus library that does
    the printing. *)
Context {Ext1FieldLogger : Type}.

(** [type LogrusLogger struct { log; prefix; fields }] *)
Record t := mk {
  log : Ext1FieldLogger;
  prefix : string;
  fields : log.Fields }.

Definition NewLogrusLogger (logrus : Ext1FieldLogger) (prefix : string)
    (fields : log.Fields) : t :=
  mk logrus prefix fields.

(** [NewDefaultLogrusLogger] wraps a new logrus logger, here [logger],
    with the prefix [main] and the nil mapping. *)
Definition NewDefaultLogrusLogger (logger : Ext1FieldLogger) : t :=
  NewLogrusLogger logger "main" ∅.

Definition Prefix (l : t) : string := prefix l.

Definition Fields (l : t) : log.Fields := fields l.

Definition WithPrefix (l : t) (prefix : string) : t :=
  NewLogrusLogger (log l) prefix (Fields l).

Definition WithFields (l : t) (fields : log.Fields) : t :=
  NewLogrusLogger (log l) (Prefix l) (log.WithFields (Fields l) fields).

End Logger.
Arguments t : clear implicits.
End LogrusLogger.

(** The first hop of the first Via header, by contents, with the comma-ok
    flag of [ViaHop]. *)
Definition top_hop (req : request) (w : World) : option ViaHop.t * bool :=
  (option_map (hops w) (ViaHop_of req).1, (ViaHop_of req).2).

(** * Properties *)

(** ** The header collection *)

Lemma GetHeaders_AppendHeader hs h k :
  headers.GetHeaders (headers.AppendHeader hs h) k =
  (headers.GetHeaders hs k ++ (if decide (Name h = k) then [h] else []))%list.
Proof.
  unfold headers.GetHeaders, headers.AppendHeader.
  destruct (headers.headers hs !! Name h) as [bucket|] eqn:E; simpl;
    case_decide as Hk; subst.
  - rewrite lookup_insert_eq, E. reflexivity.
  - rewrite lookup_insert_ne by done. by rewrite app_nil_r.
  - rewrite lookup_insert_eq, E. reflexivity.
  - rewrite lookup_insert_ne by done. by rewrite app_nil_r.
Qed.

Lemma GetHeaders_fold_AppendHeader hdrs hs k :
  headers.GetHeaders (fold_left headers.AppendHeader hdrs hs) k =
  (headers.GetHeaders hs k ++ filter (λ h, Name h = k) hdrs)%list.
Proof.
  revert hs. induction hdrs as [|h hdrs IH]; intros hs; simpl.
  - by rewrite app_nil_r.
  - rewrite IH, GetHeaders_AppendHeader, filter_cons.
    case_decide; simpl; by rewrite <- ?app_assoc, ?app_nil_r.
Qed.

Lemma GetHeaders_empty k : headers.GetHeaders headers.empty k = [].
Proof. unfold headers.GetHeaders, headers.empty. simpl. by rewrite lookup_empty. Qed.

Lemma GetHeaders_newHeaders hdrs k :
  headers.GetHeaders (headers.newHeaders hdrs) k = filter (λ h, Name h = k) hdrs.
Proof.
  unfold headers.newHeaders.
  by rewrite GetHeaders_fold_AppendHeader, GetHeaders_empty.
Qed.

Lemma headers_wf_empty : headers_wf headers.empty.
Proof. intros k h. rewrite GetHeaders_empty. by intros ?%elem_of_nil. Qed.

Lemma headers_wf_AppendHeader hs h :
  headers_wf hs → headers_wf (headers.AppendHeader hs h).
Proof.
  intros Hwf k h'. rewrite GetHeaders_AppendHeader, elem_of_app.
  intros [Hin|Hin]; [by apply Hwf|].
  case_decide; [|by apply elem_of_nil in Hin].
  apply list_elem_of_singleton in Hin. by subst.
Qed.

Lemma headers_wf_newHeaders hdrs : headers_wf (headers.newHeaders hdrs).
Proof.
  intros k h. rewrite GetHeaders_newHeaders.
  by intros [? _]%list_elem_of_filter.
Qed.

(** ** The store *)

Lemma frame_refl w : frame w w.
Proof. by constructor. Qed.

Lemma frame_trans w1 w2 w3 : frame w1 w2 → frame w2 w3 → frame w1 w3.
Proof.
  intros [Hn1 Hu1 Hh1 Ha1 Hc1 Hk1 Ho1] [Hn2 Hu2 Hh2 Ha2 Hc2 Hk2 Ho2].
  constructor; [lia|..]; intros l Hl.
  - rewrite Hu2 by lia. by apply Hu1.
  - rewrite Hh2 by lia. by apply Hh1.
  - rewrite Ha2 by lia. by apply Ha1.
  - rewrite Hc2 by lia. by apply Hc1.
  - rewrite Hk2 by lia. by apply Hk1.
  - rewrite Ho2 by lia. by apply Ho1.
Qed.

Lemma fn_insert_other {T} (f : loc → T) (l l' : loc) (x : T) :
  l' < l → <[l := x]> f l' = f l'.
Proof. intros Hl. apply fn_lookup_insert_ne. lia. Qed.

Ltac frame_new :=
  constructor; simpl; [lia|..]; intros; try reflexivity;
  by apply fn_insert_other.

Lemma frame_new_SipUri u w : frame w (new_SipUri u w).2.
Proof. frame_new. Qed.
Lemma frame_new_ViaHop hop w : frame w (new_ViaHop hop w).2.
Proof. frame_new. Qed.
Lemma frame_new_addresses us w : frame w (new_addresses us w).2.
Proof. frame_new. Qed.
Lemma frame_new_CSeq c w : frame w (new_CSeq c w).2.
Proof. frame_new. Qed.
Lemma frame_new_Contact c w : frame w (new_Contact c w).2.
Proof. frame_new. Qed.
Lemma frame_new_opaque s w : frame w (new_opaque s w).2.
Proof. frame_new. Qed.

(** An assignment to an object allocated after [w0] is not seen from
    [w0]. *)
Lemma frame_store_ViaHop w0 w p hop :
  frame w0 w → next w0 ≤ p → frame w0 (store_ViaHop p hop w).
Proof.
  intros [] Hp. constructor; simpl; try done.
  intros l Hl. rewrite fn_insert_other by lia. auto.
Qed.

Lemma frame_store_CSeq w0 w p c :
  frame w0 w → next w0 ≤ p → frame w0 (store_CSeq p c w).
Proof.
  intros [] Hp. constructor; simpl; try done.
  intros l Hl. rewrite fn_insert_other by lia. auto.
Qed.

Lemma allocates_only_ret {A} (a : A) : allocates_only (St_ret a).
Proof. intros w. split; [apply frame_refl|done]. Qed.

Lemma allocates_only_bind {A B} (m : St A) (k : A → St B) :
  allocates_only m → (∀ a, allocates_only (k a)) → allocates_only (St_bind m k).
Proof.
  intros Hm Hk w. unfold St_bind.
  destruct (Hm w) as (Hf & Hi & Hb). destruct (m w) as [a w1]; simpl in *.
  destruct (Hk a w1) as (Hf' & Hi' & Hb').
  split; [by eapply frame_trans|]. split; congruence.
Qed.

Lemma allocates_only_read {A B} (r : World → A) (k : A → St B) :
  (∀ a, allocates_only (k a)) → allocates_only (λ w, k (r w) w).
Proof. intros Hk w. apply Hk. Qed.

Lemma allocates_only_mapM {A B} (f : A → St B) (l : list A) :
  (∀ a, allocates_only (f a)) → allocates_only (St_mapM f l).
Proof.
  intros Hf. induction l as [|a l IH]; simpl.
  - apply allocates_only_ret.
  - apply allocates_only_bind; [done|]. intros b.
    apply allocates_only_bind; [done|]. intros bs. apply allocates_only_ret.
Qed.

Ltac allocates_new lem :=
  intros w; split; [apply lem|done].

Lemma allocates_only_new_SipUri u : allocates_only (new_SipUri u).
Proof. allocates_new frame_new_SipUri. Qed.
Lemma allocates_only_new_ViaHop hop : allocates_only (new_ViaHop hop).
Proof. allocates_new frame_new_ViaHop. Qed.
Lemma allocates_only_new_addresses us : allocates_only (new_addresses us).
Proof. allocates_new frame_new_addresses. Qed.
Lemma allocates_only_new_CSeq c : allocates_only (new_CSeq c).
Proof. allocates_new frame_new_CSeq. Qed.
Lemma allocates_only_new_Contact c : allocates_only (new_Contact c).
Proof. allocates_new frame_new_Contact. Qed.
Lemma allocates_only_new_opaque s : allocates_only (new_opaque s).
Proof. allocates_new frame_new_opaque. Qed.

Lemma allocates_only_Uri_Clone u : allocates_only (Uri_Clone u).
Proof.
  destruct u as [p|repr]; simpl; [|apply allocates_only_ret].
  intros w. apply (allocates_only_new_SipUri (uris w p) w).
Qed.

Lemma allocates_only_ViaHop_Clone hop : allocates_only (ViaHop_Clone hop).
Proof.
  destruct hop as [p|]; simpl; [|apply allocates_only_ret].
  intros w. apply (allocates_only_new_ViaHop (hops w p) w).
Qed.

Lemma allocates_only_Header_Clone h : allocates_only (Header_Clone h).
Proof.
  destruct h; simpl;
    repeat first
      [ apply allocates_only_ret
      | apply allocates_only_new_addresses
      | apply allocates_only_new_Contact
      | apply allocates_only_Uri_Clone
      | apply allocates_only_mapM; intros
      | apply allocates_only_ViaHop_Clone
      | apply allocates_only_bind; intros
      | apply (allocates_only_read (λ w, addresses w p) (St_mapM Uri_Clone)); intros
      | apply (allocates_only_read (λ w, cseqs w p) new_CSeq); intros;
        apply allocates_only_new_CSeq
      | apply (allocates_only_read (λ w, opaques w p) new_opaque); intros;
        apply allocates_only_new_opaque
      | apply (allocates_only_read (λ w, ContactHeader.Address (contacts w p)) Uri_Clone) ].
Qed.

(** ** Clones *)

Lemma St_mapM_cons {A B} (f : A → St B) (x : A) (l : list A) (w : World) :
  St_mapM f (x :: l) w =
  ((f x w).1 :: (St_mapM f l (f x w).2).1, (St_mapM f l (f x w).2).2).
Proof.
  simpl. unfold St_bind, St_ret.
  destruct (f x w) as [y w1]; simpl. by destruct (St_mapM f l w1).
Qed.

Lemma Name_Header_Clone h w : Name (Header_Clone h w).1 = Name h.
Proof.
  destruct h; simpl; unfold St_bind, St_ret;
    repeat match goal with
           | |- context [let '(_, _) := ?m in _] => destruct m
           end; reflexivity.
Qed.

Lemma Names_mapM_Header_Clone name hdrs w :
  Forall (λ h, Name h = name) hdrs →
  Forall (λ h, Name h = name) (St_mapM Header_Clone hdrs w).1.
Proof.
  intros Hall. revert w. induction Hall as [|h hdrs Hh _ IH]; intros w.
  - constructor.
  - rewrite St_mapM_cons. simpl. constructor; [|apply IH].
    by rewrite Name_Header_Clone.
Qed.

(** The clone of a CSeq header is a new object with the same contents. *)
Lemma Header_Clone_CSeq p w :
  Header_Clone (CSeqPtr p) w = (CSeqPtr (next w), (new_CSeq (cseqs w p) w).2).
Proof. reflexivity. Qed.

(** The clone of a Via header starts with a new hop with the contents of
    the first hop of the original. *)
Lemma Header_Clone_Via p hs w :
  ∃ hs',
    (Header_Clone (ViaHeader (Some p :: hs)) w).1 = ViaHeader (Some (next w) :: hs') ∧
    hops (Header_Clone (ViaHeader (Some p :: hs)) w).2 (next w) = hops w p ∧
    next w < next (Header_Clone (ViaHeader (Some p :: hs)) w).2.
Proof.
  cbn [Header_Clone]. unfold St_bind, St_ret. rewrite St_mapM_cons.
  cbn [ViaHop_Clone fst snd].
  change (let '(p', w') := new_ViaHop (hops w p) w in (Some p', w'))
    with (Some (next w), (new_ViaHop (hops w p) w).2).
  cbn [fst snd].
  pose proof (allocates_only_mapM ViaHop_Clone hs allocates_only_ViaHop_Clone
                (new_ViaHop (hops w p) w).2) as (Hf & _ & _).
  destruct (St_mapM ViaHop_Clone hs (new_ViaHop (hops w p) w).2) as [hs' w'].
  exists hs'. split; [done|].
  destruct Hf as [Hn _ Hh _ _ _ _]. simpl in *. split; [|lia].
  rewrite Hh by lia. apply fn_lookup_insert.
Qed.

(** ** CopyHeaders *)

Lemma fold_AppendHeader_headers hdrs m :
  message.headers (fold_left message.AppendHeader hdrs m) =
  fold_left headers.AppendHeader hdrs (message.headers m).
Proof. revert m. induction hdrs as [|h hdrs IH]; intros m; simpl; [done|]. by rewrite IH. Qed.

Lemma CopyHeaders_loop_eq hdrs to w :
  CopyHeaders_loop hdrs to w =
  (fold_left message.AppendHeader (St_mapM Header_Clone hdrs w).1 to,
   (St_mapM Header_Clone hdrs w).2).
Proof.
  revert to w. induction hdrs as [|h hdrs IH]; intros to w.
  - reflexivity.
  - rewrite St_mapM_cons. simpl. unfold St_bind.
    destruct (Header_Clone h w) as [h' w1]. simpl. apply IH.
Qed.

Lemma CopyHeaders_eq name from to w :
  CopyHeaders name from to w =
  (withMsg to (fold_left message.AppendHeader
                 (St_mapM Header_Clone (message.GetHeaders from name) w).1 (msg to)),
   (St_mapM Header_Clone (message.GetHeaders from name) w).2).
Proof.
  unfold CopyHeaders, St_bind, St_ret. by rewrite CopyHeaders_loop_eq.
Qed.

Lemma allocates_only_CopyHeaders name from to : allocates_only (CopyHeaders name from to).
Proof.
  intros w. rewrite CopyHeaders_eq. simpl.
  apply allocates_only_mapM, allocates_only_Header_Clone.
Qed.

Lemma headers_wf_bucket hs name :
  headers_wf hs → Forall (λ h, Name h = name) (headers.GetHeaders hs name).
Proof. intros Hwf. apply list.Forall_forall. intros h Hh. by apply Hwf. Qed.

Lemma filter_Name name k (l : list Header) :
  Forall (λ h, Name h = name) l →
  filter (λ h, Name h = k) l = if decide (k = name) then l else [].
Proof.
  induction 1 as [|h l Hh _ IH]; [by case_decide|].
  rewrite filter_cons, IH.
  destruct (decide (Name h = k)), (decide (k = name)); congruence.
Qed.

(** [CopyHeaders] appends the clones to the bucket of that name and leaves
    the other buckets, and the recipient, as they are. *)
Lemma CopyHeaders_GetHeaders name from to w k :
  headers_wf (message.headers from) →
  GetHeaders (CopyHeaders name from to w).1 k =
  GetHeaders to k ++
  (if decide (k = name)
   then (St_mapM Header_Clone (message.GetHeaders from name) w).1 else []).
Proof.
  intros Hwf. rewrite CopyHeaders_eq. unfold GetHeaders, message.GetHeaders. simpl.
  rewrite fold_AppendHeader_headers, GetHeaders_fold_AppendHeader. f_equal.
  apply filter_Name, Names_mapM_Header_Clone, headers_wf_bucket, Hwf.
Qed.

Lemma CopyHeaders_recipient name from to w :
  recipient (CopyHeaders name from to w).1 = recipient to.
Proof. by rewrite CopyHeaders_eq. Qed.

(** ** The constructors *)

Lemma same_objects_frame w w' : same_objects w w' → frame w w'.
Proof. intros []. constructor; intros; [lia|congruence..]. Qed.

Lemma M_bind_lift {A B} (m : St A) (k : A → M B) (w : World) :
  M_bind (lift m) k w = k (m w).1 (m w).2.
Proof. unfold M_bind, lift. by destruct (m w). Qed.

Section RequestProperties.
Context `{Collaborators}.

Lemma NextMessageID_same w : same_objects w (NextMessageID w).2.
Proof. by constructor. Qed.

Lemma GenerateBranch_same w : same_objects w (GenerateBranch w).2.
Proof. by constructor. Qed.

(** [NewRequest] allocates nothing and leaves the branch generator
    alone; it draws a message identifier when it is given none. *)
Lemma NewRequest_same messID method recipient sipVersion hdrs body fields w :
  same_objects w (NewRequest messID method recipient sipVersion hdrs body fields w).2 ∧
  issuedBranches (NewRequest messID method recipient sipVersion hdrs body fields w).2 =
  issuedBranches w.
Proof.
  unfold NewRequest, St_bind, St_ret. by case_bool_decide.
Qed.

Lemma NewRequest_MessageID messID method recipient sipVersion hdrs body fields w :
  MessageID_of (NewRequest messID method recipient sipVersion hdrs body fields w).1 =
  if bool_decide (messID = "") then messageIDs (issuedIDs w) else messID.
Proof. unfold NewRequest, St_bind, St_ret. by repeat case_bool_decide. Qed.

Lemma NewRequest_GetHeaders messID method recipient sipVersion hdrs body fields w k :
  GetHeaders (NewRequest messID method recipient sipVersion hdrs body fields w).1 k =
  filter (λ h, Name h = k) hdrs.
Proof.
  unfold NewRequest, St_bind, St_ret, GetHeaders, message.GetHeaders.
  repeat case_bool_decide; simpl; apply GetHeaders_newHeaders.
Qed.

Lemma NewRequest_recipient messID method recipient sipVersion hdrs body fields w :
  Recipient (NewRequest messID method recipient sipVersion hdrs body fields w).1 =
  recipient.
Proof. unfold NewRequest, St_bind, St_ret. by repeat case_bool_decide. Qed.

Lemma allocates_only_reversed_clones n p us : allocates_only (reversed_clones n p us).
Proof.
  revert us. induction n as [|i IH]; intros us; simpl.
  - apply allocates_only_ret.
  - intros w. destruct (addresses w p !! i) as [u|].
    + apply allocates_only_bind; [apply allocates_only_Uri_Clone|]. intros u'. apply IH.
    + apply (allocates_only_ret us).
Qed.

(** The loop over the Record-Route headers does not panic when they are
    all [*RecordRouteHeader]s; it only adds Route headers. *)
Lemma routes_of_record_routes_run hdrs ack w :
  Forall is_RecordRouteHeader hdrs →
  ∃ ack' w',
    routes_of_record_routes hdrs ack w = Ok (ack', w') ∧
    frame w w' ∧
    issuedIDs w' = issuedIDs w ∧ issuedBranches w' = issuedBranches w ∧
    recipient ack' = recipient ack ∧
    ∀ k, k ≠ "Route" → GetHeaders ack' k = GetHeaders ack k.
Proof.
  intros Hall. revert ack w.
  induction Hall as [|h hdrs Hh _ IH]; intros ack w.
  - exists ack, w. repeat split; try done.
  - destruct h; try done. cbn [routes_of_record_routes].
    rewrite M_bind_lift.
    pose proof (allocates_only_reversed_clones (length (addresses w p)) p [] w)
      as (Hf1 & Hi1 & Hb1).
    destruct (reversed_clones (length (addresses w p)) p [] w) as [us w1].
    cbn [fst snd] in *. rewrite M_bind_lift.
    pose proof (allocates_only_new_addresses us w1) as (Hf2 & Hi2 & Hb2).
    destruct (new_addresses us w1) as [route w2]. cbn [fst snd] in *.
    destruct (IH (AppendHeader ack (RouteHeader route)) w2)
      as (ack' & w' & Hrun & Hf3 & Hi3 & Hb3 & Hr3 & Hk3).
    exists ack', w'. split; [done|].
    split; [eauto using frame_trans|].
    split; [congruence|]. split; [congruence|]. split; [done|].
    intros k Hk. rewrite Hk3 by done. unfold GetHeaders, message.GetHeaders. simpl.
    rewrite GetHeaders_AppendHeader, decide_False by done. apply app_nil_r.
Qed.

Lemma GetHeaders_AppendHeader_request req h k :
  GetHeaders (AppendHeader req h) k =
  GetHeaders req k ++ (if decide (Name h = k) then [h] else []).
Proof. apply GetHeaders_AppendHeader. Qed.

Lemma CSeq_of_Some req lc :
  CSeq_of req = (Some lc, true) →
  ∃ rest, message.GetHeaders (msg req) "CSeq" = CSeqPtr lc :: rest.
Proof.
  unfold CSeq_of, headers.CSeq, message.GetHeaders.
  destruct (headers.GetHeaders _ "CSeq") as [|[] rest]; try done.
  intros [= ->]. by exists rest.
Qed.

Lemma ViaHop_of_Some req l :
  ViaHop_of req = (Some l, true) →
  ∃ hs rest, message.GetHeaders (msg req) "Via" = ViaHeader (Some l :: hs) :: rest.
Proof.
  unfold ViaHop_of, headers.ViaHop, message.GetHeaders.
  destruct (headers.GetHeaders _ "Via") as [|[[|hop hs]| | | | | | | |] rest]; try done.
  intros [= ->]. by exists hs, rest.
Qed.

(** Copying the CSeq headers into a request that has none: its first
    CSeq header is a new object with the contents of the first CSeq
    header of the source. *)
Lemma CopyHeaders_CSeq from to w lc rest :
  headers_wf (message.headers from) →
  message.GetHeaders from "CSeq" = CSeqPtr lc :: rest →
  GetHeaders to "CSeq" = [] →
  CSeq_of (CopyHeaders "CSeq" from to w).1 = (Some (next w), true) ∧
  cseqs (CopyHeaders "CSeq" from to w).2 (next w) = cseqs w lc ∧
  next w < next (CopyHeaders "CSeq" from to w).2.
Proof.
  intros Hwf Hfrom Hto.
  pose proof (CopyHeaders_GetHeaders "CSeq" from to w "CSeq" Hwf) as Hget.
  rewrite decide_True, Hto, Hfrom, St_mapM_cons, Header_Clone_CSeq in Hget by done.
  cbn [fst snd app] in Hget.
  split.
  { unfold CSeq_of, headers.CSeq. unfold GetHeaders, message.GetHeaders in Hget.
    by rewrite Hget. }
  rewrite CopyHeaders_eq, Hfrom, St_mapM_cons, Header_Clone_CSeq. cbn [fst snd].
  pose proof (allocates_only_mapM Header_Clone rest allocates_only_Header_Clone
                (new_CSeq (cseqs w lc) w).2) as ([Hn _ _ _ Hc _ _] & _).
  change (next (new_CSeq (cseqs w lc) w).2) with (S (next w)) in Hn, Hc.
  split; [|lia].
  rewrite Hc by lia. apply fn_lookup_insert.
Qed.

(** The same for the Via headers and their first hop. *)
Lemma CopyHeaders_Via from to w l hs rest :
  headers_wf (message.headers from) →
  message.GetHeaders from "Via" = ViaHeader (Some l :: hs) :: rest →
  GetHeaders to "Via" = [] →
  ViaHop_of (CopyHeaders "Via" from to w).1 = (Some (next w), true) ∧
  hops (CopyHeaders "Via" from to w).2 (next w) = hops w l ∧
  next w < next (CopyHeaders "Via" from to w).2.
Proof.
  intros Hwf Hfrom Hto.
  pose proof (CopyHeaders_GetHeaders "Via" from to w "Via" Hwf) as Hget.
  rewrite decide_True, Hto, Hfrom, St_mapM_cons in Hget by done.
  destruct (Header_Clone_Via l hs w) as (hs' & Hclone & Hhop & Hnext).
  rewrite Hclone in Hget. cbn [fst snd app] in Hget.
  split.
  { unfold ViaHop_of, headers.ViaHop. unfold GetHeaders, message.GetHeaders in Hget.
    by rewrite Hget. }
  rewrite CopyHeaders_eq, Hfrom, St_mapM_cons. cbn [fst snd].
  pose proof (allocates_only_mapM Header_Clone rest allocates_only_Header_Clone
                (Header_Clone (ViaHeader (Some l :: hs)) w).2) as ([Hn _ Hh _ _ _ _] & _).
  split; [|lia]. rewrite Hh by lia. done.
Qed.

Ltac copy_step Hwf :=
  rewrite M_bind_lift;
  lazymatch goal with
  | |- context [CopyHeaders ?n ?f ?t ?w] =>
      let Hg := fresh "Hget" in
      let Ha := fresh "Halloc" in
      let Hr := fresh "Hrcp" in
      pose proof (λ k, CopyHeaders_GetHeaders n f t w k Hwf) as Hg;
      pose proof (allocates_only_CopyHeaders n f t w) as Ha;
      pose proof (CopyHeaders_recipient n f t w) as Hr;
      let c := fresh "c" in
      let w' := fresh "w" in
      destruct (CopyHeaders n f t w) as [c w']
  end;
  cbn [fst snd] in *.

(** A run of [NewCancelRequest] on a request with a Via hop and a CSeq
    header. *)
Lemma ViaHop_Clone_run hop w :
  (ViaHop_Clone hop w).1 = match hop with Some _ => Some (next w) | None => None end ∧
  ∀ l, hop = Some l →
       hops (ViaHop_Clone hop w).2 (next w) = hops w l ∧
       next w < next (ViaHop_Clone hop w).2.
Proof.
  destruct hop as [p|]; simpl; [|done].
  split; [done|]. intros l [= <-]. split; [apply fn_lookup_insert|lia].
Qed.

Lemma NewCancelRequest_run cancelID req fields w lc :
  headers_wf (message.headers (msg req)) →
  CSeq_of req = (Some lc, true) →
  ∃ cancel w' lc',
    NewCancelRequest cancelID req fields w = Ok (cancel, w') ∧
    GetHeaders cancel "Via" =
      [ViaHeader [match (ViaHop_of req).1 with Some _ => Some (next w) | None => None end]] ∧
    (∀ l, (ViaHop_of req).1 = Some l → hops w' (next w) = hops w l) ∧
    CSeq_of cancel = (Some lc', true) ∧
    (lc < next w → cseqs w' lc' = CSeq.mk (CSeq.SeqNo (cseqs w lc)) CANCEL) ∧
    recipient cancel = recipient req ∧
    frame w w'.
Proof.
  intros Hwf Hcseq. unfold NewCancelRequest.
  rewrite M_bind_lift.
  match goal with
  | |- context [NewRequest ?a ?b ?c ?d ?e ?f ?g w] =>
      pose proof (NewRequest_same a b c d e f g w) as [Hs0 Hb0];
      pose proof (λ k, NewRequest_GetHeaders a b c d e f g w k) as Hg0;
      pose proof (NewRequest_recipient a b c d e f g w) as Hr0;
      destruct (NewRequest a b c d e f g w) as [c0 w0]
  end.
  cbn [fst snd] in *.
  rewrite M_bind_lift.
  pose proof (ViaHop_Clone_run (ViaHop_of req).1 w0) as [Hclone Hhop].
  pose proof (allocates_only_ViaHop_Clone (ViaHop_of req).1 w0) as [Hf1 _].
  destruct (ViaHop_Clone (ViaHop_of req).1 w0) as [hop' w1]. cbn [fst snd] in *.
  copy_step Hwf. copy_step Hwf. copy_step Hwf. copy_step Hwf.
  destruct (CSeq_of_Some _ _ Hcseq) as [rest Hbucket].
  assert (GetHeaders c3 "CSeq" = []) as Hnone.
  { rewrite Hget2, Hget1, Hget0, Hget, GetHeaders_AppendHeader_request, Hg0. done. }
  assert (GetHeaders c3 "Via" = [ViaHeader [hop']]) as Hvia3.
  { rewrite Hget2, Hget1, Hget0, Hget, GetHeaders_AppendHeader_request, Hg0. done. }
  pose proof (CopyHeaders_CSeq (msg req) c3 w5 lc rest Hwf Hbucket Hnone)
    as (Hc & Hcontents & Hn5).
  copy_step Hwf. rewrite Hc.
  destruct Halloc as [Hf2 _], Halloc0 as [Hf3 _], Halloc1 as [Hf4 _],
    Halloc2 as [Hf5 _], Halloc3 as [Hf6 _].
  pose proof (same_objects_frame _ _ Hs0) as Hf0.
  assert (frame w1 w6) as Hf16 by eauto using frame_trans.
  assert (frame w w5) as Hf05 by eauto 10 using frame_trans.
  destruct Hs0 as [_ Hhops0 _ _ _ _ Hnext0].
  exists c4, (set_MethodName (next w5) CANCEL w6).2, (next w5).
  split; [by rewrite M_bind_lift|].
  split; [by rewrite Hget3, Hvia3, Hclone, Hnext0|].
  split.
  { intros l Hl. destruct (Hhop l Hl) as [Hcontent Hfresh].
    cbn. rewrite <- Hnext0, <- Hhops0, <- Hcontent.
    apply (frame_hops _ _ Hf16). lia. }
  split; [done|].
  split.
  { intros Hlc. cbn. rewrite fn_lookup_insert, Hcontents.
    by rewrite (frame_cseqs _ _ Hf05). }
  split; [unfold Recipient in Hr0; simpl in *; congruence|].
  apply frame_store_CSeq; [eauto using frame_trans|]. destruct Hf05. lia.
Qed.

(** Drawing a branch token and setting it on a hop. *)
Lemma regenerate_branch_run p w :
  hops (St_bind GenerateBranch (set_branch p) w).2 p =
    ViaHop.withParams (hops w p)
      (Params.Add (ViaHop.Params (hops w p)) "branch"
         (Some (branches (issuedBranches w)))) ∧
  next (St_bind GenerateBranch (set_branch p) w).2 = next w ∧
  ∀ w0, frame w0 w → next w0 ≤ p →
        frame w0 (St_bind GenerateBranch (set_branch p) w).2.
Proof.
  cbn. split; [apply fn_lookup_insert|]. split; [done|].
  intros w0 Hf Hp.
  refine (frame_store_ViaHop w0 _ p _ _ Hp).
  destruct Hf. by constructor.
Qed.

(** A run of [NewAckRequest] on an INVITE with a Via hop and a CSeq
    header, when the Record-Route headers of the response, if they are
    used, are [*RecordRouteHeader]s. *)
Lemma NewAckRequest_run ackID inv res fields w l lc :
  headers_wf (message.headers (msg inv)) →
  headers_wf (message.headers (resp_msg res)) →
  ViaHop_of inv = (Some l, true) →
  CSeq_of inv = (Some lc, true) →
  (GetHeaders inv "Route" = [] →
   Forall is_RecordRouteHeader (message.GetHeaders (resp_msg res) "Record-Route")) →
  ∃ ack w' lc',
    NewAckRequest ackID inv res fields w = Ok (ack, w') ∧
    ViaHop_of ack = (Some (next w), true) ∧
    hops w' (next w) =
      ViaHop.withParams (hops w l)
        (Params.Add (ViaHop.Params (hops w l)) "branch"
           (Some (branches (issuedBranches w)))) ∧
    CSeq_of ack = (Some lc', true) ∧
    (lc < next w → cseqs w' lc' = CSeq.mk (CSeq.SeqNo (cseqs w lc)) ACK) ∧
    frame w w'.
Proof.
  intros Hwf Hwfr Hvia Hcseq Hrr. unfold NewAckRequest.
  rewrite M_bind_lift. cbn [fst snd]. rewrite M_bind_lift.
  match goal with
  | |- context [NewRequest ?a ?b ?c ?d ?e ?f ?g w] =>
      pose proof (NewRequest_same a b c d e f g w) as [Hs0 Hb0];
      pose proof (λ k, NewRequest_GetHeaders a b c d e f g w k) as Hg0;
      destruct (NewRequest a b c d e f g w) as [c0 w0]
  end.
  cbn [fst snd] in *.
  destruct (ViaHop_of_Some _ _ Hvia) as (hs & rest & Hbucket).
  pose proof (CopyHeaders_Via (msg inv) c0 w0 l hs rest Hwf Hbucket (Hg0 "Via"))
    as (Hv & Hhop & Hn1).
  copy_step Hwf. rewrite Hv. rewrite M_bind_lift.
  pose proof (regenerate_branch_run (next w0) w1) as (Hhop2 & Hn2 & Hf02).
  destruct (St_bind GenerateBranch (set_branch (next w0)) w1) as [[] w2].
  cbn [fst snd] in *.
  destruct Halloc as (Hf1 & _ & Hb1).
  specialize (Hf02 w0 Hf1 (le_n _)).
  match goal with
  | |- context [M_bind (if ?b then ?x else ?y) _ w2] =>
      assert (∃ c' w3, (if b then x else y) w2 = Ok (c', w3) ∧ frame w2 w3 ∧
                       ∀ name, name ≠ "Route" → GetHeaders c' name = GetHeaders c name)
        as (c' & w3 & Hroute & Hf3 & Hget3)
  end.
  { case_bool_decide as Hlen.
    - exists (CopyHeaders "Route" (msg inv) c w2).1,
             (CopyHeaders "Route" (msg inv) c w2).2.
      split; [unfold lift; by destruct (CopyHeaders "Route" (msg inv) c w2)|].
      split; [apply allocates_only_CopyHeaders|].
      intros k Hk. rewrite CopyHeaders_GetHeaders, decide_False by done.
      apply app_nil_r.
    - destruct (routes_of_record_routes_run
                  (message.GetHeaders (resp_msg res) "Record-Route") c w2)
        as (c' & w3 & Hrun & Hf3 & _ & _ & _ & Hk3).
      { apply Hrr. destruct (GetHeaders inv "Route"); [done|simpl in Hlen; lia]. }
      by exists c', w3. }
  unfold M_bind at 1. rewrite Hroute.
  copy_step Hwf. copy_step Hwfr. copy_step Hwf.
  destruct (CSeq_of_Some _ _ Hcseq) as [restc Hbucketc].
  assert (GetHeaders c3 "CSeq" = []) as Hnone.
  { rewrite Hget2, Hget1, Hget0, Hget3, Hget, Hg0; done. }
  assert (GetHeaders c3 "Via" = GetHeaders c "Via") as Hvia3.
  { rewrite Hget2, Hget1, Hget0, Hget3 by done. cbn. by rewrite !app_nil_r. }
  pose proof (CopyHeaders_CSeq (msg inv) c3 w6 lc restc Hwf Hbucketc Hnone)
    as (Hc & Hcontents & Hn6).
  copy_step Hwf. rewrite Hc.
  destruct Halloc as [Hf4 _], Halloc0 as [Hf5 _], Halloc1 as [Hf6 _],
    Halloc2 as [Hf7 _].
  pose proof (same_objects_frame _ _ Hs0) as Hf0.
  assert (frame w2 w6) as Hf26 by eauto using frame_trans.
  assert (frame w2 w7) as Hf27 by eauto using frame_trans.
  assert (frame w w6) as Hf06 by eauto using frame_trans.
  destruct Hs0 as [_ Hhops0 _ _ _ _ Hnext0].
  exists c4, (set_MethodName (next w6) ACK w7).2, (next w6).
  split; [by rewrite M_bind_lift|].
  split.
  { rewrite <- Hnext0, <- Hv. unfold ViaHop_of, headers.ViaHop.
    unfold GetHeaders, message.GetHeaders in Hget4, Hvia3.
    rewrite Hget4, Hvia3. cbn. by rewrite app_nil_r. }
  split.
  { cbn. rewrite <- Hnext0, (frame_hops _ _ Hf27) by lia.
    by rewrite Hhop2, Hhop, Hb1, Hb0, Hhops0. }
  split; [done|].
  split.
  { intros Hlc. cbn. rewrite fn_lookup_insert, Hcontents.
    by rewrite (frame_cseqs _ _ Hf06). }
  apply frame_store_CSeq; [eauto using frame_trans|]. destruct Hf06. lia.
Qed.



Lemma CSeq_of_ok req : (CSeq_of req).2 = true → ∃ lc, CSeq_of req = (Some lc, true).
Proof.
  unfold CSeq_of, headers.CSeq.
  destruct (headers.GetHeaders _ "CSeq") as [|[] rest]; try done. by eexists.
Qed.


(** C3: for a request with a top Via hop, the CANCEL that
    [NewCancelRequest] builds carries one Via header with one hop, a new
    object with the contents of that top hop, so its branch parameter is
    the one of the original request.  The request is well formed: its
    header collection is consistent and it has a CSeq header. *)
Theorem NewCancelRequest_keeps_branch cancelID req fields w l :
  headers_wf (message.headers (msg req)) →
  ViaHop_of req = (Some l, true) →
  (CSeq_of req).2 = true →
  ∃ cancel w',
    NewCancelRequest cancelID req fields w = Ok (cancel, w') ∧
    GetHeaders cancel "Via" = [ViaHeader [Some (next w)]] ∧
    hops w' (next w) = hops w l ∧
    branch_of cancel w' = branch_of req w.
Proof.
  intros Hwf Hvia Hcseq.
  destruct (CSeq_of_ok _ Hcseq) as [lc Hlc].
  destruct (NewCancelRequest_run cancelID req fields w lc Hwf Hlc)
    as (cancel & w' & lc' & Hrun & Hv & Hhop & _).
  rewrite Hvia in Hv, Hhop. cbn [fst] in Hv, Hhop. specialize (Hhop l eq_refl).
  exists cancel, w'. repeat (split; [done|]).
  unfold branch_of, ViaHop_of, headers.ViaHop.
  unfold GetHeaders, message.GetHeaders in Hv. rewrite Hv.
  unfold ViaHop_of in Hvia. unfold headers.ViaHop in Hvia. rewrite Hvia.
  by rewrite Hhop.
Qed.

(** C7: for a source request that carries CSeq [(n, m)], the ACK built by
    [NewAckRequest] carries CSeq [(n, ACK)] and the CANCEL built by
    [NewCancelRequest] carries CSeq [(n, CANCEL)].  The request is well
    formed: its header collection is consistent and its CSeq object is
    allocated; for the ACK, it has a top Via hop, the headers of the
    response are consistent too, and its Record-Route headers, when they
    are used, are Record-Route header objects. *)
Theorem CSeq_number_retained req w lc n m :
  headers_wf (message.headers (msg req)) →
  CSeq_of req = (Some lc, true) →
  lc < next w →
  cseqs w lc = CSeq.mk n m →
  (∀ ackID res fields l,
     headers_wf (message.headers (resp_msg res)) →
     ViaHop_of req = (Some l, true) →
     (GetHeaders req "Route" = [] →
      Forall is_RecordRouteHeader (message.GetHeaders (resp_msg res) "Record-Route")) →
     observe cseq_of (NewAckRequest ackID req res fields w) = Ok (Some (CSeq.mk n ACK))) ∧
  (∀ cancelID fields,
     observe cseq_of (NewCancelRequest cancelID req fields w) =
     Ok (Some (CSeq.mk n CANCEL))).
Proof.
  intros Hwf Hlc Halloc Hn. split.
  - intros ackID res fields l Hwfr Hvia Hrr.
    destruct (NewAckRequest_run ackID req res fields w l lc Hwf Hwfr Hvia Hlc Hrr)
      as (ack & w' & lc' & -> & _ & _ & Hc & Hcontents & _).
    cbn. unfold cseq_of. by rewrite Hc, Hcontents, Hn.
  - intros cancelID fields.
    destruct (NewCancelRequest_run cancelID req fields w lc Hwf Hlc)
      as (cancel & w' & lc' & -> & _ & _ & Hc & Hcontents & _).
    cbn. unfold cseq_of. by rewrite Hc, Hcontents, Hn.
Qed.

(** [NewRequest] never returns a request with an empty message identifier
    when the generator never yields one. *)
Lemma NewRequest_MessageID_nonempty messID method recipient sipVersion hdrs body fields w :
  (∀ n, messageIDs n ≠ "") →
  MessageID_of (NewRequest messID method recipient sipVersion hdrs body fields w).1 ≠ "".
Proof. intros Hgen. rewrite NewRequest_MessageID. by case_bool_decide. Qed.


(** The header collection of a request built by [NewRequest] is
    consistent. *)
Lemma NewRequest_headers_wf messID method recipient sipVersion hdrs body fields w :
  headers_wf
    (message.headers (msg (NewRequest messID method recipient sipVersion hdrs body fields w).1)).
Proof.
  unfold NewRequest, St_bind, St_ret.
  repeat case_bool_decide; simpl; apply headers_wf_newHeaders.
Qed.

(** [Clone], [WithFields] and [CopyRequest] give the new request a
    recipient object of its own, allocated by the call. *)
Lemma derived_recipient_is_new r w p :
  Recipient r = SipUriPtr p →
  Recipient (Clone r w).1 = SipUriPtr (next w) ∧
  (∀ fields, Recipient (WithFields r fields w).1 = SipUriPtr (next w)) ∧
  ∃ p', Recipient (CopyRequest r w).1 = SipUriPtr p' ∧ next w ≤ p'.
Proof.
  intros Hr. split; [|split].
  - unfold Clone, St_bind. rewrite Hr. cbn [Uri_Clone new_SipUri].
    destruct (headers.CloneHeaders _ _) as [hdrs w2].
    by rewrite NewRequest_recipient.
  - intros fields. unfold WithFields, St_bind. rewrite Hr. cbn [Uri_Clone new_SipUri].
    destruct (headers.CloneHeaders _ _) as [hdrs w2].
    by rewrite NewRequest_recipient.
  - unfold CopyRequest, St_bind.
    pose proof (allocates_only_mapM Header_Clone (Headers r)
                  allocates_only_Header_Clone w) as ([Hn _ _ _ _ _ _] & _).
    destruct (St_mapM Header_Clone (Headers r) w) as [hdrs w1].
    rewrite Hr. cbn [Uri_Clone new_SipUri]. exists (next w1).
    by rewrite NewRequest_recipient.
Qed.

(** [NewCancelRequest] and [NewAckRequest] give the new request a
    recipient that is not a clone: the recipient of the source request
    itself or, for an ACK to a response with a Contact header, the address
    object of that header. *)
Lemma NewCancelRequest_recipient cancelID req fields w cancel w' :
  NewCancelRequest cancelID req fields w = Ok (cancel, w') →
  Recipient cancel = Recipient req.
Proof.
  unfold NewCancelRequest. rewrite !M_bind_lift.
  destruct (CSeq_of _) as [[cseq|] ok]; [|done].
  rewrite M_bind_lift. intros [= <- _].
  unfold Recipient. rewrite !CopyHeaders_recipient. cbn [AppendHeader withMsg recipient].
  apply NewRequest_recipient.
Qed.

Lemma routes_of_record_routes_recipient hdrs ack w ack' w' :
  routes_of_record_routes hdrs ack w = Ok (ack', w') →
  Recipient ack' = Recipient ack.
Proof.
  revert ack w. induction hdrs as [|h hdrs IH]; intros ack w.
  - by intros [= <- _].
  - destruct h; try done. cbn [routes_of_record_routes].
    rewrite !M_bind_lift. intros Hrun. by rewrite (IH _ _ Hrun).
Qed.

Ltac copy_step_recipient :=
  rewrite M_bind_lift;
  lazymatch goal with
  | |- context [CopyHeaders ?n ?f ?t ?w] =>
      let Hr := fresh "Hrcp" in
      pose proof (CopyHeaders_recipient n f t w) as Hr;
      let c := fresh "c" in
      let w' := fresh "w" in
      destruct (CopyHeaders n f t w) as [c w']
  end;
  cbn [fst snd] in *.

Lemma NewAckRequest_recipient ackID inv res fields w ack w' :
  NewAckRequest ackID inv res fields w = Ok (ack, w') →
  Recipient ack =
  match headers.Contact (message.headers (resp_msg res)) with
  | (Some contact, true) => ContactHeader.Address (contacts w contact)
  | _ => Recipient inv
  end.
Proof.
  unfold NewAckRequest. rewrite M_bind_lift. cbn [fst snd]. rewrite M_bind_lift.
  match goal with
  | |- context [NewRequest ?a ?b ?c ?d ?e ?f ?g w] =>
      pose proof (NewRequest_recipient a b c d e f g w) as Hr0;
      destruct (NewRequest a b c d e f g w) as [c0 w0]
  end.
  cbn [fst snd] in *. copy_step_recipient.
  destruct (ViaHop_of c) as [[viaHop|] ok]; [|done].
  rewrite M_bind_lift.
  destruct (St_bind GenerateBranch (set_branch viaHop) w1) as [[] w2]. cbn [fst snd].
  unfold M_bind at 1.
  match goal with
  | |- context [(if ?b then ?x else ?y) w2] =>
      destruct ((if b then x else y) w2) as [[c1 w3]|] eqn:Hroute; [|done]
  end.
  assert (Recipient c1 = Recipient c) as Hstep.
  { revert Hroute. case_bool_decide.
    - unfold lift. intros [= Heq].
      pose proof (CopyHeaders_recipient "Route" (msg inv) c w2) as Hr.
      by rewrite Heq in Hr.
    - apply routes_of_record_routes_recipient. }
  do 4 copy_step_recipient.
  destruct (CSeq_of c5) as [[cseq|] ok']; [|done].
  rewrite M_bind_lift. intros [= <- _].
  unfold Recipient in *. congruence.
Qed.

(** ** Address resolution *)

Lemma Atoi_syntax_error s :
  (strconv.Atoi s).2 = Some strconv.ErrSyntax → (strconv.Atoi s).1 = 0%Z.
Proof.
  unfold strconv.Atoi, strconv.ParseInt. destruct s as [|c s]; [done|].
  cbv zeta.
  destruct (strconv.ParseUint _) as [un [[]|]]; [done|..];
    repeat case_match; simpl; done.
Qed.

Lemma Atoi_range_error s :
  (strconv.Atoi s).2 = Some strconv.ErrRange →
  (strconv.Atoi s).1 = (2 ^ 63 - 1)%Z ∨ (strconv.Atoi s).1 = (- 2 ^ 63)%Z.
Proof.
  unfold strconv.Atoi, strconv.ParseInt. destruct s as [|c s]; [done|].
  cbv zeta.
  destruct (strconv.ParseUint _) as [un [[]|]]; [done|..];
    repeat case_match; simpl; try done; auto.
Qed.

(** C5, as amended: with no cached [src], [Source] returns the empty
    string when there is no top Via hop; otherwise, when the received
    parameter of the hop does not have the nil value, it returns
    "host:port", where the host is the received parameter when present and
    not empty, else the host of the hop, and the port is the rport
    parameter when present, not nil and not empty, else the port of the
    hop when it has one, else the default port of the transport.  The
    rport parameter goes through [strconv.Atoi] and is cut to 16 bits: a
    syntax error gives port 0, a range error gives 65535 or 0. *)
Theorem Source_resolution req w :
  message.src (msg req) = "" →
  ((ViaHop_of req).2 = false → Source req w = Ok "") ∧
  ∀ p,
    ViaHop_of req = (Some p, true) →
    let viaHop := hops w p in
    let received := Params.Get (ViaHop.Params viaHop) "received" in
    let rport := Params.Get (ViaHop.Params viaHop) "rport" in
    received ≠ (None, true) →
    ∃ host port,
      Source req w = Ok (fmt.Sprintf_host_port host port) ∧
      (∀ r, received = (Some r, true) → r ≠ "" → host = r) ∧
      (received.2 = false ∨ received = (Some "", true) → host = ViaHop.Host viaHop) ∧
      (∀ s, rport = (Some s, true) → s ≠ "" →
            port = uint16 (strconv.Atoi s).1 ∧
            ((strconv.Atoi s).2 = Some strconv.ErrSyntax → port = 0%Z) ∧
            ((strconv.Atoi s).2 = Some strconv.ErrRange → port = 65535%Z ∨ port = 0%Z)) ∧
      (rport.2 = false ∨ rport = (None, true) ∨ rport = (Some "", true) →
       (∀ q, ViaHop.Port viaHop = Some q → port = q) ∧
       (ViaHop.Port viaHop = None → port = DefaultPort (Transport w (msg req)))).
Proof.
  intros Hsrc. unfold Source. rewrite Hsrc, bool_decide_false by auto.
  split.
  { destruct (ViaHop_of req) as [hop []]; [done|]. by destruct hop. }
  intros p Hp Hrec. rewrite Hp.
  assert (∀ s, (strconv.Atoi s).2 = Some strconv.ErrSyntax →
               uint16 (strconv.Atoi s).1 = 0%Z) as Hsyntax.
  { by intros s ->%Atoi_syntax_error. }
  assert (∀ s, (strconv.Atoi s).2 = Some strconv.ErrRange →
               uint16 (strconv.Atoi s).1 = 65535%Z ∨ uint16 (strconv.Atoi s).1 = 0%Z)
    as Hrange.
  { intros s [-> | ->]%Atoi_range_error; [by left|by right]. }
  destruct (Params.Get (ViaHop.Params (hops w p)) "received") as [[r|] []];
    destruct (Params.Get (ViaHop.Params (hops w p)) "rport") as [[s|] []];
    try done; repeat case_bool_decide; eexists _, _;
    (split; [reflexivity|]);
    repeat split; intros; destruct_or?; simplify_eq/=; try done;
    try (by apply Hsyntax); try (by apply Hrange);
    try (match goal with Hq : ViaHop.Port _ = _ |- _ => by rewrite Hq end).
Qed.

(** C6, as amended: with no cached [dest], when the first Route header
    has a first address and that address is a SIP URI, [Destination]
    returns "host:port" for that URI, whatever the recipient; when the
    request has no Route header, it does the same for a recipient that is
    a SIP URI and returns the empty string for a recipient of another
    kind.  The port is the port of the URI when it has one, else the
    default port of the transport. *)
Theorem Destination_resolution req w :
  message.dest (msg req) = "" →
  (∀ p rest u us,
     GetHeaders req "Route" = RouteHeader p :: rest →
     addresses w p = SipUriPtr u :: us →
     Destination req w =
     Ok (host_port (DefaultPort (Transport w (msg req))) (uris w u))) ∧
  (GetHeaders req "Route" = [] →
   match Recipient req with
   | SipUriPtr u =>
       Destination req w =
       Ok (host_port (DefaultPort (Transport w (msg req))) (uris w u))
   | OtherUri _ => Destination req w = Ok ""
   end).
Proof.
  intros Hdest. unfold Destination. rewrite Hdest, bool_decide_false by auto.
  split.
  - intros p rest u us -> ->. unfold host_port. by destruct (SipUri.FPort _).
  - intros ->. destruct (Recipient req) as [u|]; [|done].
    unfold host_port. by destruct (SipUri.FPort _).
Qed.

(** C10: with no cached [dest], when the first Route header has an empty
    address list, [Destination] does as if there were no Route header:
    "host:port" for a recipient that is a SIP URI, the empty string for a
    recipient of another kind. *)
Theorem Destination_route_without_address req w p rest :
  message.dest (msg req) = "" →
  GetHeaders req "Route" = RouteHeader p :: rest →
  addresses w p = [] →
  match Recipient req with
  | SipUriPtr u =>
      Destination req w =
      Ok (host_port (DefaultPort (Transport w (msg req))) (uris w u))
  | OtherUri _ => Destination req w = Ok ""
  end.
Proof.
  intros Hdest Hroute Hnone. unfold Destination.
  rewrite Hdest, bool_decide_false, Hroute, Hnone by auto.
  destruct (Recipient req) as [u|]; [|done].
  unfold host_port. by destruct (SipUri.FPort _).
Qed.

End RequestProperties.

(** * More properties of request.go *)

Section MoreRequestProperties.
Context `{Collaborators}.

(** ** The envelope of the derived requests *)

Lemma same_envelope_refl a : same_envelope a a.
Proof. by repeat split. Qed.

Lemma same_envelope_trans a b c : same_envelope a b → same_envelope b c → same_envelope a c.
Proof. unfold same_envelope. intros (?&?&?&?&?&?&?&?) (?&?&?&?&?&?&?&?). repeat split; congruence. Qed.

Lemma CopyHeaders_envelope name from to w : same_envelope (CopyHeaders name from to w).1 to.
Proof.
  rewrite CopyHeaders_eq. cbn [fst].
  generalize (St_mapM Header_Clone (message.GetHeaders from name) w).1. intros clones.
  unfold same_envelope, withMsg. cbn.
  revert to. induction clones as [|h clones IH]; intros to; [done|].
  cbn. specialize (IH (AppendHeader to h)). cbn in IH. exact IH.
Qed.

Lemma AppendHeader_envelope req h : same_envelope (AppendHeader req h) req.
Proof. by repeat split. Qed.

Lemma routes_of_record_routes_envelope hdrs ack w ack' w' :
  routes_of_record_routes hdrs ack w = Ok (ack', w') → same_envelope ack' ack.
Proof.
  revert ack w. induction hdrs as [|h hdrs IH]; intros ack w.
  - intros [= <- _]. apply same_envelope_refl.
  - destruct h; try done. cbn [routes_of_record_routes].
    rewrite !M_bind_lift. intros Hrun. apply IH in Hrun.
    eapply same_envelope_trans; [exact Hrun|apply AppendHeader_envelope].
Qed.


(** What [NewRequest] returns, field by field. *)
Lemma NewRequest_result messID method recipient sipVersion hdrs body fields w :
  let r := (NewRequest messID method recipient sipVersion hdrs body fields w).1 in
  Method r = method ∧ Recipient r = recipient ∧ SipVersion r = sipVersion ∧
  message.src (msg r) = "" ∧ message.dest (msg r) = "" ∧
  Fields r = <["request_id" := MessageID_of r]> fields ∧
  Body r = (if bool_decide (strings.TrimSpace body ≠ "") then body else "") ∧
  MessageID_of r = (if bool_decide (messID = "") then messageIDs (issuedIDs w) else messID).
Proof.
  unfold NewRequest, St_bind, St_ret, log.WithFields.
  repeat case_bool_decide; cbn; rewrite <- insert_union_singleton_l; done.
Qed.

Ltac copy_step_envelope :=
  rewrite M_bind_lift;
  lazymatch goal with
  | |- context [CopyHeaders ?n ?f ?t ?w] =>
      let He := fresh "Henv" in
      pose proof (CopyHeaders_envelope n f t w) as He;
      let c := fresh "c" in
      let w' := fresh "w" in
      destruct (CopyHeaders n f t w) as [c w']
  end;
  cbn [fst snd] in *.

Ltac new_request_step :=
  rewrite M_bind_lift;
  lazymatch goal with
  | |- context [NewRequest ?a ?b ?c ?d ?e ?f ?g ?w] =>
      let Hr := fresh "Hnew" in
      pose proof (NewRequest_result a b c d e f g w) as Hr;
      let c0 := fresh "c" in
      let w0 := fresh "w" in
      destruct (NewRequest a b c d e f g w) as [c0 w0]
  end;
  cbn [fst snd] in *; cbv zeta in *.

(** The envelope of a CANCEL. *)
Lemma NewCancelRequest_envelope cancelID req fields w cancel w' :
  NewCancelRequest cancelID req fields w = Ok (cancel, w') →
  ∃ c0 : request,
    same_envelope cancel c0 ∧
    Method c0 = CANCEL ∧ Recipient c0 = Recipient req ∧ SipVersion c0 = SipVersion req ∧
    message.src (msg c0) = "" ∧ message.dest (msg c0) = "" ∧
    Fields c0 = <["request_id" := MessageID_of c0]>
                  (log.WithFields (log.WithFields (Fields req) fields)
                     {[ "cancelling_request_id" := MessageID_of req ]}) ∧
    Body c0 = "" ∧
    MessageID_of c0 = (if bool_decide (cancelID = "") then messageIDs (issuedIDs w)
                       else cancelID).
Proof.
  unfold NewCancelRequest. new_request_step. rewrite M_bind_lift.
  destruct (ViaHop_Clone _ _) as [hop w1]. cbn [fst snd].
  do 5 copy_step_envelope.
  destruct (CSeq_of c4) as [[cseq|] ok]; [|done].
  rewrite M_bind_lift. intros [= <- _].
  exists c. split; [|exact Hnew].
  pose proof (AppendHeader_envelope c (ViaHeader [hop])).
  eauto 10 using same_envelope_trans.
Qed.


(** The envelope of an ACK. *)
Lemma NewAckRequest_envelope ackID inv res fields w ack w' :
  NewAckRequest ackID inv res fields w = Ok (ack, w') →
  ∃ c0 : request,
    same_envelope ack c0 ∧
    Method c0 = ACK ∧
    Recipient c0 =
      match headers.Contact (message.headers (resp_msg res)) with
      | (Some contact, true) => ContactHeader.Address (contacts w contact)
      | _ => Recipient inv
      end ∧
    SipVersion c0 = message.sipVersion (resp_msg res) ∧
    message.src (msg c0) = "" ∧ message.dest (msg c0) = "" ∧
    Fields c0 = <["request_id" := MessageID_of c0]>
                  (log.WithFields (log.WithFields (Fields inv) fields)
                     {[ "invite_request_id" := MessageID_of inv;
                        "invite_response_id" := message.messID (resp_msg res) ]}) ∧
    Body c0 = "" ∧
    MessageID_of c0 = (if bool_decide (ackID = "") then messageIDs (issuedIDs w) else ackID).
Proof.
  unfold NewAckRequest. rewrite M_bind_lift. cbn [fst snd]. new_request_step.
  copy_step_envelope.
  destruct (ViaHop_of c0) as [[viaHop|] ok]; [|done].
  rewrite M_bind_lift.
  destruct (St_bind GenerateBranch (set_branch viaHop) w1) as [[] w2]. cbn [fst snd].
  unfold M_bind at 1.
  match goal with
  | |- context [(if ?b then ?x else ?y) w2] =>
      destruct ((if b then x else y) w2) as [[c1 w3]|cause] eqn:Hroute; [|done]
  end.
  assert (same_envelope c1 c0) as Hstep.
  { revert Hroute. destruct (bool_decide (0 < length (GetHeaders inv "Route"))).
    - intros [= Heq].
      pose proof (CopyHeaders_envelope "Route" (msg inv) c0 w2) as He.
      by rewrite Heq in He.
    - apply routes_of_record_routes_envelope. }
  do 4 copy_step_envelope.
  destruct (CSeq_of c5) as [[cseq|] ok']; [|done].
  rewrite M_bind_lift. intros [= <- _].
  exists c. split; [|exact Hnew].
  eauto 10 using same_envelope_trans.
Qed.

(** X1: a CANCEL that [NewCancelRequest] returns has the method CANCEL, the
    recipient and the SIP version of the request it cancels, no body, and no
    cached source or destination address. *)
Theorem NewCancelRequest_request_line cancelID req fields w cancel w' :
  NewCancelRequest cancelID req fields w = Ok (cancel, w') →
  Method cancel = CANCEL ∧ IsCancel cancel = true ∧ IsInvite cancel = false ∧
  Recipient cancel = Recipient req ∧
  SipVersion cancel = SipVersion req ∧
  Body cancel = "" ∧
  message.src (msg cancel) = "" ∧ message.dest (msg cancel) = "".
Proof.
  intros (c0 & (Hm & Hr & _ & Hv & Hb & _ & Hs & Hd) & Hmethod & Hrcp & Hver & Hsrc & Hdest
          & _ & Hbody & _)%NewCancelRequest_envelope.
  unfold IsCancel, IsInvite, Method, Recipient, SipVersion, Body in *.
  rewrite Hm, Hr, Hv, Hb, Hs, Hd, Hmethod. by repeat split.
Qed.

(** X2: an ACK that [NewAckRequest] returns has the method ACK and the SIP
    version of the response; its recipient is the address of the first
    Contact header of the response when there is one, else the recipient
    of the INVITE; it has no body and no cached source or destination
    address. *)
Theorem NewAckRequest_request_line ackID inv res fields w ack w' :
  NewAckRequest ackID inv res fields w = Ok (ack, w') →
  Method ack = ACK ∧ IsAck ack = true ∧ IsInvite ack = false ∧
  (∀ contact,
     headers.Contact (message.headers (resp_msg res)) = (Some contact, true) →
     Recipient ack = ContactHeader.Address (contacts w contact)) ∧
  ((headers.Contact (message.headers (resp_msg res))).2 = false →
   Recipient ack = Recipient inv) ∧
  SipVersion ack = message.sipVersion (resp_msg res) ∧
  Body ack = "" ∧
  message.src (msg ack) = "" ∧ message.dest (msg ack) = "".
Proof.
  intros (c0 & (Hm & Hr & _ & Hv & Hb & _ & Hs & Hd) & Hmethod & Hrcp & Hver & Hsrc & Hdest
          & _ & Hbody & _)%NewAckRequest_envelope.
  unfold IsAck, IsInvite, Method, Recipient, SipVersion, Body in *.
  rewrite Hm, Hr, Hv, Hb, Hs, Hd, Hmethod, Hrcp.
  repeat split; try done.
  - by intros contact ->.
  - unfold headers.Contact.
    by destruct (headers.GetHeaders _ "Contact") as [|[] ?].
Qed.

Lemma lookup_WithFields (fields newFields : gmap string string) k :
  log.WithFields fields newFields !! k =
  match newFields !! k with Some v => Some v | None => fields !! k end.
Proof.
  unfold log.WithFields. rewrite lookup_union.
  destruct (newFields !! k), (fields !! k); done.
Qed.

(** X3: the message identifier of a CANCEL is the one the caller gives, or
    one drawn from the generator when the caller gives none.  Its metadata
    has [request_id] set to that identifier and [cancelling_request_id] set
    to the identifier of the cancelled request; any other key has the value
    the caller gives, else the value it has in the cancelled request. *)
Theorem NewCancelRequest_metadata cancelID req fields w cancel w' :
  NewCancelRequest cancelID req fields w = Ok (cancel, w') →
  MessageID_of cancel =
    (if bool_decide (cancelID = "") then messageIDs (issuedIDs w) else cancelID) ∧
  Fields cancel !! "request_id" = Some (MessageID_of cancel) ∧
  Fields cancel !! "cancelling_request_id" = Some (MessageID_of req) ∧
  ∀ k, k ≠ "request_id" → k ≠ "cancelling_request_id" →
       Fields cancel !! k =
       match fields !! k with Some v => Some v | None => Fields req !! k end.
Proof.
  intros (c0 & (_ & _ & Hi & _ & _ & Hf & _) & _ & _ & _ & _ & _ & Hfields & _ & Hid)
         %NewCancelRequest_envelope.
  unfold MessageID_of, Fields in *. rewrite Hi, Hf, Hfields, Hid.
  split; [done|]. split; [by rewrite lookup_insert_eq|].
  split.
  - rewrite lookup_insert_ne by done. rewrite lookup_WithFields.
    by rewrite lookup_singleton_eq.
  - intros k Hk1 Hk2. rewrite lookup_insert_ne by done.
    rewrite !lookup_WithFields, lookup_singleton_ne by done. done.
Qed.

(** X4: the message identifier of an ACK is the one the caller gives, or
    one drawn from the generator when the caller gives none.  Its metadata
    has [request_id] set to that identifier, and [invite_request_id] and
    [invite_response_id] set to the identifiers of the INVITE and of the
    response; any other key has the value the caller gives, else the value
    it has in the INVITE. *)
Theorem NewAckRequest_metadata ackID inv res fields w ack w' :
  NewAckRequest ackID inv res fields w = Ok (ack, w') →
  MessageID_of ack = (if bool_decide (ackID = "") then messageIDs (issuedIDs w) else ackID) ∧
  Fields ack !! "request_id" = Some (MessageID_of ack) ∧
  Fields ack !! "invite_request_id" = Some (MessageID_of inv) ∧
  Fields ack !! "invite_response_id" = Some (message.messID (resp_msg res)) ∧
  ∀ k, k ≠ "request_id" → k ≠ "invite_request_id" → k ≠ "invite_response_id" →
       Fields ack !! k =
       match fields !! k with Some v => Some v | None => Fields inv !! k end.
Proof.
  intros (c0 & (_ & _ & Hi & _ & _ & Hf & _) & _ & _ & _ & _ & _ & Hfields & _ & Hid)
         %NewAckRequest_envelope.
  unfold MessageID_of, Fields in *. rewrite Hi, Hf, Hfields, Hid.
  split; [done|]. split; [by rewrite lookup_insert_eq|].
  split; [|split].
  - rewrite lookup_insert_ne by done. rewrite lookup_WithFields.
    by rewrite lookup_insert_eq.
  - rewrite lookup_insert_ne by done. rewrite lookup_WithFields.
    rewrite lookup_insert_ne by done. by rewrite lookup_singleton_eq.
  - intros k Hk1 Hk2 Hk3. rewrite lookup_insert_ne by done.
    rewrite !lookup_WithFields, lookup_insert_ne, lookup_singleton_ne by done. done.
Qed.

(** X5: a request that [NewRequest], [Clone], [WithFields] or
    [CopyRequest] returns has its own message identifier under
    [request_id], whatever the metadata it is built from holds under that
    key.  A clone keeps the other entries of the request, and [WithFields]
    gives an entry the new value when there is one, else the old one. *)
Theorem request_id_tracks_MessageID r w :
  (∀ messID method recipient sipVersion hdrs body fields,
     Fields (NewRequest messID method recipient sipVersion hdrs body fields w).1
       !! "request_id" =
     Some (MessageID_of
             (NewRequest messID method recipient sipVersion hdrs body fields w).1)) ∧
  Fields (Clone r w).1 = <["request_id" := MessageID_of (Clone r w).1]> (Fields r) ∧
  Fields (CopyRequest r w).1 = <["request_id" := MessageID_of (CopyRequest r w).1]> (Fields r) ∧
  ∀ fields,
    Fields (WithFields r fields w).1 !! "request_id" =
      Some (MessageID_of (WithFields r fields w).1) ∧
    ∀ k, k ≠ "request_id" →
         Fields (WithFields r fields w).1 !! k =
         match fields !! k with Some v => Some v | None => Fields r !! k end.
Proof.
  split; [|split; [|split]].
  - intros messID meth rcpt sipVersion hdrs body fields.
    destruct (NewRequest_result messID meth rcpt sipVersion hdrs body fields w)
      as (_ & _ & _ & _ & _ & -> & _). apply lookup_insert_eq.
  - unfold Clone, St_bind.
    destruct (Uri_Clone (Recipient r) w) as [u w1].
    destruct (headers.CloneHeaders _ w1) as [hdrs w2].
    apply NewRequest_result.
  - unfold CopyRequest, St_bind.
    destruct (St_mapM Header_Clone (Headers r) w) as [hdrs w1].
    destruct (Uri_Clone (Recipient r) w1) as [u w2].
    apply NewRequest_result.
  - intros fields. unfold WithFields, St_bind.
    destruct (Uri_Clone (Recipient r) w) as [u w1].
    destruct (headers.CloneHeaders _ w1) as [hdrs w2].
    match goal with
    | |- context [NewRequest ?a ?b ?c ?d ?e ?f ?g ?w] =>
        destruct (NewRequest_result a b c d e f g w) as (_ & _ & _ & _ & _ & -> & _)
    end.
    split; [apply lookup_insert_eq|].
    intros k Hk. rewrite lookup_insert_ne by done. apply lookup_WithFields.
Qed.


(** ** Stores that agree on a range of locations *)

Lemma agree_refl lo hi w : agree lo hi w w.
Proof. by constructor. Qed.

Lemma agree_trans lo hi w1 w2 w3 : agree lo hi w1 w2 → agree lo hi w2 w3 → agree lo hi w1 w3.
Proof.
  intros [] []. constructor; intros l Hl;
    match goal with H : ∀ l, _ → ?f w3 l = _ |- ?f w3 l = _ => rewrite H by done end; auto.
Qed.

Lemma agree_weaken lo hi lo' hi' w w' :
  lo ≤ lo' → hi' ≤ hi → agree lo hi w w' → agree lo' hi' w w'.
Proof. intros Hlo Hhi []. constructor; intros l Hl; auto with lia. Qed.

Lemma frame_agree w w' : frame w w' → agree 0 (next w) w w'.
Proof. intros []. constructor; intros l Hl; auto with lia. Qed.

Lemma same_objects_agree lo hi w w' : same_objects w w' → agree lo hi w w'.
Proof. intros []. constructor; intros; congruence. Qed.

Lemma agree_store_ViaHop lo hi w p hop :
  p < lo ∨ hi ≤ p → agree lo hi w (store_ViaHop p hop w).
Proof.
  intros Hp. constructor; intros l Hl; try done.
  cbn. apply fn_lookup_insert_ne. lia.
Qed.

Lemma agree_store_CSeq lo hi w p c :
  p < lo ∨ hi ≤ p → agree lo hi w (store_CSeq p c w).
Proof.
  intros Hp. constructor; intros l Hl; try done.
  cbn. apply fn_lookup_insert_ne. lia.
Qed.

(** ** Objects in a range *)

Lemma uri_between_weaken lo hi lo' hi' u :
  lo' ≤ lo → hi ≤ hi' → uri_between lo hi u → uri_between lo' hi' u.
Proof. destruct u; simpl; lia. Qed.

Lemma hop_between_weaken lo hi lo' hi' hop :
  lo' ≤ lo → hi ≤ hi' → hop_between lo hi hop → hop_between lo' hi' hop.
Proof. destruct hop; simpl; lia. Qed.

Lemma header_between_weaken lo hi lo' hi' w h :
  lo' ≤ lo → hi ≤ hi' → header_between lo hi w h → header_between lo' hi' w h.
Proof.
  intros Hlo Hhi. destruct h; simpl; try lia.
  - apply Forall_impl. intros. by eapply hop_between_weaken.
  - intros [? Hall]. split; [lia|]. revert Hall. apply Forall_impl.
    intros. by eapply uri_between_weaken.
  - intros [? Hall]. split; [lia|]. revert Hall. apply Forall_impl.
    intros. by eapply uri_between_weaken.
  - intros [? Hu]. split; [lia|]. by eapply uri_between_weaken.
Qed.

Lemma view_uri_agree lo hi w w' u :
  agree lo hi w w' → uri_between lo hi u → view_uri w' u = view_uri w u.
Proof. intros [] Hu. destruct u; simpl in *; [|done]. f_equal. auto. Qed.

Lemma view_uris_agree lo hi w w' us :
  agree lo hi w w' → Forall (uri_between lo hi) us →
  map (view_uri w') us = map (view_uri w) us.
Proof.
  intros Ha Hall. induction Hall as [|u us Hu _ IH]; [done|].
  simpl. f_equal; [by eapply view_uri_agree|done].
Qed.

(** A header whose objects are in a range on which two stores agree is the
    same header in both. *)
Lemma header_agree lo hi w w' h :
  agree lo hi w w' → header_between lo hi w h →
  header_between lo hi w' h ∧ view_header w' h = view_header w h.
Proof.
  intros Ha Hh. pose proof Ha as [Hu Hhop Haddr Hc Hct Ho].
  destruct h; simpl in *.
  - split; [done|]. f_equal.
    induction Hh as [|hop hs Hhop' _ IH]; [done|]. simpl. f_equal; [|done].
    destruct hop; simpl in *; [|done]. f_equal. auto.
  - destruct Hh as [Hp Hall]. rewrite Haddr by done. split; [done|].
    f_equal. by eapply view_uris_agree.
  - destruct Hh as [Hp Hall]. rewrite Haddr by done. split; [done|].
    f_equal. by eapply view_uris_agree.
  - split; [done|]. f_equal. auto.
  - destruct Hh as [Hp Hall]. rewrite Hct by done. split; [done|].
    f_equal. by eapply view_uri_agree.
  - split; [done|]. f_equal. auto.
  - split; [done|]. f_equal. auto.
  - split; [done|]. f_equal. auto.
  - split; [done|]. f_equal. auto.
Qed.

Lemma headers_agree lo hi w w' hdrs :
  agree lo hi w w' → Forall (header_between lo hi w) hdrs →
  Forall (header_between lo hi w') hdrs ∧
  map (view_header w') hdrs = map (view_header w) hdrs.
Proof.
  intros Ha Hall. induction Hall as [|h hdrs Hh _ [IH1 IH2]]; [done|].
  destruct (header_agree lo hi w w' h Ha Hh) as [Hb Hv].
  split; [by constructor|]. simpl. by f_equal.
Qed.

Lemma Name_view w h : view_name (view_header w h) = Name h.
Proof. by destruct h. Qed.

(** ** Deep copies, by contents *)

Lemma Uri_Clone_spec u w :
  view_uri (Uri_Clone u w).2 (Uri_Clone u w).1 = view_uri w u ∧
  uri_between (next w) (next (Uri_Clone u w).2) (Uri_Clone u w).1.
Proof.
  destruct u as [p|repr]; simpl; [|done].
  split; [f_equal; apply fn_lookup_insert|lia].
Qed.

Lemma Uris_Clone_spec us w :
  Forall (uri_between 0 (next w)) us →
  map (view_uri (St_mapM Uri_Clone us w).2) (St_mapM Uri_Clone us w).1 =
    map (view_uri w) us ∧
  Forall (uri_between (next w) (next (St_mapM Uri_Clone us w).2))
    (St_mapM Uri_Clone us w).1.
Proof.
  intros Hall. revert w Hall. induction us as [|u us IH]; intros w Hall; [done|].
  apply list.Forall_cons_1 in Hall as [Hu Hall].
  rewrite St_mapM_cons. cbn [fst snd].
  destruct (Uri_Clone_spec u w) as [Hv Hb].
  pose proof (allocates_only_Uri_Clone u w) as [Hf1 _].
  pose proof (allocates_only_mapM Uri_Clone us allocates_only_Uri_Clone (Uri_Clone u w).2)
    as [Hf2 _].
  destruct (Uri_Clone u w) as [u' w1]. cbn [fst snd] in *.
  pose proof (frame_next _ _ Hf1) as Hn1.
  destruct (IH w1) as [IHv IHb].
  { revert Hall. apply Forall_impl. intros. eapply uri_between_weaken; [| |done]; lia. }
  pose proof (frame_next _ _ Hf2) as Hn2.
  destruct (St_mapM Uri_Clone us w1) as [us' w2]. cbn [fst snd] in *.
  split.
  - simpl. f_equal.
    + rewrite <- Hv. eapply view_uri_agree; [apply frame_agree, Hf2|].
      eapply uri_between_weaken; [| |done]; lia.
    + rewrite IHv. eapply view_uris_agree; [apply frame_agree, Hf1|done].
  - constructor.
    + eapply uri_between_weaken; [| |done]; lia.
    + revert IHb. apply Forall_impl. intros. eapply uri_between_weaken; [| |done]; lia.
Qed.

Lemma ViaHop_Clone_spec hop w :
  option_map (hops (ViaHop_Clone hop w).2) (ViaHop_Clone hop w).1 = option_map (hops w) hop ∧
  hop_between (next w) (next (ViaHop_Clone hop w).2) (ViaHop_Clone hop w).1.
Proof.
  destruct hop as [p|]; simpl; [|done].
  split; [f_equal; apply fn_lookup_insert|lia].
Qed.

Lemma hop_agree lo hi w w' hop :
  agree lo hi w w' → hop_between lo hi hop →
  option_map (hops w') hop = option_map (hops w) hop.
Proof. intros [] Hh. destruct hop; simpl in *; [|done]. f_equal. auto. Qed.

Lemma hops_agree lo hi w w' hs :
  agree lo hi w w' → Forall (hop_between lo hi) hs →
  map (option_map (hops w')) hs = map (option_map (hops w)) hs.
Proof.
  intros Ha Hall. induction Hall as [|hop hs Hhop _ IH]; [done|].
  simpl. f_equal; [by eapply hop_agree|done].
Qed.

Lemma ViaHops_Clone_spec hs w :
  Forall (hop_between 0 (next w)) hs →
  map (option_map (hops (St_mapM ViaHop_Clone hs w).2)) (St_mapM ViaHop_Clone hs w).1 =
    map (option_map (hops w)) hs ∧
  Forall (hop_between (next w) (next (St_mapM ViaHop_Clone hs w).2))
    (St_mapM ViaHop_Clone hs w).1.
Proof.
  intros Hall. revert w Hall. induction hs as [|hop hs IH]; intros w Hall; [done|].
  apply list.Forall_cons_1 in Hall as [Hu Hall].
  rewrite St_mapM_cons. cbn [fst snd].
  destruct (ViaHop_Clone_spec hop w) as [Hv Hb].
  pose proof (allocates_only_ViaHop_Clone hop w) as [Hf1 _].
  pose proof (allocates_only_mapM ViaHop_Clone hs allocates_only_ViaHop_Clone
                (ViaHop_Clone hop w).2) as [Hf2 _].
  destruct (ViaHop_Clone hop w) as [hop' w1]. cbn [fst snd] in *.
  pose proof (frame_next _ _ Hf1) as Hn1.
  destruct (IH w1) as [IHv IHb].
  { revert Hall. apply Forall_impl. intros. eapply hop_between_weaken; [| |done]; lia. }
  pose proof (frame_next _ _ Hf2) as Hn2.
  destruct (St_mapM ViaHop_Clone hs w1) as [hs' w2]. cbn [fst snd] in *.
  split.
  - simpl. f_equal.
    + rewrite <- Hv. eapply hop_agree; [apply frame_agree, Hf2|].
      eapply hop_between_weaken; [| |done]; lia.
    + rewrite IHv. eapply hops_agree; [apply frame_agree, Hf1|done].
  - constructor.
    + eapply hop_between_weaken; [| |done]; lia.
    + revert IHb. apply Forall_impl. intros. eapply hop_between_weaken; [| |done]; lia.
Qed.

Lemma Header_Clone_spec h w :
  header_between 0 (next w) w h →
  view_header (Header_Clone h w).2 (Header_Clone h w).1 = view_header w h ∧
  header_between (next w) (next (Header_Clone h w).2) (Header_Clone h w).2
    (Header_Clone h w).1.
Proof.
  intros Hh. destruct h as [hs|p|p|p|p|p|p|p|name p]; cbn [Header_Clone];
    unfold St_bind, St_ret.
  - destruct (ViaHops_Clone_spec hs w Hh) as [Hv Hb].
    destruct (St_mapM ViaHop_Clone hs w) as [hs' w1]. cbn [fst snd] in *.
    split; [simpl; by f_equal|done].
  - destruct Hh as [Hp Hall].
    destruct (Uris_Clone_spec (addresses w p) w Hall) as [Hv Hb].
    pose proof (allocates_only_mapM Uri_Clone (addresses w p) allocates_only_Uri_Clone w)
      as [[Hn _] _].
    destruct (St_mapM Uri_Clone (addresses w p) w) as [us' w1]. cbn [fst snd] in *.
    simpl. rewrite fn_lookup_insert. split.
    + f_equal. rewrite <- Hv. apply map_ext. by intros [].
    + split; [lia|].
      revert Hb. apply Forall_impl. intros. eapply uri_between_weaken; [| |done]; lia.
  - destruct Hh as [Hp Hall].
    destruct (Uris_Clone_spec (addresses w p) w Hall) as [Hv Hb].
    pose proof (allocates_only_mapM Uri_Clone (addresses w p) allocates_only_Uri_Clone w)
      as [[Hn _] _].
    destruct (St_mapM Uri_Clone (addresses w p) w) as [us' w1]. cbn [fst snd] in *.
    simpl. rewrite fn_lookup_insert. split.
    + f_equal. rewrite <- Hv. apply map_ext. by intros [].
    + split; [lia|].
      revert Hb. apply Forall_impl. intros. eapply uri_between_weaken; [| |done]; lia.
  - simpl. rewrite fn_lookup_insert. split; [done|lia].
  - destruct Hh as [Hp Hu].
    destruct (Uri_Clone_spec (ContactHeader.Address (contacts w p)) w) as [Hv Hb].
    pose proof (allocates_only_Uri_Clone (ContactHeader.Address (contacts w p)) w)
      as [[Hn _] _].
    destruct (Uri_Clone (ContactHeader.Address (contacts w p)) w) as [u' w1].
    cbn [fst snd] in *. simpl. rewrite fn_lookup_insert. simpl. split.
    + f_equal. rewrite <- Hv. by destruct u'.
    + split; [lia|].
      eapply uri_between_weaken; [| |done]; lia.
  - simpl. rewrite fn_lookup_insert. split; [done|lia].
  - simpl. rewrite fn_lookup_insert. split; [done|lia].
  - simpl. rewrite fn_lookup_insert. split; [done|lia].
  - simpl. rewrite fn_lookup_insert. split; [done|lia].
Qed.

(** The clones of a list of headers: the same headers by contents, on
    objects allocated by the call. *)
Lemma Headers_Clone_spec hdrs w :
  Forall (header_between 0 (next w) w) hdrs →
  map (view_header (St_mapM Header_Clone hdrs w).2) (St_mapM Header_Clone hdrs w).1 =
    map (view_header w) hdrs ∧
  Forall (header_between (next w) (next (St_mapM Header_Clone hdrs w).2)
            (St_mapM Header_Clone hdrs w).2)
    (St_mapM Header_Clone hdrs w).1.
Proof.
  intros Hall. revert w Hall. induction hdrs as [|h hdrs IH]; intros w Hall; [done|].
  apply list.Forall_cons_1 in Hall as [Hh Hall].
  rewrite St_mapM_cons. cbn [fst snd].
  destruct (Header_Clone_spec h w Hh) as [Hv Hb].
  pose proof (allocates_only_Header_Clone h w) as [Hf1 _].
  pose proof (allocates_only_mapM Header_Clone hdrs allocates_only_Header_Clone
                (Header_Clone h w).2) as [Hf2 _].
  destruct (Header_Clone h w) as [h' w1]. cbn [fst snd] in *.
  pose proof (frame_next _ _ Hf1) as Hn1.
  destruct (headers_agree 0 (next w) w w1 hdrs (frame_agree _ _ Hf1) Hall) as [Hall1 Hv1].
  destruct (IH w1) as [IHv IHb].
  { revert Hall1. apply Forall_impl. intros. eapply header_between_weaken; [| |done]; lia. }
  pose proof (frame_next _ _ Hf2) as Hn2.
  destruct (St_mapM Header_Clone hdrs w1) as [hs' w2]. cbn [fst snd] in *.
  destruct (header_agree (next w) (next w1) w1 w2 h') as [Hb' Hv'];
    [eapply agree_weaken; [| |apply frame_agree, Hf2]; lia|done|].
  split.
  - simpl. f_equal; congruence.
  - constructor.
    + eapply header_between_weaken; [| |done]; lia.
    + revert IHb. apply Forall_impl. intros. eapply header_between_weaken; [| |done]; lia.
Qed.

(** ** Requests under construction *)

Lemma built_frame w0 w w' to : built w0 w to → frame w w' → built w0 w' to.
Proof.
  intros (Ha & Hn & Hwf & Hb) Hf. pose proof (frame_next _ _ Hf) as Hn'.
  split; [|split; [lia|split; [done|]]].
  - eapply agree_trans; [done|]. eapply agree_weaken; [| |apply frame_agree, Hf]; lia.
  - intros k h Hin. eapply header_between_weaken; [| |eapply header_agree]; [| | |by eapply Hb];
      [reflexivity|done|].
    eapply agree_weaken; [| |apply frame_agree, Hf]; lia.
Qed.

Lemma built_same_envelope w0 w to to' :
  message.headers (msg to') = message.headers (msg to) → built w0 w to → built w0 w to'.
Proof. unfold built. by intros ->. Qed.

Lemma view_headers_frame w0 w w' to k :
  built w0 w to → frame w w' → view_headers w' to k = view_headers w to k.
Proof.
  intros (Ha & Hn & Hwf & Hb) Hf. unfold view_headers.
  eapply headers_agree.
  - eapply agree_weaken; [| |apply frame_agree, Hf]; [lia|reflexivity].
  - apply list.Forall_forall. intros h Hin. by eapply Hb.
Qed.

Lemma built_AppendHeader w0 w to h :
  built w0 w to → header_between (next w0) (next w) w h → built w0 w (AppendHeader to h).
Proof.
  intros (Ha & Hn & Hwf & Hb) Hh.
  split; [done|split; [done|split]].
  - by apply headers_wf_AppendHeader.
  - intros k h' Hin. cbn in Hin. rewrite GetHeaders_AppendHeader in Hin.
    apply elem_of_app in Hin as [Hin|Hin]; [by eapply Hb|].
    case_decide; [|by apply elem_of_nil in Hin].
    by apply list_elem_of_singleton in Hin as ->.
Qed.

Lemma view_headers_AppendHeader w to h k :
  view_headers w (AppendHeader to h) k =
  view_headers w to k ++ (if decide (Name h = k) then [view_header w h] else []).
Proof.
  unfold view_headers. rewrite GetHeaders_AppendHeader_request, map_app.
  by case_decide.
Qed.

Lemma headers_wf_fold_AppendHeader hdrs hs :
  headers_wf hs → headers_wf (fold_left headers.AppendHeader hdrs hs).
Proof.
  revert hs. induction hdrs as [|h hdrs IH]; intros hs Hwf; [done|].
  simpl. by apply IH, headers_wf_AppendHeader.
Qed.

Lemma closed_bucket w0 w from name :
  headers_between 0 (next w0) w0 (message.headers from) →
  agree 0 (next w0) w0 w → next w0 ≤ next w →
  Forall (header_between 0 (next w) w) (message.GetHeaders from name) ∧
  map (view_header w) (message.GetHeaders from name) =
    map (view_header w0) (message.GetHeaders from name).
Proof.
  intros Hc Ha Hn.
  destruct (headers_agree 0 (next w0) w0 w (message.GetHeaders from name) Ha) as [Hb Hv].
  { apply list.Forall_forall. intros h Hin. by eapply Hc. }
  split; [|done]. revert Hb. apply Forall_impl. intros.
  eapply header_between_weaken; [| |done]; lia.
Qed.

(** [CopyHeaders] appends to the bucket of the name the headers of that
    name of the source, by contents. *)
Lemma CopyHeaders_built name from to w0 w :
  headers_wf (message.headers from) →
  headers_between 0 (next w0) w0 (message.headers from) →
  built w0 w to →
  built w0 (CopyHeaders name from to w).2 (CopyHeaders name from to w).1 ∧
  ∀ k, view_headers (CopyHeaders name from to w).2 (CopyHeaders name from to w).1 k =
       view_headers w to k ++
       (if decide (k = name) then map (view_header w0) (message.GetHeaders from name)
        else []).
Proof.
  intros Hwf Hclosed Hbuilt.
  pose proof (λ k, CopyHeaders_GetHeaders name from to w k Hwf) as Hget.
  pose proof (allocates_only_CopyHeaders name from to w) as [Hf _].
  pose proof (λ k, view_headers_frame w0 w _ to k Hbuilt Hf) as Hold.
  pose proof (built_frame _ _ _ _ Hbuilt Hf) as Hbuilt'.
  destruct Hbuilt as (Ha & Hn & Hwfto & Hb).
  destruct (closed_bucket w0 w from name Hclosed Ha Hn) as [Hsrc Hsrcv].
  destruct (Headers_Clone_spec _ w Hsrc) as [Hv Hfresh].
  assert (headers_wf (message.headers (msg (CopyHeaders name from to w).1))) as Hwf'.
  { rewrite CopyHeaders_eq. cbn. rewrite fold_AppendHeader_headers.
    by apply headers_wf_fold_AppendHeader. }
  rewrite CopyHeaders_eq in Hf, Hold, Hbuilt'. cbn [fst snd] in Hf, Hold, Hbuilt'.
  assert ((CopyHeaders name from to w).2 =
          (St_mapM Header_Clone (message.GetHeaders from name) w).2) as Hw
    by by rewrite CopyHeaders_eq.
  rewrite Hw. clear Hw.
  destruct (CopyHeaders name from to w) as [to' w'] eqn:Hcopy. cbn [fst snd] in *.
  set (clones := (St_mapM Header_Clone (message.GetHeaders from name) w).1) in *.
  set (w1 := (St_mapM Header_Clone (message.GetHeaders from name) w).2) in *.
  pose proof (frame_next _ _ Hf) as Hn'.
  split.
  - destruct Hbuilt' as (Ha' & _ & _ & Hb').
    split; [done|split; [lia|split; [done|]]].
    intros k h Hin. change (h ∈ GetHeaders to' k) in Hin. rewrite Hget in Hin.
    apply elem_of_app in Hin as [Hin|Hin]; [by eapply Hb'|].
    case_decide; [|by apply elem_of_nil in Hin].
    rewrite list.Forall_forall in Hfresh.
    eapply header_between_weaken; [| |by apply Hfresh]; lia.
  - intros k. unfold view_headers in *. rewrite Hget, map_app, <- Hold. f_equal.
    case_decide; [|done]. by rewrite Hv.
Qed.

(** ** Assignments through the pointers of a request under construction *)

Lemma view_header_store_CSeq p c w h :
  Name h ≠ "CSeq" → view_header (store_CSeq p c w) h = view_header w h.
Proof. by destruct h. Qed.

Lemma view_header_store_ViaHop p hop w h :
  Name h ≠ "Via" → view_header (store_ViaHop p hop w) h = view_header w h.
Proof. by destruct h. Qed.

Lemma header_between_store_CSeq lo hi p c w h :
  header_between lo hi w h → header_between lo hi (store_CSeq p c w) h.
Proof. by destruct h. Qed.

Lemma header_between_store_ViaHop lo hi p hop w h :
  header_between lo hi w h → header_between lo hi (store_ViaHop p hop w) h.
Proof. by destruct h. Qed.

Lemma built_store_CSeq w0 w to p c :
  built w0 w to → next w0 ≤ p → built w0 (store_CSeq p c w) to.
Proof.
  intros (Ha & Hn & Hwf & Hb) Hp. split; [|split; [done|split; [done|]]].
  - eapply agree_trans; [done|]. apply agree_store_CSeq. lia.
  - intros k h Hin. by eapply header_between_store_CSeq, Hb.
Qed.

Lemma built_store_ViaHop w0 w to p hop :
  built w0 w to → next w0 ≤ p → built w0 (store_ViaHop p hop w) to.
Proof.
  intros (Ha & Hn & Hwf & Hb) Hp. split; [|split; [done|split; [done|]]].
  - eapply agree_trans; [done|]. apply agree_store_ViaHop. lia.
  - intros k h Hin. by eapply header_between_store_ViaHop, Hb.
Qed.

Lemma view_headers_store_CSeq w0 w to p c k :
  built w0 w to → k ≠ "CSeq" →
  view_headers (store_CSeq p c w) to k = view_headers w to k.
Proof.
  intros (_ & _ & Hwf & _) Hk. unfold view_headers. apply map_ext_in.
  intros h Hin%list_elem_of_In. apply view_header_store_CSeq.
  by rewrite (Hwf k h Hin).
Qed.

Lemma view_headers_store_ViaHop w0 w to p hop k :
  built w0 w to → k ≠ "Via" →
  view_headers (store_ViaHop p hop w) to k = view_headers w to k.
Proof.
  intros (_ & _ & Hwf & _) Hk. unfold view_headers. apply map_ext_in.
  intros h Hin%list_elem_of_In. apply view_header_store_ViaHop.
  by rewrite (Hwf k h Hin).
Qed.

(** Copying the CSeq headers into a request that has none, and setting
    the method of the first. *)
Lemma CopyHeaders_CSeq_built from to w0 w lc rest m :
  headers_wf (message.headers from) →
  headers_between 0 (next w0) w0 (message.headers from) →
  built w0 w to →
  GetHeaders to "CSeq" = [] →
  message.GetHeaders from "CSeq" = CSeqPtr lc :: rest →
  let r := CopyHeaders "CSeq" from to w in
  let w' := (set_MethodName (next w) m r.2).2 in
  CSeq_of r.1 = (Some (next w), true) ∧
  built w0 w' r.1 ∧
  view_headers w' r.1 "CSeq" =
    CSeqView (CSeq.mk (CSeq.SeqNo (cseqs w0 lc)) m) :: map (view_header w0) rest ∧
  ∀ k, k ≠ "CSeq" → view_headers w' r.1 k = view_headers w to k.
Proof.
  intros Hwf Hclosed Hbuilt Hnone Hbucket r w'.
  destruct (CopyHeaders_built "CSeq" from to w0 w Hwf Hclosed Hbuilt) as [Hbuilt' Hviews].
  destruct (CopyHeaders_CSeq from to w lc rest Hwf Hbucket Hnone) as (Hcseq & Hcontents & Hnext).
  pose proof (CopyHeaders_GetHeaders "CSeq" from to w "CSeq" Hwf) as Hget.
  rewrite decide_True, Hnone, Hbucket, St_mapM_cons, Header_Clone_CSeq in Hget by done.
  cbn [fst snd app] in Hget.
  assert (r.2 = (St_mapM Header_Clone rest (new_CSeq (cseqs w lc) w).2).2) as Hr2.
  { subst r. by rewrite CopyHeaders_eq, Hbucket, St_mapM_cons, Header_Clone_CSeq. }
  fold r in Hbuilt', Hviews, Hcseq, Hcontents, Hnext, Hget.
  pose proof Hbuilt as (Ha & Hn & Hwfto & Hb).
  assert (lc < next w0) as Hlc.
  { assert (CSeqPtr lc ∈ headers.GetHeaders (message.headers from) "CSeq") as Hin.
    { unfold message.GetHeaders in Hbucket. rewrite Hbucket. apply list_elem_of_here. }
    apply Hclosed in Hin. simpl in Hin. lia. }
  split; [done|]. split; [apply built_store_CSeq; [done|lia]|].
  split.
  - unfold view_headers. rewrite Hget. cbn [map view_header]. f_equal.
    + subst w'. cbn. rewrite fn_lookup_insert, Hcontents.
      by rewrite (agree_cseqs _ _ _ _ Ha) by lia.
    + set (w1 := (new_CSeq (cseqs w lc) w).2) in *.
      pose proof (allocates_only_new_CSeq (cseqs w lc) w) as [Hf1 _]. fold w1 in Hf1.
      assert (agree 0 (next w0) w0 w1) as Ha1.
      { eapply agree_trans; [done|].
        eapply agree_weaken; [| |apply frame_agree, Hf1]; lia. }
      destruct (closed_bucket w0 w1 from "CSeq" Hclosed Ha1) as [Hsrc Hsrcv];
        [pose proof (frame_next _ _ Hf1); lia|].
      rewrite Hbucket in Hsrc, Hsrcv.
      apply list.Forall_cons_1 in Hsrc as [_ Hsrc]. injection Hsrcv as _ Hsrcv.
      destruct (Headers_Clone_spec rest w1 Hsrc) as [Hv Hfresh].
      rewrite <- Hr2 in Hv, Hfresh. rewrite <- Hsrcv, <- Hv.
      eapply headers_agree; [|exact Hfresh].
      apply agree_store_CSeq. left. subst w1. cbn. lia.
  - intros k Hk. subst w'. cbn [set_MethodName snd].
    rewrite (view_headers_store_CSeq w0) by done.
    rewrite Hviews, decide_False by done. apply app_nil_r.
Qed.

(** ** The derived requests, header by header *)

Lemma NewRequest_built messID method recipient sipVersion body fields w :
  let r := NewRequest messID method recipient sipVersion [] body fields w in
  built w r.2 r.1 ∧ ∀ k, view_headers r.2 r.1 k = [].
Proof.
  intros r.
  pose proof (NewRequest_same messID method recipient sipVersion [] body fields w) as [Hs _].
  pose proof (λ k, NewRequest_GetHeaders messID method recipient sipVersion [] body fields w k)
    as Hget.
  pose proof (NewRequest_headers_wf messID method recipient sipVersion [] body fields w) as Hwf.
  fold r in Hs, Hget, Hwf. split.
  - split; [by apply same_objects_agree|]. split; [by rewrite (same_next _ _ Hs)|].
    split; [done|]. intros k h Hin. change (h ∈ GetHeaders r.1 k) in Hin.
    rewrite Hget in Hin. by apply elem_of_nil in Hin.
  - intros k. unfold view_headers. by rewrite Hget.
Qed.

Lemma view_headers_nil w req k : view_headers w req k = [] → GetHeaders req k = [].
Proof. unfold view_headers. apply map_eq_nil. Qed.

Lemma CSeq_of_view w req :
  match view_headers w req "CSeq" with
  | CSeqView _ :: _ => (CSeq_of req).2 = true
  | _ => CSeq_of req = (None, false)
  end.
Proof.
  unfold view_headers, CSeq_of, headers.CSeq, GetHeaders, message.GetHeaders.
  by destruct (headers.GetHeaders _ "CSeq") as [|[] ?].
Qed.

Lemma ViaHop_of_view w req :
  match view_headers w req "Via" with
  | ViaView (Some _ :: _) :: _ => ∃ p, ViaHop_of req = (Some p, true)
  | _ => (ViaHop_of req).1 = None
  end.
Proof.
  unfold view_headers, ViaHop_of, headers.ViaHop, GetHeaders, message.GetHeaders.
  destruct (headers.GetHeaders _ "Via") as [|[[|[p|] ?]| | | | | | | |] ?]; try done.
  by exists p.
Qed.

Ltac decide_names :=
  repeat (match goal with
          | |- context [decide ?P] => destruct (decide P); try done
          end);
  cbn [app]; rewrite ?app_nil_r.

Ltac new_request_built :=
  lazymatch goal with
  | |- context [NewRequest ?a ?b ?c ?d [] ?f ?g ?w] =>
      let Hb := fresh "Hbuilt" in
      let Hv := fresh "Hview" in
      let Hs := fresh "Hsame" in
      let Hbr := fresh "Hbranches" in
      pose proof (NewRequest_built a b c d f g w) as [Hb Hv];
      pose proof (NewRequest_same a b c d [] f g w) as [Hs Hbr];
      cbv zeta in Hb, Hv;
      destruct (NewRequest a b c d [] f g w) as [? ?]
  end;
  cbn [fst snd] in *.

Ltac copy_step_built Hwf Hclosed :=
  rewrite M_bind_lift;
  lazymatch goal with
  | Hb : built ?w0 ?w ?t |- context [CopyHeaders ?n ?f ?t ?w] =>
      let Hb' := fresh "Hbuilt" in
      let Hv := fresh "Hview" in
      pose proof (CopyHeaders_built n f t w0 w Hwf Hclosed Hb) as [Hb' Hv];
      destruct (CopyHeaders n f t w) as [? ?]
  end;
  cbn [fst snd] in *.

(** The first steps of [NewCancelRequest], up to the copy of the Call-ID
    headers. *)
Ltac cancel_steps Hwf Hclosed :=
  unfold NewCancelRequest; rewrite M_bind_lift; new_request_built;
  rewrite M_bind_lift;
  lazymatch goal with
  | Hb : built ?w0 ?w ?t |- context [ViaHop_Clone ?hop ?w] =>
      let Hspec := fresh "Hhop" in
      let Hf := fresh "Hframe" in
      pose proof (ViaHop_Clone_spec hop w) as Hspec;
      pose proof (allocates_only_ViaHop_Clone hop w) as [Hf _];
      pose proof (built_frame _ _ _ _ Hb Hf);
      destruct (ViaHop_Clone hop w) as [? ?]
  end;
  cbn [fst snd] in *;
  lazymatch goal with
  | Hb : built ?w0 ?w ?t |- context [AppendHeader ?t (ViaHeader [?hop])] =>
      let Hb' := fresh "Hbuilt" in
      assert (built w0 w (AppendHeader t (ViaHeader [hop]))) as Hb'
  end.

Lemma NewCancelRequest_views cancelID req fields w lc rest :
  headers_wf (message.headers (msg req)) →
  headers_between 0 (next w) w (message.headers (msg req)) →
  message.GetHeaders (msg req) "CSeq" = CSeqPtr lc :: rest →
  ∃ cancel w',
    NewCancelRequest cancelID req fields w = Ok (cancel, w') ∧
    built w w' cancel ∧
    view_headers w' cancel "Via" = [ViaView [option_map (hops w) (ViaHop_of req).1]] ∧
    view_headers w' cancel "Route" = view_headers w req "Route" ∧
    view_headers w' cancel "From" = view_headers w req "From" ∧
    view_headers w' cancel "To" = view_headers w req "To" ∧
    view_headers w' cancel "Call-ID" = view_headers w req "Call-ID" ∧
    view_headers w' cancel "CSeq" =
      CSeqView (CSeq.mk (CSeq.SeqNo (cseqs w lc)) CANCEL) :: map (view_header w) rest ∧
    ∀ k, k ∉ ["Via"; "Route"; "From"; "To"; "Call-ID"; "CSeq"] → view_headers w' cancel k = [].
Proof.
  intros Hwf Hclosed Hbucket.
  cancel_steps Hwf Hclosed.
  { apply built_AppendHeader; [done|]. simpl. constructor; [|done].
    destruct Hhop as [_ Hhop]. rewrite (same_next _ _ Hsame) in Hhop. done. }
  do 4 copy_step_built Hwf Hclosed.
  assert (∀ k, view_headers w1 (AppendHeader r (ViaHeader [o])) k =
               if decide (k = "Via") then [ViaView [option_map (hops w) (ViaHop_of req).1]]
               else []) as Hview4.
  { intros k. rewrite view_headers_AppendHeader.
    rewrite (view_headers_frame w w0 w1 r k Hbuilt Hframe), Hview. cbn [app Name view_header map].
    destruct Hhop as [-> _]. rewrite (same_hops _ _ Hsame).
    by destruct (decide ("Via" = k)), (decide (k = "Via")). }
  assert (GetHeaders r3 "CSeq" = []) as Hnone.
  { apply (view_headers_nil w5). by rewrite Hview3, Hview2, Hview1, Hview0, Hview4. }
  destruct (CopyHeaders_CSeq_built (msg req) r3 w w5 lc rest CANCEL Hwf Hclosed Hbuilt4
              Hnone Hbucket) as (Hcseq & Hbuilt5 & Hview5 & Hview6).
  rewrite M_bind_lift.
  destruct (CopyHeaders "CSeq" (msg req) r3 w5) as [cancel w6]. cbn [fst snd] in *.
  rewrite Hcseq, M_bind_lift.
  eexists cancel, _. split; [reflexivity|]. split; [done|].
  split; [rewrite Hview6, Hview3, Hview2, Hview1, Hview0, Hview4 by done; by decide_names|].
  split; [rewrite Hview6, Hview3, Hview2, Hview1, Hview0, Hview4 by done; by decide_names|].
  split; [rewrite Hview6, Hview3, Hview2, Hview1, Hview0, Hview4 by done; by decide_names|].
  split; [rewrite Hview6, Hview3, Hview2, Hview1, Hview0, Hview4 by done; by decide_names|].
  split; [rewrite Hview6, Hview3, Hview2, Hview1, Hview0, Hview4 by done; by decide_names|].
  split; [done|].
  intros k Hk. rewrite !not_elem_of_cons in Hk. destruct Hk as (?&?&?&?&?&?&_).
  rewrite Hview6, Hview3, Hview2, Hview1, Hview0, Hview4 by done.
  by decide_names.
Qed.

(** Without a CSeq header the constructor goes through a nil pointer. *)
Lemma NewCancelRequest_panics cancelID req fields w :
  headers_wf (message.headers (msg req)) →
  headers_between 0 (next w) w (message.headers (msg req)) →
  CSeq_of req = (None, false) →
  NewCancelRequest cancelID req fields w = Panic NilDereference.
Proof.
  intros Hwf Hclosed Hcseq.
  cancel_steps Hwf Hclosed.
  { apply built_AppendHeader; [done|]. simpl. constructor; [|done].
    destruct Hhop as [_ Hhop]. rewrite (same_next _ _ Hsame) in Hhop. done. }
  do 5 copy_step_built Hwf Hclosed.
  assert (∀ k, view_headers w1 (AppendHeader r (ViaHeader [o])) k =
               if decide (k = "Via") then [ViaView [option_map (hops w) (ViaHop_of req).1]]
               else []) as Hview5.
  { intros k. rewrite view_headers_AppendHeader.
    rewrite (view_headers_frame w w0 w1 r k Hbuilt Hframe), Hview. cbn [app Name view_header map].
    destruct Hhop as [-> _]. rewrite (same_hops _ _ Hsame).
    by destruct (decide ("Via" = k)), (decide (k = "Via")). }
  pose proof (CSeq_of_view w6 r4) as Hlast.
  rewrite Hview4, Hview3, Hview2, Hview1, Hview0, Hview5 in Hlast.
  revert Hlast. decide_names. intros Hlast.
  pose proof (CSeq_of_view w req) as Hfirst. unfold view_headers, GetHeaders in Hfirst.
  destruct (map (view_header w) (message.GetHeaders (msg req) "CSeq")) as [|[] ?];
    try (by rewrite Hlast); by rewrite Hcseq in Hfirst.
Qed.

Lemma built_same_objects w0 w w' to : built w0 w to → same_objects w w' → built w0 w' to.
Proof.
  intros (Ha & Hn & Hwf & Hb) Hs. split; [|split; [|split; [done|]]].
  - eapply agree_trans; [done|]. by apply same_objects_agree.
  - by rewrite (same_next _ _ Hs).
  - intros k h Hin. rewrite (same_next _ _ Hs).
    eapply header_agree; [by apply same_objects_agree|by eapply Hb].
Qed.

Lemma view_headers_same_objects w0 w w' to k :
  built w0 w to → same_objects w w' → view_headers w' to k = view_headers w to k.
Proof.
  intros (_ & _ & _ & Hb) Hs. unfold view_headers.
  eapply headers_agree; [by apply same_objects_agree|].
  apply list.Forall_forall. intros h Hin. by eapply Hb.
Qed.

Lemma Header_Clone_Via_eq l hs w :
  Header_Clone (ViaHeader (Some l :: hs)) w =
  (ViaHeader (Some (next w) :: (St_mapM ViaHop_Clone hs (new_ViaHop (hops w l) w).2).1),
   (St_mapM ViaHop_Clone hs (new_ViaHop (hops w l) w).2).2).
Proof.
  cbn [Header_Clone]. unfold St_bind, St_ret. rewrite St_mapM_cons.
  cbn [ViaHop_Clone fst snd].
  change (let '(p', w') := new_ViaHop (hops w l) w in (Some p', w'))
    with (Some (next w), (new_ViaHop (hops w l) w).2).
  cbn [fst snd]. done.
Qed.

(** Copying the Via headers into a request that has none, and setting a
    new branch on the first hop. *)
Lemma CopyHeaders_Via_built from to w0 w l hs rest :
  headers_wf (message.headers from) →
  headers_between 0 (next w0) w0 (message.headers from) →
  built w0 w to →
  GetHeaders to "Via" = [] →
  message.GetHeaders from "Via" = ViaHeader (Some l :: hs) :: rest →
  let r := CopyHeaders "Via" from to w in
  let w' := (St_bind GenerateBranch (set_branch (next w)) r.2).2 in
  ViaHop_of r.1 = (Some (next w), true) ∧
  built w0 w' r.1 ∧
  view_headers w' r.1 "Via" =
    ViaView (Some (ViaHop.withParams (hops w0 l)
                     (Params.Add (ViaHop.Params (hops w0 l)) "branch"
                        (Some (branches (issuedBranches w)))))
             :: map (option_map (hops w0)) hs)
    :: map (view_header w0) rest ∧
  (∀ k, k ≠ "Via" → view_headers w' r.1 k = view_headers w to k) ∧
  issuedIDs w' = issuedIDs w.
Proof.
  intros Hwf Hclosed Hbuilt Hnone Hbucket r w'.
  destruct (CopyHeaders_built "Via" from to w0 w Hwf Hclosed Hbuilt) as [Hbuilt' Hviews].
  destruct (CopyHeaders_Via from to w l hs rest Hwf Hbucket Hnone) as (Hvia & Hcontents & Hnext).
  pose proof (allocates_only_CopyHeaders "Via" from to w) as (_ & Hids & Hbranches).
  pose proof (CopyHeaders_GetHeaders "Via" from to w "Via" Hwf) as Hget.
  rewrite decide_True, Hnone, Hbucket, St_mapM_cons in Hget by done.
  cbn [fst snd app] in Hget.
  assert (r.2 = (St_mapM Header_Clone rest (Header_Clone (ViaHeader (Some l :: hs)) w).2).2)
    as Hr2.
  { subst r. by rewrite CopyHeaders_eq, Hbucket, St_mapM_cons. }
  fold r in Hbuilt', Hviews, Hvia, Hcontents, Hnext, Hget, Hids, Hbranches.
  pose proof Hbuilt as (Ha & Hn & Hwfto & Hb).
  assert (same_objects r.2 (GenerateBranch r.2).2) as Hgen by apply GenerateBranch_same.
  assert (w' = store_ViaHop (next w)
                 (ViaHop.withParams (hops r.2 (next w))
                    (Params.Add (ViaHop.Params (hops r.2 (next w))) "branch"
                       (Some (branches (issuedBranches w)))))
                 (GenerateBranch r.2).2) as Hw'.
  { subst w'. unfold St_bind. cbn. by rewrite Hbranches. }
  destruct (closed_bucket w0 w from "Via" Hclosed Ha Hn) as [Hsrc Hsrcv].
  rewrite Hbucket in Hsrc, Hsrcv.
  apply list.Forall_cons_1 in Hsrc as [Hh1 Hsrc]. cbn [map view_header] in Hsrcv.
  injection Hsrcv as Hl Hhs Hsrcv.
  split; [done|]. split.
  { rewrite Hw'. apply built_store_ViaHop; [|lia]. by eapply built_same_objects. }
  split; [|split].
  - (* the first header and its hops *)
    rewrite Header_Clone_Via_eq in Hget, Hr2. cbn [fst snd] in Hget, Hr2.
    set (wa := (new_ViaHop (hops w l) w).2) in *.
    pose proof (allocates_only_new_ViaHop (hops w l) w) as [Hfa _]. fold wa in Hfa.
    assert (next wa = S (next w)) as Hna by done.
    assert (agree 0 (next w) w wa) as Haa by by apply frame_agree.
    simpl in Hh1. apply list.Forall_cons_1 in Hh1 as [Hl0 Hhs0].
    assert (Forall (hop_between 0 (next wa)) hs) as Hhsa.
    { revert Hhs0. apply Forall_impl. intros. eapply hop_between_weaken; [| |done]; lia. }
    destruct (ViaHops_Clone_spec hs wa Hhsa) as [Hvh Hbh].
    pose proof (allocates_only_mapM ViaHop_Clone hs allocates_only_ViaHop_Clone wa)
      as [Hfb _].
    destruct (St_mapM ViaHop_Clone hs wa) as [hs' wb]. cbn [fst snd] in *.
    pose proof (frame_next _ _ Hfb) as Hnb.
    assert (Forall (header_between 0 (next wb) wb) rest) as Hrestb.
    { destruct (headers_agree 0 (next w) w wb rest) as [Hx _]; [|done|].
      - eapply agree_trans; [done|]. eapply agree_weaken; [| |apply frame_agree, Hfb]; lia.
      - revert Hx. apply Forall_impl. intros. eapply header_between_weaken; [| |done]; lia. }
    destruct (Headers_Clone_spec rest wb Hrestb) as [Hvr Hbr].
    pose proof (allocates_only_mapM Header_Clone rest allocates_only_Header_Clone wb)
      as [Hfc _].
    rewrite <- Hr2 in Hvr, Hbr, Hfc.
    unfold view_headers. rewrite Hget. cbn [map view_header option_map].
    f_equal; [do 2 f_equal; [f_equal|]|].
    + rewrite Hw'. cbn. rewrite fn_lookup_insert, Hcontents.
      by rewrite Hl.
    + rewrite <- Hhs.
      rewrite <- (hops_agree 0 (next w) w wa hs Haa Hhs0), <- Hvh.
      transitivity (map (option_map (hops r.2)) hs').
      * eapply hops_agree; [|exact Hbh]. rewrite Hw'.
        eapply agree_trans; [by apply same_objects_agree|].
        apply agree_store_ViaHop. lia.
      * eapply hops_agree; [|exact Hbh].
        eapply agree_weaken; [| |apply frame_agree, Hfc]; lia.
    + rewrite <- Hsrcv.
      destruct (headers_agree 0 (next w) w wb rest) as [_ <-]; [|done|].
      { eapply agree_trans; [done|]. eapply agree_weaken; [| |apply frame_agree, Hfb]; lia. }
      rewrite <- Hvr. eapply headers_agree; [|exact Hbr]. rewrite Hw'.
      eapply agree_trans; [by apply same_objects_agree|].
      apply agree_store_ViaHop. lia.
  - intros k Hk. rewrite Hw'.
    rewrite (view_headers_store_ViaHop w0) by (by eapply built_same_objects || done).
    rewrite (view_headers_same_objects w0 r.2) by done.
    rewrite Hviews, decide_False by done. apply app_nil_r.
  - rewrite Hw'. cbn. done.
Qed.

(** ** The Route headers of an ACK *)

Lemma reversed_clones_spec n p us lo w :
  n ≤ length (addresses w p) → p < next w → lo ≤ next w →
  Forall (uri_between 0 (next w)) (addresses w p) →
  Forall (uri_between lo (next w)) us →
  map (view_uri (reversed_clones n p us w).2) (reversed_clones n p us w).1 =
    map (view_uri w) us ++ rev (map (view_uri w) (take n (addresses w p))) ∧
  Forall (uri_between lo (next (reversed_clones n p us w).2)) (reversed_clones n p us w).1.
Proof.
  revert us w. induction n as [|i IH]; intros us w Hlen Hp Hlo Hclosed Hus.
  { simpl. by rewrite app_nil_r. }
  cbn [reversed_clones].
  destruct (lookup_lt_is_Some_2 (addresses w p) i) as [u Hu]; [lia|].
  rewrite Hu. unfold St_bind.
  destruct (Uri_Clone_spec u w) as [Hv Hb].
  pose proof (allocates_only_Uri_Clone u w) as [Hf _].
  destruct (Uri_Clone u w) as [u' w1]. cbn [fst snd] in *.
  pose proof (frame_next _ _ Hf) as Hn.
  assert (addresses w1 p = addresses w p) as Haddr by by apply (frame_addresses _ _ Hf).
  destruct (IH (us ++ [u']) w1) as [IHv IHb]; try lia.
  - rewrite Haddr. lia.
  - rewrite Haddr. revert Hclosed. apply Forall_impl. intros.
    eapply uri_between_weaken; [| |done]; lia.
  - apply Forall_app. split.
    + revert Hus. apply Forall_impl. intros. eapply uri_between_weaken; [| |done]; lia.
    + constructor; [|done]. eapply uri_between_weaken; [| |done]; lia.
  - split; [|done]. rewrite IHv, Haddr, map_app. cbn [map].
    rewrite (take_S_r _ _ _ Hu), map_app, rev_app_distr. cbn [map rev app].
    rewrite <- app_assoc. cbn [app]. f_equal.
    + eapply view_uris_agree; [apply frame_agree, Hf|].
      revert Hus. apply Forall_impl. intros. eapply uri_between_weaken; [| |done]; lia.
    + f_equal; [done|]. f_equal.
      eapply view_uris_agree; [apply frame_agree, Hf|].
      apply Forall_take. done.
Qed.

Lemma routes_of_record_routes_built hdrs ack w0 w :
  Forall is_RecordRouteHeader hdrs →
  Forall (header_between 0 (next w0) w0) hdrs →
  built w0 w ack →
  ∃ ack' w',
    routes_of_record_routes hdrs ack w = Ok (ack', w') ∧
    built w0 w' ack' ∧
    (∀ k, view_headers w' ack' k =
          view_headers w ack k ++
          (if decide (k = "Route")
           then map route_of_record_route (map (view_header w0) hdrs) else [])) ∧
    issuedIDs w' = issuedIDs w.
Proof.
  intros Hall. revert ack w.
  induction Hall as [|h hdrs Hh _ IH]; intros ack w Hclosed Hbuilt.
  { exists ack, w. split; [done|]. split; [done|]. split; [|done].
    intros k. case_decide; by rewrite app_nil_r. }
  destruct h as [|?|p| | | | | |]; try done. cbn [routes_of_record_routes].
  apply list.Forall_cons_1 in Hclosed as [[Hp Hcl] Hclosed].
  pose proof Hbuilt as (Ha & Hn & Hwf & Hb).
  assert (addresses w p = addresses w0 p) as Haddr by (apply (agree_addresses _ _ _ _ Ha); lia).
  rewrite M_bind_lift.
  destruct (reversed_clones_spec (length (addresses w p)) p [] (next w) w) as [Hv Hfresh];
    [lia..| |done|].
  { rewrite Haddr. revert Hcl. apply Forall_impl. intros.
    eapply uri_between_weaken; [| |done]; lia. }
  pose proof (allocates_only_reversed_clones (length (addresses w p)) p [] w)
    as (Hf1 & Hi1 & _).
  destruct (reversed_clones (length (addresses w p)) p [] w) as [us w1].
  cbn [fst snd] in *. rewrite M_bind_lift.
  pose proof (allocates_only_new_addresses us w1) as (Hf2 & Hi2 & _).
  assert (addresses (new_addresses us w1).2 (next w1) = us) as Hnew
    by apply fn_lookup_insert.
  assert (next (new_addresses us w1).2 = S (next w1)) as Hnext by done.
  assert (∀ u, view_uri (new_addresses us w1).2 u = view_uri w1 u) as Hsame by by intros [].
  assert ((new_addresses us w1).1 = next w1) as -> by done.
  destruct (new_addresses us w1) as [route w2]. cbn [fst snd] in *.
  pose proof (frame_next _ _ Hf1) as Hn1.
  assert (frame w w2) as Hf by eauto using frame_trans.
  assert (built w0 w2 (AppendHeader ack (RouteHeader (next w1)))) as Hbuilt2.
  { apply built_AppendHeader; [by eapply built_frame|].
    simpl. split; [lia|]. rewrite Hnew. revert Hfresh. apply Forall_impl. intros.
    eapply uri_between_weaken; [| |done]; lia. }
  destruct (IH _ _ Hclosed Hbuilt2) as (ack' & w' & Hrun & Hbuilt' & Hviews & Hi3).
  exists ack', w'. split; [done|]. split; [done|]. split; [|congruence].
  intros k. rewrite Hviews, view_headers_AppendHeader.
  rewrite (view_headers_frame w0 w w2 ack k Hbuilt Hf), <- app_assoc. f_equal.
  cbn [Name map view_header route_of_record_route].
  repeat case_decide; try congruence; try done.
  cbn [app]. do 2 f_equal. rewrite Hnew, (map_ext _ _ Hsame), Hv. cbn [map app].
  rewrite firstn_all, Haddr. f_equal.
  eapply view_uris_agree; [done|]. done.
Qed.

Lemma routes_of_record_routes_panics hdrs ack w :
  ¬ Forall is_RecordRouteHeader hdrs →
  routes_of_record_routes hdrs ack w = Panic InterfaceConversion.
Proof.
  revert ack w. induction hdrs as [|h hdrs IH]; intros ack w Hnot.
  { by destruct Hnot. }
  destruct h as [|?|p| | | | | |]; try done. cbn [routes_of_record_routes].
  rewrite !M_bind_lift. apply IH. intros Hall. apply Hnot. by constructor.
Qed.

(** The first steps of [NewAckRequest], up to the new branch. *)
Ltac ack_steps Hwf Hclosed Hvia :=
  unfold NewAckRequest; rewrite M_bind_lift; cbn [fst snd];
  rewrite M_bind_lift; new_request_built;
  rewrite M_bind_lift;
  lazymatch goal with
  | Hb : built ?w0 ?w ?t, Hv : ∀ k, view_headers ?w ?t k = [] |-
      context [CopyHeaders "Via" ?f ?t ?w] =>
      let Hr := fresh "Hstep" in
      let Hb' := fresh "Hbuilt" in
      let Hv1 := fresh "Hvia" in
      let Hv2 := fresh "Hview" in
      let Hid := fresh "Hids" in
      pose proof (CopyHeaders_Via_built f t w0 w _ _ _ Hwf Hclosed Hb
                    (view_headers_nil w t "Via" (Hv "Via")) Hvia) as Hr;
      cbv zeta in Hr;
      destruct (CopyHeaders "Via" f t w) as [? ?];
      cbn [fst snd] in Hr |- *;
      destruct Hr as (-> & Hb' & Hv1 & Hv2 & Hid)
  end;
  rewrite M_bind_lift;
  lazymatch goal with
  | |- context [St_bind GenerateBranch ?k ?w] =>
      destruct (St_bind GenerateBranch k w) as [[] ?]
  end;
  cbn [fst snd] in *.

(** The Route headers of an ACK: those of the INVITE when it has some,
    else one for each Record-Route header of the response. *)
Lemma NewAckRequest_route_step inv res r0 w0 w :
  headers_wf (message.headers (msg inv)) →
  headers_between 0 (next w0) w0 (message.headers (msg inv)) →
  headers_between 0 (next w0) w0 (message.headers (resp_msg res)) →
  built w0 w r0 →
  (GetHeaders inv "Route" = [] →
   Forall is_RecordRouteHeader (message.GetHeaders (resp_msg res) "Record-Route")) →
  ∃ r1 w1,
    (if bool_decide (0 < length (GetHeaders inv "Route"))
     then lift (CopyHeaders "Route" (msg inv) r0)
     else routes_of_record_routes (message.GetHeaders (resp_msg res) "Record-Route") r0) w =
    Ok (r1, w1) ∧
    built w0 w1 r1 ∧
    ∀ k, view_headers w1 r1 k =
         view_headers w r0 k ++
         (if decide (k = "Route")
          then match GetHeaders inv "Route" with
               | [] => map route_of_record_route
                         (map (view_header w0)
                            (message.GetHeaders (resp_msg res) "Record-Route"))
               | _ => view_headers w0 inv "Route"
               end
          else []).
Proof.
  intros Hwf Hclosed Hclosedr Hbuilt Hrr.
  destruct (GetHeaders inv "Route") as [|h rest] eqn:Hroute.
  - rewrite bool_decide_eq_false_2 by (simpl; lia).
    destruct (routes_of_record_routes_built
                (message.GetHeaders (resp_msg res) "Record-Route") r0 w0 w)
      as (r1 & w1 & Hrun & Hbuilt1 & Hviews & _); [by apply Hrr| |done|].
    { apply list.Forall_forall. intros h Hin. by eapply Hclosedr. }
    by exists r1, w1.
  - rewrite bool_decide_eq_true_2 by (simpl; lia).
    destruct (CopyHeaders_built "Route" (msg inv) r0 w0 w Hwf Hclosed Hbuilt)
      as [Hbuilt1 Hviews].
    unfold lift. destruct (CopyHeaders "Route" (msg inv) r0 w) as [r1 w1].
    exists r1, w1. split; [done|]. split; [done|].
    intros k. rewrite Hviews. unfold view_headers, GetHeaders in *. by rewrite Hroute.
Qed.

Lemma NewAckRequest_views ackID inv res fields w l hs vrest lc crest :
  headers_wf (message.headers (msg inv)) →
  headers_wf (message.headers (resp_msg res)) →
  headers_between 0 (next w) w (message.headers (msg inv)) →
  headers_between 0 (next w) w (message.headers (resp_msg res)) →
  message.GetHeaders (msg inv) "Via" = ViaHeader (Some l :: hs) :: vrest →
  message.GetHeaders (msg inv) "CSeq" = CSeqPtr lc :: crest →
  (GetHeaders inv "Route" = [] →
   Forall is_RecordRouteHeader (message.GetHeaders (resp_msg res) "Record-Route")) →
  ∃ ack w',
    NewAckRequest ackID inv res fields w = Ok (ack, w') ∧
    built w w' ack ∧
    view_headers w' ack "Via" =
      ViaView (Some (ViaHop.withParams (hops w l)
                       (Params.Add (ViaHop.Params (hops w l)) "branch"
                          (Some (branches (issuedBranches w)))))
               :: map (option_map (hops w)) hs)
      :: map (view_header w) vrest ∧
    view_headers w' ack "Route" =
      match GetHeaders inv "Route" with
      | [] => map route_of_record_route
                (map (view_header w) (message.GetHeaders (resp_msg res) "Record-Route"))
      | _ => view_headers w inv "Route"
      end ∧
    view_headers w' ack "From" = view_headers w inv "From" ∧
    view_headers w' ack "To" = map (view_header w) (message.GetHeaders (resp_msg res) "To") ∧
    view_headers w' ack "Call-ID" = view_headers w inv "Call-ID" ∧
    view_headers w' ack "CSeq" =
      CSeqView (CSeq.mk (CSeq.SeqNo (cseqs w lc)) ACK) :: map (view_header w) crest ∧
    ∀ k, k ∉ ["Via"; "Route"; "From"; "To"; "Call-ID"; "CSeq"] → view_headers w' ack k = [].
Proof.
  intros Hwf Hwfr Hclosed Hclosedr Hvia Hcseq Hrr.
  ack_steps Hwf Hclosed Hvia.
  destruct (NewAckRequest_route_step inv res r0 w w2 Hwf Hclosed Hclosedr Hbuilt0 Hrr)
    as (r1 & w3 & Hroute & Hbuilt1 & Hview1).
  unfold M_bind at 1. rewrite Hroute.
  copy_step_built Hwf Hclosed. copy_step_built Hwfr Hclosedr. copy_step_built Hwf Hclosed.
  assert (GetHeaders r4 "CSeq" = []) as Hnone.
  { apply (view_headers_nil w6). rewrite Hview4, Hview3, Hview2, Hview1, Hview0, Hview by done.
    by decide_names. }
  destruct (CopyHeaders_CSeq_built (msg inv) r4 w w6 lc crest ACK Hwf Hclosed Hbuilt4
              Hnone Hcseq) as (Hcseq' & Hbuilt5 & Hview5 & Hview6).
  rewrite M_bind_lift.
  destruct (CopyHeaders "CSeq" (msg inv) r4 w6) as [ack w7]. cbn [fst snd] in *.
  rewrite Hcseq', M_bind_lift.
  eexists ack, _. split; [reflexivity|]. split; [done|].
  split.
  { rewrite Hview6, Hview4, Hview3, Hview2, Hview1, Hvia0, Hbranches by done.
    by decide_names. }
  split; [rewrite Hview6, Hview4, Hview3, Hview2, Hview1, Hview0, Hview by done;
          by decide_names|].
  split; [rewrite Hview6, Hview4, Hview3, Hview2, Hview1, Hview0, Hview by done;
          by decide_names|].
  split; [rewrite Hview6, Hview4, Hview3, Hview2, Hview1, Hview0, Hview by done;
          by decide_names|].
  split; [rewrite Hview6, Hview4, Hview3, Hview2, Hview1, Hview0, Hview by done;
          by decide_names|].
  split; [done|].
  intros k Hk. rewrite !not_elem_of_cons in Hk. destruct Hk as (?&?&?&?&?&?&_).
  rewrite Hview6, Hview4, Hview3, Hview2, Hview1, Hview0, Hview by done.
  by decide_names.
Qed.

(** Without a first Via hop [NewAckRequest] goes through a nil pointer. *)
Lemma NewAckRequest_panics_Via ackID inv res fields w :
  headers_wf (message.headers (msg inv)) →
  headers_between 0 (next w) w (message.headers (msg inv)) →
  (ViaHop_of inv).1 = None →
  NewAckRequest ackID inv res fields w = Panic NilDereference.
Proof.
  intros Hwf Hclosed Hnone.
  unfold NewAckRequest. rewrite M_bind_lift. cbn [fst snd].
  rewrite M_bind_lift. new_request_built. copy_step_built Hwf Hclosed.
  pose proof (ViaHop_of_view w1 r0) as Hlast.
  rewrite Hview0, Hview, decide_True in Hlast by done. cbn [app] in Hlast.
  pose proof (ViaHop_of_view w inv) as Hfirst. unfold view_headers, GetHeaders in Hfirst.
  destruct (map (view_header w) (message.GetHeaders (msg inv) "Via"))
    as [|[[|[] ?]| | | | | | | |] ?];
    try (by destruct (ViaHop_of r0) as [[] ?]; simplify_eq/=).
  destruct Hfirst as [p Hp]. by rewrite Hp in Hnone.
Qed.

(** With a Via hop, no Route header in the INVITE, and a header under
    Record-Route that is not a Record-Route object, the type assertion of
    the loop fails. *)
Lemma NewAckRequest_panics_RecordRoute ackID inv res fields w l :
  headers_wf (message.headers (msg inv)) →
  headers_between 0 (next w) w (message.headers (msg inv)) →
  ViaHop_of inv = (Some l, true) →
  GetHeaders inv "Route" = [] →
  ¬ Forall is_RecordRouteHeader (message.GetHeaders (resp_msg res) "Record-Route") →
  NewAckRequest ackID inv res fields w = Panic InterfaceConversion.
Proof.
  intros Hwf Hclosed Hhop Hroute Hnot.
  destruct (ViaHop_of_Some _ _ Hhop) as (hs & vrest & Hvia).
  ack_steps Hwf Hclosed Hvia.
  unfold M_bind at 1. rewrite Hroute, bool_decide_eq_false_2 by (simpl; lia).
  by rewrite routes_of_record_routes_panics.
Qed.

(** With a Via hop and Route headers, but without a CSeq header, the
    constructor goes through a nil pointer at the end. *)
Lemma NewAckRequest_panics_CSeq ackID inv res fields w l :
  headers_wf (message.headers (msg inv)) →
  headers_wf (message.headers (resp_msg res)) →
  headers_between 0 (next w) w (message.headers (msg inv)) →
  headers_between 0 (next w) w (message.headers (resp_msg res)) →
  ViaHop_of inv = (Some l, true) →
  (GetHeaders inv "Route" = [] →
   Forall is_RecordRouteHeader (message.GetHeaders (resp_msg res) "Record-Route")) →
  CSeq_of inv = (None, false) →
  NewAckRequest ackID inv res fields w = Panic NilDereference.
Proof.
  intros Hwf Hwfr Hclosed Hclosedr Hhop Hrr Hcseq.
  destruct (ViaHop_of_Some _ _ Hhop) as (hs & vrest & Hvia).
  ack_steps Hwf Hclosed Hvia.
  destruct (NewAckRequest_route_step inv res r0 w w2 Hwf Hclosed Hclosedr Hbuilt0 Hrr)
    as (r1 & w3 & Hroute & Hbuilt1 & Hview1).
  unfold M_bind at 1. rewrite Hroute.
  copy_step_built Hwf Hclosed. copy_step_built Hwfr Hclosedr.
  copy_step_built Hwf Hclosed. copy_step_built Hwf Hclosed.
  pose proof (CSeq_of_view w7 r5) as Hlast.
  rewrite Hview5, Hview4, Hview3, Hview2, Hview1, Hview0, Hview in Hlast by done.
  revert Hlast. decide_names. intros Hlast.
  pose proof (CSeq_of_view w inv) as Hfirst. unfold view_headers, GetHeaders in Hfirst.
  destruct (map (view_header w) (message.GetHeaders (msg inv) "CSeq")) as [|[] ?];
    try (by rewrite Hlast); by rewrite Hcseq in Hfirst.
Qed.

(** ** Copies of a whole request *)

Lemma view_header_same_objects w w' h :
  same_objects w w' → view_header w' h = view_header w h.
Proof.
  intros [Hu Hh Ha Hc Hct Ho _].
  assert (∀ u, view_uri w' u = view_uri w u) as Huri by (intros []; simpl; congruence).
  destruct h; simpl; rewrite ?Hh, ?Ha, ?Hc, ?Hct, ?Ho; try done.
  - by rewrite (map_ext _ _ Huri).
  - by rewrite (map_ext _ _ Huri).
  - by rewrite Huri.
Qed.

Lemma header_between_same_objects lo hi w w' h :
  same_objects w w' → header_between lo hi w h → header_between lo hi w' h.
Proof. intros [Hu Hh Ha Hc Hct Ho _]. destruct h; simpl; by rewrite ?Ha, ?Hct. Qed.

Lemma map_filter_view w k l :
  map (view_header w) (filter (λ h, Name h = k) l) =
  filter (λ v, view_name v = k) (map (view_header w) l).
Proof.
  induction l as [|h l IH]; [done|].
  cbn [map]. rewrite !filter_cons, Name_view. case_decide; [|done].
  cbn [map]. by rewrite IH.
Qed.

Lemma concat_map_single {A} (k : string) (x : list A) (l : list string) :
  NoDup l →
  concat (map (λ n, if decide (k = n) then x else []) l) = if decide (k ∈ l) then x else [].
Proof.
  induction 1 as [|n l Hn Hl IH]; [done|].
  cbn [map concat]. rewrite IH.
  destruct (decide (k = n)) as [->|Hne].
  - rewrite decide_False by done. rewrite decide_True by apply list_elem_of_here.
    apply app_nil_r.
  - cbn [app]. destruct (decide (k ∈ l)) as [Hin|Hnin].
    + by rewrite decide_True by by apply list_elem_of_further.
    + rewrite decide_False; [done|]. by intros [?|?]%elem_of_cons.
Qed.

(** The headers of a name are those of that name in the render sequence. *)
Lemma filter_Headers hs k :
  headers_ok hs → filter (λ h, Name h = k) (headers.Headers hs) = headers.GetHeaders hs k.
Proof.
  intros (Hwf & Hnodup & Hdom). unfold headers.Headers.
  assert (∀ order,
            filter (λ h, Name h = k) (concat (map (headers.GetHeaders hs) order)) =
            concat (map (λ n, if decide (k = n) then headers.GetHeaders hs k else []) order))
    as Hfilter.
  { induction order as [|n order IH]; [done|].
    cbn [map concat]. rewrite list.filter_app, IH. f_equal.
    rewrite (filter_Name n k) by by apply headers_wf_bucket.
    by case_decide; subst. }
  rewrite Hfilter, concat_map_single by done.
  case_decide as Hin; [done|].
  unfold headers.GetHeaders. rewrite Hdom in Hin.
  by destruct (headers.headers hs !! k); [destruct Hin|].
Qed.

Lemma elem_of_Headers hs h :
  h ∈ headers.Headers hs → ∃ k, h ∈ headers.GetHeaders hs k.
Proof.
  unfold headers.Headers. generalize (headers.headerOrder hs). intros order.
  induction order as [|n order IH]; cbn [map concat].
  - by intros ?%elem_of_nil.
  - intros [Hin|Hin]%elem_of_app; [by exists n|by apply IH].
Qed.

(** The request that [NewRequest] builds from cloned parts. *)
Lemma NewRequest_views messID method recipient sipVersion hdrs body fields w lo hi :
  let r := NewRequest messID method recipient sipVersion hdrs body fields w in
  same_objects w r.2 ∧
  (∀ k, view_headers r.2 r.1 k = map (view_header w) (filter (λ h, Name h = k) hdrs)) ∧
  view_uri r.2 (Recipient r.1) = view_uri w recipient ∧
  (Forall (header_between lo hi w) hdrs →
   headers_between lo hi r.2 (message.headers (msg r.1))).
Proof.
  intros r.
  pose proof (NewRequest_same messID method recipient sipVersion hdrs body fields w)
    as [Hs _].
  pose proof (λ k, NewRequest_GetHeaders messID method recipient sipVersion hdrs body fields w k)
    as Hget.
  pose proof (NewRequest_recipient messID method recipient sipVersion hdrs body fields w)
    as Hrcp.
  fold r in Hs, Hget, Hrcp.
  split; [done|]. split; [|split].
  - intros k. unfold view_headers. rewrite Hget. apply map_ext.
    intros h. by apply view_header_same_objects.
  - rewrite Hrcp. destruct recipient; simpl; [|done]. by rewrite (same_uris _ _ Hs).
  - intros Hall k h Hin. change (h ∈ GetHeaders r.1 k) in Hin. rewrite Hget in Hin.
    apply list_elem_of_filter in Hin as [_ Hin].
    rewrite list.Forall_forall in Hall. eapply header_between_same_objects; eauto.
Qed.

Lemma is_copy_of_NewRequest r w w2 u' hdrs' messID fields :
  headers_ok (message.headers (msg r)) →
  frame w w2 →
  view_uri w2 u' = view_uri w (Recipient r) →
  uri_between (next w) (next w2) u' →
  map (view_header w2) hdrs' = map (view_header w) (Headers r) →
  Forall (header_between (next w) (next w2) w2) hdrs' →
  is_copy_of w r
    (NewRequest messID (Method r) u' (SipVersion r) hdrs' (Body r) fields w2).2
    (NewRequest messID (Method r) u' (SipVersion r) hdrs' (Body r) fields w2).1.
Proof.
  intros Hok Hf Hu Hub Hv Hb.
  destruct (NewRequest_result messID (Method r) u' (SipVersion r) hdrs' (Body r) fields w2)
    as (Hm & Hr & Hsv & Hsrc & Hdest & _ & Hbody & _).
  destruct (NewRequest_views messID (Method r) u' (SipVersion r) hdrs' (Body r) fields w2
              (next w) (next w2)) as (Hs & Hviews & Hrcp & Hbetween).
  destruct (NewRequest messID (Method r) u' (SipVersion r) hdrs' (Body r) fields w2)
    as [r' w3]. cbn [fst snd] in *.
  split; [done|]. split; [done|]. split; [done|]. split; [done|]. split; [done|].
  split; [congruence|]. split; [|split].
  - intros k _. rewrite Hviews, map_filter_view, Hv, <- map_filter_view.
    unfold view_headers, GetHeaders, message.GetHeaders, Headers.
    by rewrite filter_Headers.
  - rewrite (same_next _ _ Hs). split; [by apply Hbetween|]. by rewrite Hr.
  - eapply frame_trans; [done|]. by apply same_objects_frame.
Qed.

Lemma closed_Headers r w w1 :
  request_between 0 (next w) w r → frame w w1 →
  Forall (header_between 0 (next w1) w1) (Headers r) ∧
  map (view_header w1) (Headers r) = map (view_header w) (Headers r).
Proof.
  intros [Hclosed _] Hf.
  destruct (headers_agree 0 (next w) w w1 (Headers r) (frame_agree _ _ Hf)) as [Hb Hv].
  { apply list.Forall_forall. intros h [k Hin]%elem_of_Headers. by eapply Hclosed. }
  split; [|done]. revert Hb. apply Forall_impl. intros.
  eapply header_between_weaken; [| |done]; [lia|apply (frame_next _ _ Hf)].
Qed.

(** The recipient first, then the headers: [Clone] and [WithFields]. *)
Lemma is_copy_of_recipient_first r w messID fields :
  headers_ok (message.headers (msg r)) →
  request_between 0 (next w) w r →
  let m := (let* u := Uri_Clone (Recipient r) in
            let* hdrs := headers.CloneHeaders (message.headers (msg r)) in
            NewRequest messID (Method r) u (SipVersion r) hdrs (Body r) fields)%st in
  is_copy_of w r (m w).2 (m w).1.
Proof.
  intros Hok Hclosed m. subst m. unfold St_bind, headers.CloneHeaders.
  destruct (Uri_Clone_spec (Recipient r) w) as [Hu Hub].
  pose proof (allocates_only_Uri_Clone (Recipient r) w) as [Hf1 _].
  destruct (Uri_Clone (Recipient r) w) as [u' w1]. cbn [fst snd] in *.
  destruct (closed_Headers r w w1 Hclosed Hf1) as [Hsrc Hsrcv].
  destruct (Headers_Clone_spec (Headers r) w1 Hsrc) as [Hv Hb].
  pose proof (allocates_only_mapM Header_Clone (Headers r) allocates_only_Header_Clone w1)
    as [Hf2 _].
  change (headers.Headers (message.headers (msg r))) with (Headers r).
  destruct (St_mapM Header_Clone (Headers r) w1) as [hdrs' w2]. cbn [fst snd] in *.
  pose proof (frame_next _ _ Hf1). pose proof (frame_next _ _ Hf2).
  apply is_copy_of_NewRequest; try done.
  - eauto using frame_trans.
  - rewrite <- Hu. eapply view_uri_agree; [|exact Hub].
    eapply agree_weaken; [| |apply frame_agree, Hf2]; lia.
  - eapply uri_between_weaken; [| |done]; lia.
  - congruence.
  - revert Hb. apply Forall_impl. intros. eapply header_between_weaken; [| |done]; lia.
Qed.

(** The headers first, then the recipient: [CopyRequest]. *)
Lemma is_copy_of_headers_first r w messID fields :
  headers_ok (message.headers (msg r)) →
  request_between 0 (next w) w r →
  let m := (let* hdrs := St_mapM Header_Clone (Headers r) in
            let* u := Uri_Clone (Recipient r) in
            NewRequest messID (Method r) u (SipVersion r) hdrs (Body r) fields)%st in
  is_copy_of w r (m w).2 (m w).1.
Proof.
  intros Hok Hclosed m. subst m. unfold St_bind.
  destruct (closed_Headers r w w Hclosed (frame_refl w)) as [Hsrc _].
  destruct (Headers_Clone_spec (Headers r) w Hsrc) as [Hv Hb].
  pose proof (allocates_only_mapM Header_Clone (Headers r) allocates_only_Header_Clone w)
    as [Hf1 _].
  destruct (St_mapM Header_Clone (Headers r) w) as [hdrs' w1]. cbn [fst snd] in *.
  destruct (Uri_Clone_spec (Recipient r) w1) as [Hu Hub].
  pose proof (allocates_only_Uri_Clone (Recipient r) w1) as [Hf2 _].
  destruct (Uri_Clone (Recipient r) w1) as [u' w2]. cbn [fst snd] in *.
  pose proof (frame_next _ _ Hf1). pose proof (frame_next _ _ Hf2).
  destruct (headers_agree (next w) (next w1) w1 w2 hdrs') as [Hb' Hv']; [|done|].
  { eapply agree_weaken; [| |apply frame_agree, Hf2]; lia. }
  apply is_copy_of_NewRequest; try done.
  - eauto using frame_trans.
  - rewrite Hu. eapply view_uri_agree; [apply frame_agree, Hf1|]. apply Hclosed.
  - eapply uri_between_weaken; [| |done]; lia.
  - congruence.
  - revert Hb'. apply Forall_impl. intros. eapply header_between_weaken; [| |done]; lia.
Qed.

(** ** Header collections built by [newHeaders] and [AppendHeader] *)

Lemma headers_ok_empty : headers_ok headers.empty.
Proof.
  split; [apply headers_wf_empty|]. split; [constructor|].
  intros k. cbn. rewrite lookup_empty. split; [by intros ?%elem_of_nil|by intros []].
Qed.

Lemma headers_ok_AppendHeader hs h : headers_ok hs → headers_ok (headers.AppendHeader hs h).
Proof.
  intros (Hwf & Hnodup & Hdom).
  split; [by apply headers_wf_AppendHeader|].
  unfold headers.AppendHeader.
  destruct (headers.headers hs !! Name h) as [bucket|] eqn:Hbucket; cbn.
  - split; [done|]. intros k. rewrite Hdom.
    destruct (decide (k = Name h)) as [->|Hne].
    + rewrite lookup_insert_eq, Hbucket. split; by eauto.
    + by rewrite lookup_insert_ne.
  - assert (Name h ∉ headers.headerOrder hs) as Hnew.
    { rewrite Hdom, Hbucket. by intros []. }
    split.
    + apply list.NoDup_app. split; [done|]. split; [|apply list.NoDup_singleton].
      intros k Hk ->%list_elem_of_singleton. done.
    + intros k. rewrite elem_of_app, list_elem_of_singleton, Hdom.
      destruct (decide (k = Name h)) as [->|Hne].
      * rewrite lookup_insert_eq. split; by eauto.
      * rewrite lookup_insert_ne by done. split; [by intros [|]|by left].
Qed.

Lemma headers_ok_newHeaders hdrs : headers_ok (headers.newHeaders hdrs).
Proof.
  unfold headers.newHeaders. generalize headers_ok_empty. generalize headers.empty.
  induction hdrs as [|h hdrs IH]; intros hs Hok; [done|].
  simpl. by apply IH, headers_ok_AppendHeader.
Qed.

Lemma headers_between_newHeaders lo hi w hdrs :
  Forall (header_between lo hi w) hdrs →
  headers_between lo hi w (headers.newHeaders hdrs).
Proof.
  intros Hall k h Hin. rewrite GetHeaders_newHeaders in Hin.
  apply list_elem_of_filter in Hin as [_ Hin].
  rewrite list.Forall_forall in Hall. by apply Hall.
Qed.

(** ** What the derived requests are made of *)

Lemma CSeq_of_cases req :
  (∃ lc rest, message.GetHeaders (msg req) "CSeq" = CSeqPtr lc :: rest ∧
              CSeq_of req = (Some lc, true)) ∨
  CSeq_of req = (None, false).
Proof.
  unfold CSeq_of, headers.CSeq, message.GetHeaders.
  destruct (headers.GetHeaders _ "CSeq") as [|[] rest]; eauto.
Qed.

Lemma ViaHop_of_cases req :
  (∃ l hs rest, message.GetHeaders (msg req) "Via" = ViaHeader (Some l :: hs) :: rest ∧
                ViaHop_of req = (Some l, true)) ∨
  (ViaHop_of req).1 = None.
Proof.
  unfold ViaHop_of, headers.ViaHop, message.GetHeaders.
  destruct (headers.GetHeaders _ "Via") as [|[[|[] ?]| | | | | | | |] rest]; eauto 10.
Qed.

Lemma Forall_is_RecordRouteHeader_dec hdrs :
  Forall is_RecordRouteHeader hdrs ∨ ¬ Forall is_RecordRouteHeader hdrs.
Proof.
  induction hdrs as [|h hdrs [IH|IH]].
  - left. constructor.
  - destruct h; try (right; by intros [? _]%list.Forall_cons_1). left. by constructor.
  - right. by intros [_ ?]%list.Forall_cons_1.
Qed.

Lemma built_frame_of w0 w to : built w0 w to → frame w0 w.
Proof. intros ([] & Hn & _). constructor; intros; auto with lia. Qed.

(** X6: [NewCancelRequest] returns a request if and only if the request
    to cancel has a CSeq header, and goes through a nil pointer if it has
    none: the comma-ok flag of [CSeq] is discarded. *)
Theorem NewCancelRequest_returns_iff cancelID req fields w :
  headers_wf (message.headers (msg req)) →
  headers_between 0 (next w) w (message.headers (msg req)) →
  ((∃ cancel w', NewCancelRequest cancelID req fields w = Ok (cancel, w')) ↔
   (CSeq_of req).2 = true) ∧
  ((CSeq_of req).2 = false →
   NewCancelRequest cancelID req fields w = Panic NilDereference).
Proof.
  intros Hwf Hclosed.
  destruct (CSeq_of_cases req) as [(lc & rest & Hbucket & Hcseq)|Hcseq]; rewrite Hcseq.
  - destruct (NewCancelRequest_views cancelID req fields w lc rest Hwf Hclosed Hbucket)
      as (cancel & w' & Hrun & _).
    split; [|done]. split; [done|]. by exists cancel, w'.
  - rewrite (NewCancelRequest_panics cancelID req fields w Hwf Hclosed Hcseq).
    split; [|done]. split; [by intros (? & ? & ?)|done].
Qed.

(** X7: [NewAckRequest] returns a request if and only if the INVITE has a
    first Via hop that is not nil and a CSeq header and, when the INVITE has
    no Route header, every header under Record-Route in the response is a
    Record-Route object.  Otherwise it panics: on a nil pointer for the hop
    and the CSeq header, on the type assertion for the Record-Route
    headers. *)
Theorem NewAckRequest_returns_iff ackID inv res fields w :
  headers_wf (message.headers (msg inv)) →
  headers_wf (message.headers (resp_msg res)) →
  headers_between 0 (next w) w (message.headers (msg inv)) →
  headers_between 0 (next w) w (message.headers (resp_msg res)) →
  ((∃ ack w', NewAckRequest ackID inv res fields w = Ok (ack, w')) ↔
   is_Some (ViaHop_of inv).1 ∧
   (CSeq_of inv).2 = true ∧
   (GetHeaders inv "Route" = [] →
    Forall is_RecordRouteHeader (message.GetHeaders (resp_msg res) "Record-Route"))) ∧
  ((ViaHop_of inv).1 = None →
   NewAckRequest ackID inv res fields w = Panic NilDereference) ∧
  (is_Some (ViaHop_of inv).1 → GetHeaders inv "Route" = [] →
   ¬ Forall is_RecordRouteHeader (message.GetHeaders (resp_msg res) "Record-Route") →
   NewAckRequest ackID inv res fields w = Panic InterfaceConversion).
Proof.
  intros Hwf Hwfr Hclosed Hclosedr.
  destruct (ViaHop_of_cases inv) as [(l & hs & vrest & Hvia & Hhop)|Hhop].
  2:{ rewrite (NewAckRequest_panics_Via ackID inv res fields w Hwf Hclosed Hhop), Hhop.
      split; [|split; [done|by intros []]].
      split; [by intros (? & ? & ?)|by intros [[] _]]. }
  rewrite Hhop. cbn [fst].
  split; [|split; [done|]].
  2:{ intros _ Hroute Hnot. by eapply NewAckRequest_panics_RecordRoute. }
  destruct (Forall_is_RecordRouteHeader_dec (message.GetHeaders (resp_msg res) "Record-Route"))
    as [Hall|Hnot].
  2:{ destruct (GetHeaders inv "Route") as [|h rest] eqn:Hroute.
      - rewrite (NewAckRequest_panics_RecordRoute ackID inv res fields w l) by done.
        split; [by intros (? & ? & ?)|]. intros (_ & _ & Hrr). destruct Hnot. by apply Hrr.
      - destruct (CSeq_of_cases inv) as [(lc & crest & Hbucket & Hcseq)|Hcseq];
          rewrite Hcseq.
        + destruct (NewAckRequest_views ackID inv res fields w l hs vrest lc crest)
            as (ack & w' & Hrun & _); try done; [by rewrite Hroute|].
          split; [done|]. by exists ack, w'.
        + rewrite (NewAckRequest_panics_CSeq ackID inv res fields w l) by
            (done || by rewrite Hroute).
          split; [by intros (? & ? & ?)|by intros (_ & ? & _)]. }
  destruct (CSeq_of_cases inv) as [(lc & crest & Hbucket & Hcseq)|Hcseq]; rewrite Hcseq.
  - destruct (NewAckRequest_views ackID inv res fields w l hs vrest lc crest)
      as (ack & w' & Hrun & _); try done.
    split; [done|]. by exists ack, w'.
  - rewrite (NewAckRequest_panics_CSeq ackID inv res fields w l) by done.
    split; [by intros (? & ? & ?)|by intros (_ & ? & _)].
Qed.

Lemma NewCancelRequest_Ok cancelID req fields w cancel w' :
  headers_wf (message.headers (msg req)) →
  headers_between 0 (next w) w (message.headers (msg req)) →
  NewCancelRequest cancelID req fields w = Ok (cancel, w') →
  ∃ lc rest, message.GetHeaders (msg req) "CSeq" = CSeqPtr lc :: rest.
Proof.
  intros Hwf Hclosed Hrun.
  destruct (CSeq_of_cases req) as [(lc & rest & Hbucket & _)|Hcseq]; [by eauto|].
  by rewrite (NewCancelRequest_panics cancelID req fields w Hwf Hclosed Hcseq) in Hrun.
Qed.

Lemma NewAckRequest_Ok ackID inv res fields w ack w' :
  headers_wf (message.headers (msg inv)) →
  headers_wf (message.headers (resp_msg res)) →
  headers_between 0 (next w) w (message.headers (msg inv)) →
  headers_between 0 (next w) w (message.headers (resp_msg res)) →
  NewAckRequest ackID inv res fields w = Ok (ack, w') →
  ∃ l hs vrest lc crest,
    message.GetHeaders (msg inv) "Via" = ViaHeader (Some l :: hs) :: vrest ∧
    message.GetHeaders (msg inv) "CSeq" = CSeqPtr lc :: crest ∧
    (GetHeaders inv "Route" = [] →
     Forall is_RecordRouteHeader (message.GetHeaders (resp_msg res) "Record-Route")).
Proof.
  intros Hwf Hwfr Hclosed Hclosedr Hrun.
  destruct (ViaHop_of_cases inv) as [(l & hs & vrest & Hvia & Hhop)|Hhop].
  2:{ by rewrite (NewAckRequest_panics_Via ackID inv res fields w Hwf Hclosed Hhop) in Hrun. }
  assert (GetHeaders inv "Route" = [] →
          Forall is_RecordRouteHeader (message.GetHeaders (resp_msg res) "Record-Route"))
    as Hrr.
  { intros Hroute.
    destruct (Forall_is_RecordRouteHeader_dec
                (message.GetHeaders (resp_msg res) "Record-Route")) as [|Hnot]; [done|].
    by rewrite (NewAckRequest_panics_RecordRoute ackID inv res fields w l) in Hrun. }
  destruct (CSeq_of_cases inv) as [(lc & crest & Hbucket & _)|Hcseq]; [by eauto 10|].
  by rewrite (NewAckRequest_panics_CSeq ackID inv res fields w l) in Hrun.
Qed.

(** X8: the headers of a CANCEL, by contents.  It has one Via header with
    one hop, a copy of the first hop of the request; the Route, From, To
    and Call-ID headers of the request; its CSeq headers with the method
    of the first replaced by CANCEL; and no other header. *)
Theorem NewCancelRequest_headers cancelID req fields w cancel w' :
  headers_wf (message.headers (msg req)) →
  headers_between 0 (next w) w (message.headers (msg req)) →
  NewCancelRequest cancelID req fields w = Ok (cancel, w') →
  view_headers w' cancel "Via" = [ViaView [option_map (hops w) (ViaHop_of req).1]] ∧
  (∀ k, k ∈ ["Route"; "From"; "To"; "Call-ID"] →
        view_headers w' cancel k = view_headers w req k) ∧
  (∃ cseq rest,
     view_headers w req "CSeq" = CSeqView cseq :: rest ∧
     view_headers w' cancel "CSeq" = CSeqView (CSeq.mk (CSeq.SeqNo cseq) CANCEL) :: rest) ∧
  (∀ k, k ∉ ["Via"; "Route"; "From"; "To"; "Call-ID"; "CSeq"] →
        view_headers w' cancel k = []).
Proof.
  intros Hwf Hclosed Hrun.
  destruct (NewCancelRequest_Ok _ _ _ _ _ _ Hwf Hclosed Hrun) as (lc & rest & Hbucket).
  destruct (NewCancelRequest_views cancelID req fields w lc rest Hwf Hclosed Hbucket)
    as (cancel0 & w0 & Hrun0 & _ & Hvia & Hroute & Hfrom & Hto & Hcallid & Hcseq & Hother).
  rewrite Hrun in Hrun0. injection Hrun0 as <- <-.
  split; [done|]. split; [|split; [|done]].
  - intros k Hk. rewrite !elem_of_cons, elem_of_nil in Hk.
    by destruct Hk as [->|[->|[->|[->|[]]]]].
  - exists (cseqs w lc), (map (view_header w) rest). split; [|done].
    unfold view_headers, GetHeaders. by rewrite Hbucket.
Qed.

(** X9: the headers of an ACK, by contents.  It has the Via headers of the
    INVITE, the first hop with a new branch parameter and nothing else
    changed; the From and Call-ID headers of the INVITE; the To headers of
    the response; the CSeq headers of the INVITE with the method of the
    first replaced by ACK; the Route headers of the INVITE when it has
    some, else one Route header for each Record-Route header of the
    response, with its addresses in reverse order; and no other header. *)
Theorem NewAckRequest_headers ackID inv res fields w ack w' :
  headers_wf (message.headers (msg inv)) →
  headers_wf (message.headers (resp_msg res)) →
  headers_between 0 (next w) w (message.headers (msg inv)) →
  headers_between 0 (next w) w (message.headers (resp_msg res)) →
  NewAckRequest ackID inv res fields w = Ok (ack, w') →
  (∃ hop others rest,
     view_headers w inv "Via" = ViaView (Some hop :: others) :: rest ∧
     view_headers w' ack "Via" =
       ViaView (Some (ViaHop.withParams hop
                        (Params.Add (ViaHop.Params hop) "branch"
                           (Some (branches (issuedBranches w)))))
                :: others) :: rest) ∧
  (∀ k, k ∈ ["From"; "Call-ID"] → view_headers w' ack k = view_headers w inv k) ∧
  view_headers w' ack "To" = map (view_header w) (message.GetHeaders (resp_msg res) "To") ∧
  (∃ cseq rest,
     view_headers w inv "CSeq" = CSeqView cseq :: rest ∧
     view_headers w' ack "CSeq" = CSeqView (CSeq.mk (CSeq.SeqNo cseq) ACK) :: rest) ∧
  (GetHeaders inv "Route" ≠ [] → view_headers w' ack "Route" = view_headers w inv "Route") ∧
  (GetHeaders inv "Route" = [] →
   view_headers w' ack "Route" =
   map route_of_record_route
     (map (view_header w) (message.GetHeaders (resp_msg res) "Record-Route"))) ∧
  (∀ k, k ∉ ["Via"; "Route"; "From"; "To"; "Call-ID"; "CSeq"] →
        view_headers w' ack k = []).
Proof.
  intros Hwf Hwfr Hclosed Hclosedr Hrun.
  destruct (NewAckRequest_Ok _ _ _ _ _ _ _ Hwf Hwfr Hclosed Hclosedr Hrun)
    as (l & hs & vrest & lc & crest & Hvia & Hbucket & Hrr).
  destruct (NewAckRequest_views ackID inv res fields w l hs vrest lc crest
              Hwf Hwfr Hclosed Hclosedr Hvia Hbucket Hrr)
    as (ack0 & w0 & Hrun0 & _ & Hvia' & Hroute & Hfrom & Hto & Hcallid & Hcseq & Hother).
  rewrite Hrun in Hrun0. injection Hrun0 as <- <-.
  split; [|split; [|split; [done|split; [|split; [|split; [|done]]]]]].
  - exists (hops w l), (map (option_map (hops w)) hs), (map (view_header w) vrest).
    split; [|done]. unfold view_headers, GetHeaders. by rewrite Hvia.
  - intros k Hk. rewrite !elem_of_cons, elem_of_nil in Hk.
    by destruct Hk as [->|[->|[]]].
  - exists (cseqs w lc), (map (view_header w) crest). split; [|done].
    unfold view_headers, GetHeaders. by rewrite Hbucket.
  - intros Hsome. rewrite Hroute. by destruct (GetHeaders inv "Route").
  - intros Hnone. by rewrite Hroute, Hnone.
Qed.

Lemma route_set_views req w :
  route_set req w = concat (map route_addresses (view_headers w req "Route")).
Proof.
  unfold route_set, view_headers. rewrite map_map. f_equal. apply map_ext. by intros [].
Qed.

(** X10: the Route set of an ACK.  When the INVITE has Route headers it is
    the Route set of the INVITE.  When it has none it is the addresses of
    the Record-Route headers of the response, each header reversed and the
    headers in the order of the response; for a response with one such
    header that is the Record-Route set in reverse order. *)
Theorem NewAckRequest_builds_route_set ackID inv res fields w ack w' :
  headers_wf (message.headers (msg inv)) →
  headers_wf (message.headers (resp_msg res)) →
  headers_between 0 (next w) w (message.headers (msg inv)) →
  headers_between 0 (next w) w (message.headers (resp_msg res)) →
  NewAckRequest ackID inv res fields w = Ok (ack, w') →
  (GetHeaders inv "Route" ≠ [] → route_set ack w' = route_set inv w) ∧
  (GetHeaders inv "Route" = [] →
   route_set ack w' =
   concat (map (λ h, match h with
                     | RecordRouteHeader p => rev (map (view_uri w) (addresses w p))
                     | _ => []
                     end) (message.GetHeaders (resp_msg res) "Record-Route"))) ∧
  (GetHeaders inv "Route" = [] →
   length (message.GetHeaders (resp_msg res) "Record-Route") ≤ 1 →
   route_set ack w' = rev (record_route_set res w)).
Proof.
  intros Hwf Hwfr Hclosed Hclosedr Hrun.
  destruct (NewAckRequest_Ok _ _ _ _ _ _ _ Hwf Hwfr Hclosed Hclosedr Hrun)
    as (l & hs & vrest & lc & crest & Hvia & Hbucket & Hrr).
  destruct (NewAckRequest_views ackID inv res fields w l hs vrest lc crest
              Hwf Hwfr Hclosed Hclosedr Hvia Hbucket Hrr)
    as (ack0 & w0 & Hrun0 & _ & _ & Hroute & _).
  rewrite Hrun in Hrun0. injection Hrun0 as <- <-.
  assert (GetHeaders inv "Route" = [] →
          route_set ack w' =
          concat (map (λ h, match h with
                            | RecordRouteHeader p => rev (map (view_uri w) (addresses w p))
                            | _ => []
                            end) (message.GetHeaders (resp_msg res) "Record-Route")))
    as Hreversed.
  { intros Hnone. rewrite route_set_views, Hroute, Hnone, !map_map. f_equal.
    apply map_ext_in. intros h Hin%list_elem_of_In.
    specialize (Hrr Hnone). rewrite list.Forall_forall in Hrr. specialize (Hrr h Hin).
    by destruct h. }
  split; [|split; [done|]].
  - intros Hsome. rewrite !route_set_views, Hroute. by destruct (GetHeaders inv "Route").
  - intros Hnone Hlen. rewrite (Hreversed Hnone). unfold record_route_set.
    destruct (message.GetHeaders (resp_msg res) "Record-Route") as [|h [|? ?]];
      [done| |simpl in Hlen; lia].
    cbn [map concat]. rewrite !app_nil_r. by destruct h.
Qed.

(** X11: the headers of an ACK and of a CANCEL are on objects of their
    own: every object that a header of the derived request points to was
    allocated by the call, and the objects that were there before the call
    are as they were. *)
Theorem derived_headers_are_new id req res fields w :
  headers_wf (message.headers (msg req)) →
  headers_wf (message.headers (resp_msg res)) →
  headers_between 0 (next w) w (message.headers (msg req)) →
  headers_between 0 (next w) w (message.headers (resp_msg res)) →
  (∀ cancel w',
     NewCancelRequest id req fields w = Ok (cancel, w') →
     frame w w' ∧ headers_between (next w) (next w') w' (message.headers (msg cancel))) ∧
  (∀ ack w',
     NewAckRequest id req res fields w = Ok (ack, w') →
     frame w w' ∧ headers_between (next w) (next w') w' (message.headers (msg ack))).
Proof.
  intros Hwf Hwfr Hclosed Hclosedr. split.
  - intros cancel w' Hrun.
    destruct (NewCancelRequest_Ok _ _ _ _ _ _ Hwf Hclosed Hrun) as (lc & rest & Hbucket).
    destruct (NewCancelRequest_views id req fields w lc rest Hwf Hclosed Hbucket)
      as (cancel0 & w0 & Hrun0 & Hbuilt & _).
    rewrite Hrun in Hrun0. injection Hrun0 as <- <-.
    split; [by eapply built_frame_of|]. apply Hbuilt.
  - intros ack w' Hrun.
    destruct (NewAckRequest_Ok _ _ _ _ _ _ _ Hwf Hwfr Hclosed Hclosedr Hrun)
      as (l & hs & vrest & lc & crest & Hvia & Hbucket & Hrr).
    destruct (NewAckRequest_views id req res fields w l hs vrest lc crest
                Hwf Hwfr Hclosed Hclosedr Hvia Hbucket Hrr)
      as (ack0 & w0 & Hrun0 & Hbuilt & _).
    rewrite Hrun in Hrun0. injection Hrun0 as <- <-.
    split; [by eapply built_frame_of|]. apply Hbuilt.
Qed.

(** X12: [Clone], [WithFields] and [CopyRequest] return a deep copy: the
    same method and SIP version, the same recipient and the same headers
    under every name by contents, all of them on objects allocated by the
    call, the objects that were there before being as they were.  A body
    that is blank is dropped, and so are the cached source and destination
    addresses. *)
Theorem copies_are_deep r w :
  headers_ok (message.headers (msg r)) →
  request_between 0 (next w) w r →
  is_copy_of w r (Clone r w).2 (Clone r w).1 ∧
  (∀ fields, is_copy_of w r (WithFields r fields w).2 (WithFields r fields w).1) ∧
  is_copy_of w r (CopyRequest r w).2 (CopyRequest r w).1.
Proof.
  intros Hok Hclosed. split; [|split].
  - exact (is_copy_of_recipient_first r w "" (Fields r) Hok Hclosed).
  - intros fields.
    exact (is_copy_of_recipient_first r w (MessageID_of r)
             (log.WithFields (Fields r) fields) Hok Hclosed).
  - exact (is_copy_of_headers_first r w (MessageID_of r) (Fields r) Hok Hclosed).
Qed.

(** X13: the request line.  A copy of a request has the request line of
    the request, and a CANCEL has the request line of the request it
    cancels with the method replaced by CANCEL. *)
Theorem StartLine_of_derived Uri_String r w :
  headers_ok (message.headers (msg r)) →
  request_between 0 (next w) w r →
  StartLine Uri_String (Clone r w).1 (Clone r w).2 = StartLine Uri_String r w ∧
  (∀ fields, StartLine Uri_String (WithFields r fields w).1 (WithFields r fields w).2 =
             StartLine Uri_String r w) ∧
  StartLine Uri_String (CopyRequest r w).1 (CopyRequest r w).2 = StartLine Uri_String r w ∧
  (∀ cancelID fields cancel w',
     NewCancelRequest cancelID r fields w = Ok (cancel, w') →
     StartLine Uri_String cancel w' =
     ("CANCEL " ++ Uri_String (view_uri w (Recipient r)) ++ " " ++ SipVersion r)%string).
Proof.
  intros Hok Hclosed.
  assert (∀ r' w', is_copy_of w r w' r' →
                   StartLine Uri_String r' w' = StartLine Uri_String r w) as Hcopy.
  { intros r' w' (Hm & Hv & _ & _ & _ & Hu & _). unfold StartLine. by rewrite Hm, Hv, Hu. }
  split; [|split; [|split]].
  - apply Hcopy, is_copy_of_recipient_first; done.
  - intros fields. apply Hcopy.
    exact (is_copy_of_recipient_first r w (MessageID_of r)
             (log.WithFields (Fields r) fields) Hok Hclosed).
  - apply Hcopy. exact (is_copy_of_headers_first r w (MessageID_of r) (Fields r) Hok Hclosed).
  - intros cancelID fields cancel w' Hrun.
    destruct Hok as (Hwf & _). destruct Hclosed as [Hclosed Hrcp].
    destruct (NewCancelRequest_Ok _ _ _ _ _ _ Hwf Hclosed Hrun) as (lc & rest & Hbucket).
    destruct (NewCancelRequest_views cancelID r fields w lc rest Hwf Hclosed Hbucket)
      as (cancel0 & w0 & Hrun0 & Hbuilt & _).
    rewrite Hrun in Hrun0. injection Hrun0 as <- <-.
    apply NewCancelRequest_envelope in Hrun
      as (c0 & (Hm & Hr & _ & Hv & _) & Hmethod & Hrecipient & Hversion & _).
    unfold StartLine, Method, Recipient, SipVersion in *.
    rewrite Hm, Hr, Hv, Hmethod, Hrecipient, Hversion.
    rewrite (view_uri_agree 0 (next w) w w' (recipient r)); [done|apply Hbuilt|done].
Qed.

(** ** Address resolution: the panics *)

(** X14: [Source] panics in two cases only, both a nil dereference and
    both on a request without a cached source: the first hop of the first
    Via header is nil, or its [received] parameter is there with the nil
    value.  A cached source is returned as it is. *)
Theorem Source_panics_iff req w :
  (Source req w = Panic NilDereference ↔
   message.src (msg req) = "" ∧
   ∃ hop, ViaHop_of req = (hop, true) ∧
          ∀ p, hop = Some p →
               Params.Get (ViaHop.Params (hops w p)) "received" = (None, true)) ∧
  Source req w ≠ Panic InterfaceConversion ∧
  (message.src (msg req) ≠ "" → Source req w = Ok (message.src (msg req))).
Proof.
  unfold Source. case_bool_decide as Hsrc.
  { split; [|done]. split; [done|]. by intros [? _]. }
  destruct (ViaHop_of req) as [[p|] []]; cbv zeta.
  - destruct (Params.Get (ViaHop.Params (hops w p)) "received") as [[received|] []] eqn:Hrec.
    + split; [|done]. split; [done|]. intros (_ & hop & [= <-] & Hp).
      specialize (Hp p eq_refl). by rewrite Hrec in Hp.
    + split; [|done]. split; [done|]. intros (_ & hop & [= <-] & Hp).
      specialize (Hp p eq_refl). by rewrite Hrec in Hp.
    + split; [|done]. split; [|done]. intros _. split; [done|].
      exists (Some p). split; [done|]. by intros ? [= <-].
    + split; [|done]. split; [done|]. intros (_ & hop & [= <-] & Hp).
      specialize (Hp p eq_refl). by rewrite Hrec in Hp.
  - split; [|done]. split; [done|]. by intros (_ & hop & [=] & _).
  - split; [|done]. split; [|done]. intros _. split; [done|]. by exists None.
  - split; [|done]. split; [done|]. by intros (_ & hop & [=] & _).
Qed.

(** X15: [Destination] panics in two cases only, both a failed type
    assertion and both on a request without a cached destination: the
    first header under Route is not a Route object, or its first address is
    not a SIP URI.  The recipient never makes it panic, and a cached
    destination is returned as it is. *)
Theorem Destination_panics_iff req w :
  (Destination req w = Panic InterfaceConversion ↔
   message.dest (msg req) = "" ∧
   ∃ h rest, GetHeaders req "Route" = h :: rest ∧
             ∀ p, h = RouteHeader p → ∃ repr us, addresses w p = OtherUri repr :: us) ∧
  Destination req w ≠ Panic NilDereference ∧
  (message.dest (msg req) ≠ "" → Destination req w = Ok (message.dest (msg req))).
Proof.
  unfold Destination. case_bool_decide as Hdest.
  { split; [|done]. split; [done|]. by intros [? _]. }
  cbv zeta.
  destruct (GetHeaders req "Route") as [|h rest].
  { split; [|by destruct (Recipient req)].
    split; [by destruct (Recipient req)|]. by intros (_ & ? & ? & [=] & _). }
  destruct h as [|p| | | | | | |];
    try (split; [|done]; split; [|done]; intros _; split; [done|];
         eexists _, _; split; [done|]; by intros ? [=]).
  destruct (addresses w p) as [|[u|repr] us] eqn:Haddr.
  - split; [|by destruct (Recipient req)].
    split; [by destruct (Recipient req)|].
    intros (_ & ? & ? & [= <- <-] & Hp). destruct (Hp p eq_refl) as (? & ? & Heq).
    by rewrite Haddr in Heq.
  - split; [|done]. split; [done|].
    intros (_ & ? & ? & [= <- <-] & Hp). destruct (Hp p eq_refl) as (? & ? & Heq).
    by rewrite Haddr in Heq.
  - split; [|done]. split; [|done]. intros _. split; [done|].
    eexists _, _. split; [done|]. intros ? [= <-]. rewrite Haddr. by eauto.
Qed.

(** ** Address resolution of the derived requests *)

(** [Source] reads the cached source, the first Via hop and the
    transport only. *)
Lemma Source_same_top_hop req w req' w' :
  message.src (msg req') = message.src (msg req) →
  Transport w' (msg req') = Transport w (msg req) →
  top_hop req' w' = top_hop req w →
  Source req' w' = Source req w.
Proof.
  unfold Source, top_hop. intros -> ->.
  destruct (ViaHop_of req') as [[p'|] ok'], (ViaHop_of req) as [[p|] ok];
    cbn; intros Heq; simplify_eq; try done.
  by match goal with Hhop : hops _ _ = hops _ _ |- _ => rewrite Hhop end.
Qed.

(** [Destination] reads the cached destination, the Route headers, the
    recipient and the transport only. *)
Lemma Destination_same_views req w req' w' :
  message.dest (msg req') = message.dest (msg req) →
  Transport w' (msg req') = Transport w (msg req) →
  view_headers w' req' "Route" = view_headers w req "Route" →
  view_uri w' (Recipient req') = view_uri w (Recipient req) →
  Destination req' w' = Destination req w.
Proof.
  unfold Destination, view_headers. intros -> -> Hroute Hrcp.
  case_bool_decide; [done|]. cbv zeta.
  assert (match Recipient req' with SipUriPtr u => Some (uris w' u) | OtherUri _ => None end =
          match Recipient req with SipUriPtr u => Some (uris w u) | OtherUri _ => None end)
    as Hrcp'.
  { destruct (Recipient req'), (Recipient req); simplify_eq/=; congruence. }
  destruct (GetHeaders req' "Route") as [|h' rest'], (GetHeaders req "Route") as [|h rest];
    try done.
  { destruct (Recipient req'), (Recipient req); simplify_eq/=; try done.
    by replace (uris w' p) with (uris w p0). }
  injection Hroute as Hh _.
  destruct h', h; simplify_eq/=; try done.
  destruct (addresses w' p) as [|[u'|?] ?], (addresses w p0) as [|[u|?] ?];
    simplify_eq/=; try done.
  - destruct (Recipient req'), (Recipient req); simplify_eq/=; try done.
    by replace (uris w' p1) with (uris w p2).
  - by replace (uris w' u') with (uris w u).
Qed.

(** X16: a request derived from one without cached addresses resolves to
    the same addresses, when it goes over the same transport.  The source
    and the destination of a copy are those of the request.  The
    destination of a CANCEL is that of the request it cancels, and so is
    its source when the request has a Via hop; when it has none, the
    request has the empty source and [Source] panics on the CANCEL, whose
    Via header holds a nil hop. *)
Theorem derived_requests_resolve_alike r w :
  headers_ok (message.headers (msg r)) →
  request_between 0 (next w) w r →
  message.src (msg r) = "" → message.dest (msg r) = "" →
  (∀ r' w',
     Clone r w = (r', w') ∨ (∃ fields, WithFields r fields w = (r', w')) ∨
     CopyRequest r w = (r', w') →
     Transport w' (msg r') = Transport w (msg r) →
     Source r' w' = Source r w ∧ Destination r' w' = Destination r w) ∧
  (∀ cancelID fields cancel w',
     NewCancelRequest cancelID r fields w = Ok (cancel, w') →
     Transport w' (msg cancel) = Transport w (msg r) →
     Destination cancel w' = Destination r w ∧
     ((ViaHop_of r).2 = true → Source cancel w' = Source r w) ∧
     ((ViaHop_of r).2 = false →
      Source r w = Ok "" ∧ Source cancel w' = Panic NilDereference)).
Proof.
  intros Hok Hclosed Hsrc Hdest. split.
  - intros r' w' Hrun Htransport.
    assert (is_copy_of w r w' r') as (_ & _ & _ & Hsrc' & Hdest' & Hrcp & Hviews & _).
    { destruct Hrun as [Hrun|[[fields Hrun]|Hrun]].
      - pose proof (is_copy_of_recipient_first r w "" (Fields r) Hok Hclosed) as Hcopy.
        cbv zeta in Hcopy. change (is_copy_of w r (Clone r w).2 (Clone r w).1) in Hcopy.
        by rewrite Hrun in Hcopy.
      - pose proof (is_copy_of_recipient_first r w (MessageID_of r)
                      (log.WithFields (Fields r) fields) Hok Hclosed) as Hcopy.
        cbv zeta in Hcopy.
        change (is_copy_of w r (WithFields r fields w).2 (WithFields r fields w).1) in Hcopy.
        by rewrite Hrun in Hcopy.
      - pose proof (is_copy_of_headers_first r w (MessageID_of r) (Fields r) Hok Hclosed)
          as Hcopy.
        cbv zeta in Hcopy.
        change (is_copy_of w r (CopyRequest r w).2 (CopyRequest r w).1) in Hcopy.
        by rewrite Hrun in Hcopy. }
    split.
    + apply Source_same_top_hop; [congruence|done|].
      assert ("Via" ≠ "Content-Length") as Hne by done.
      unfold top_hop. pose proof (Hviews "Via" (or_intror Hne)) as Hvia.
      revert Hvia.
      unfold view_headers, ViaHop_of, headers.ViaHop, GetHeaders, message.GetHeaders.
      destruct (headers.GetHeaders (message.headers (msg r')) "Via")
        as [|[[|hop' ?]| | | | | | | |] ?];
        destruct (headers.GetHeaders (message.headers (msg r)) "Via")
          as [|[[|hop ?]| | | | | | | |] ?]; try done.
      cbn. by intros [= -> _ _].
    + apply Destination_same_views; [congruence|done| |done].
      apply Hviews. by right.
  - intros cancelID fields cancel w' Hrun Htransport.
    destruct Hok as (Hwf & _). destruct Hclosed as [Hclosed Hrcp].
    destruct (NewCancelRequest_Ok _ _ _ _ _ _ Hwf Hclosed Hrun) as (lc & rest & Hbucket).
    destruct (NewCancelRequest_views cancelID r fields w lc rest Hwf Hclosed Hbucket)
      as (cancel0 & w0 & Hrun0 & Hbuilt & Hvia & Hroute & _).
    rewrite Hrun in Hrun0. injection Hrun0 as <- <-.
    apply NewCancelRequest_envelope in Hrun
      as (c0 & (_ & Hr & _ & _ & _ & _ & Hs & Hd) & _ & Hrecipient & _ & Hsrc0 & Hdest0 & _).
    split.
    + apply Destination_same_views; [congruence|done|done|].
      unfold Recipient in *. rewrite Hr, Hrecipient.
      eapply view_uri_agree; [apply Hbuilt|done].
    + split.
      * intros Hhop. apply Source_same_top_hop; [congruence|done|].
        revert Hvia Hhop.
        unfold top_hop, view_headers, ViaHop_of, headers.ViaHop, GetHeaders,
          message.GetHeaders.
        destruct (headers.GetHeaders (message.headers (msg cancel)) "Via")
          as [|[[|hop' ?]| | | | | | | |] ?]; try done.
        destruct (headers.GetHeaders (message.headers (msg r)) "Via")
          as [|[[|hop ?]| | | | | | | |] ?]; try done.
        cbn. by intros [= -> _ _] _.
      * intros Hhop. unfold Source. rewrite Hs, Hsrc0, Hsrc.
        rewrite !bool_decide_eq_false_2 by (by intros []).
        revert Hvia Hhop.
        unfold view_headers, ViaHop_of, headers.ViaHop, GetHeaders, message.GetHeaders.
        destruct (headers.GetHeaders (message.headers (msg cancel)) "Via")
          as [|[[|[hop'|] ?]| | | | | | | |] ?]; try done;
          destruct (headers.GetHeaders (message.headers (msg r)) "Via")
            as [|[[|hop ?]| | | | | | | |] ?]; try done.
Qed.

End MoreRequestProperties.

(** ** The logger *)

(** X17: loggers derived with [WithFields] and [WithPrefix].  Adding
    fields twice is adding the merged fields once, a later value of a key
    replacing an earlier one; the prefix and the fields are set
    independently, in either order; the last prefix wins; and the logrus
    logger underneath is the one of the original. *)
Theorem LogrusLogger_derivation {L} (l : LogrusLogger.t L) (a b : log.Fields) (p q : string) :
  LogrusLogger.WithFields (LogrusLogger.WithFields l a) b =
    LogrusLogger.WithFields l (log.WithFields a b) ∧
  (∀ k, LogrusLogger.Fields (LogrusLogger.WithFields l a) !! k =
        match a !! k with Some v => Some v | None => LogrusLogger.Fields l !! k end) ∧
  LogrusLogger.WithPrefix (LogrusLogger.WithFields l a) p =
    LogrusLogger.WithFields (LogrusLogger.WithPrefix l p) a ∧
  LogrusLogger.WithPrefix (LogrusLogger.WithPrefix l p) q = LogrusLogger.WithPrefix l q ∧
  LogrusLogger.log (LogrusLogger.WithFields (LogrusLogger.WithPrefix l p) a) =
    LogrusLogger.log l ∧
  (∀ logger : L,
     LogrusLogger.Fields
       (LogrusLogger.WithFields (LogrusLogger.NewDefaultLogrusLogger logger) a) = a ∧
     LogrusLogger.Prefix
       (LogrusLogger.WithFields (LogrusLogger.NewDefaultLogrusLogger logger) a) = "main").
Proof.
  split; [|split; [|split; [done|split; [done|split; [done|]]]]].
  - unfold LogrusLogger.WithFields, LogrusLogger.NewLogrusLogger, log.WithFields. cbn.
    by rewrite (assoc_L (∪)).
  - intros k. apply lookup_WithFields.
  - intros logger. split; [|done].
    unfold LogrusLogger.WithFields, LogrusLogger.NewLogrusLogger, log.WithFields. cbn.
    apply (right_id_L ∅ (∪)).
Qed.

(** * The properties on the example data *)

Section Examples.
Existing Instance example_collaborators.

(** C1: with the two Record-Route header lines R1 then R2 on the
    response and no Route header on the INVITE, the Route set of the ACK
    is R1 then R2: each line gives one Route header, in the order of the
    lines, and the order across lines is not reversed. *)
Theorem NewAckRequest_route_set_of_two_lines :
  GetHeaders example_invite "Route" = [] ∧
  record_route_set example_response example_world = [R1; R2] ∧
  observe route_set (NewAckRequest "" example_invite example_response ∅ example_world)
  = Ok [R1; R2].
Proof. repeat split; vm_compute; reflexivity. Qed.

(** The same addresses on one header line are reversed. *)
Example NewAckRequest_route_set_of_one_line :
  record_route_set response_with_one_line example_world = [R1; R2] ∧
  observe route_set (NewAckRequest "" example_invite response_with_one_line ∅ example_world)
  = Ok [R2; R1].
Proof. repeat split; vm_compute; reflexivity. Qed.

(** C4: [NewAckRequest] panics on an INVITE without a Via header and on
    an INVITE without a CSeq header, and [NewCancelRequest] panics on a
    request without a CSeq header. *)
Theorem derivation_constructors_panic :
  NewAckRequest "" invite_without_Via example_response ∅ example_world
  = Panic NilDereference ∧
  NewAckRequest "" invite_without_CSeq example_response ∅ example_world
  = Panic NilDereference ∧
  NewCancelRequest "" invite_without_CSeq ∅ example_world
  = Panic NilDereference.
Proof. repeat split; vm_compute; reflexivity. Qed.

(** On a request without a Via header [NewCancelRequest] returns a
    CANCEL whose Via header holds a nil hop. *)
Example NewCancelRequest_without_Via :
  observe (λ cancel _, GetHeaders cancel "Via")
    (NewCancelRequest "" invite_without_Via ∅ example_world)
  = Ok [ViaHeader [None]].
Proof. vm_compute. reflexivity. Qed.

(** C9: the CANCEL and the ACK derived from the example INVITE have the
    recipient of the INVITE itself, not a clone: an assignment through
    the recipient of the derived request changes the destination of the
    INVITE. *)
Theorem derived_request_shares_recipient :
  observe (λ cancel _, Recipient cancel) (NewCancelRequest "" example_invite ∅ example_world)
  = Ok (Recipient example_invite) ∧
  observe (λ ack _, Recipient ack)
    (NewAckRequest "" example_invite example_response ∅ example_world)
  = Ok (Recipient example_invite) ∧
  Destination example_invite example_world = Ok "example.com:5060" ∧
  observe (λ cancel w', Destination example_invite (set_recipient_host "198.51.100.7" cancel w'))
    (NewCancelRequest "" example_invite ∅ example_world)
  = Ok (Ok "198.51.100.7:5060").
Proof. repeat split; vm_compute; reflexivity. Qed.

Ltac evaluate := vm_compute; first [reflexivity | discriminate | lia | repeat constructor].



(** C3 on the example INVITE: the hop of the CANCEL is the new object at
    location 19, with the contents of the hop of the INVITE. *)
Lemma NewCancelRequest_keeps_branch_witness :
  ∃ cancel w',
    NewCancelRequest "" example_invite ∅ example_world = Ok (cancel, w') ∧
    GetHeaders cancel "Via" = [ViaHeader [Some 19]] ∧
    hops w' 19 = ViaHop.mk "UDP" "client.example.com" (Some 5060%Z)
                   [("branch", Some "z9hG4bK-1")] ∧
    branch_of cancel w' = (Some "z9hG4bK-1", true).
Proof.
  assert (ViaHop_of example_invite = (Some 1, true)) as Hvia by evaluate.
  assert ((CSeq_of example_invite).2 = true) as Hcseq by evaluate.
  pose proof (NewCancelRequest_keeps_branch "" example_invite ∅ example_world 1
                (headers_wf_newHeaders _) Hvia Hcseq) as Hthm.
  vm_compute (next _) in Hthm. vm_compute (hops example_world _) in Hthm.
  vm_compute (branch_of example_invite _) in Hthm. exact Hthm.
Defined.

(** C7 on the example INVITE, whose CSeq is [(42, INVITE)]. *)
Lemma CSeq_number_retained_witness :
  observe cseq_of (NewAckRequest "" example_invite example_response ∅ example_world)
  = Ok (Some (CSeq.mk 42 ACK)) ∧
  observe cseq_of (NewCancelRequest "" example_invite ∅ example_world)
  = Ok (Some (CSeq.mk 42 CANCEL)).
Proof.
  assert (ViaHop_of example_invite = (Some 1, true)) as Hvia by evaluate.
  assert (CSeq_of example_invite = (Some 5, true)) as Hcseq by evaluate.
  assert (5 < next example_world) as Halloc by evaluate.
  assert (cseqs example_world 5 = CSeq.mk 42 INVITE) as Hcontents by evaluate.
  assert (GetHeaders example_invite "Route" = [] →
          Forall is_RecordRouteHeader
            (message.GetHeaders (resp_msg example_response) "Record-Route")) as Hrr
    by (intros _; evaluate).
  destruct (CSeq_number_retained example_invite example_world 5 42 INVITE
              (headers_wf_newHeaders _) Hcseq Halloc Hcontents)
    as [Hack Hcancel].
  split; [|apply Hcancel].
  exact (Hack "" example_response ∅ 1 (headers_wf_newHeaders _) Hvia Hrr).
Defined.



(** C5, as stated, fails on an rport that overflows: [strconv.Atoi]
    reports a range error, and the port is 65535, not 0. *)
Lemma Source_long_rport_counterexample :
  (strconv.Atoi "99999999999999999999").2 = Some strconv.ErrRange ∧
  rport_as_specified "99999999999999999999" = 0%Z ∧
  Source request_with_long_rport example_world = Ok "client.example.com:65535" ∧
  Source request_with_long_rport example_world ≠
  Ok (fmt.Sprintf_host_port "client.example.com"
        (rport_as_specified "99999999999999999999")).
Proof. repeat split; evaluate. Qed.

(** A received parameter with the nil value makes [Source] panic. *)
Example Source_nil_received :
  Source request_with_nil_received example_world = Panic NilDereference.
Proof. evaluate. Qed.

(** C5, as amended, on a hop with [received=1.2.3.4], no rport and the
    port 5060. *)
Lemma Source_resolution_witness :
  ∃ host port,
    Source request_with_received example_world = Ok (fmt.Sprintf_host_port host port) ∧
    host = "1.2.3.4" ∧ port = 5060%Z.
Proof.
  assert (message.src (msg request_with_received) = "") as Hsrc by evaluate.
  assert (ViaHop_of request_with_received = (Some 12, true)) as Hvia by evaluate.
  assert (Params.Get (ViaHop.Params (hops example_world 12)) "received"
          = (Some "1.2.3.4", true)) as Hreceived by evaluate.
  assert (Params.Get (ViaHop.Params (hops example_world 12)) "rport" = (None, false))
    as Hrport by evaluate.
  assert (ViaHop.Port (hops example_world 12) = Some 5060%Z) as Hport by evaluate.
  destruct (Source_resolution request_with_received example_world Hsrc) as [_ Hhop].
  pose proof (Hhop 12 Hvia) as Hrules. cbv zeta in Hrules.
  destruct Hrules as (host & port & Hs & Hhost & _ & _ & Hfallback).
  { rewrite Hreceived. discriminate. }
  exists host, port. split; [exact Hs|]. split.
  - apply (Hhost "1.2.3.4" Hreceived). discriminate.
  - destruct Hfallback as [Hexplicit _]; [left; by rewrite Hrport|].
    exact (Hexplicit _ Hport).
Defined.

(** C6, as stated, fails on a request whose Route header has no
    address: a Route header is present, no address of it governs, and
    the destination is the one of the recipient. *)
Lemma Destination_empty_route_counterexample :
  GetHeaders request_with_empty_route "Route" = [RouteHeader 16] ∧
  addresses example_world 16 = [] ∧
  Destination request_with_empty_route example_world = Ok "example.com:5060" ∧
  ¬ Destination_as_specified request_with_empty_route example_world.
Proof.
  assert (GetHeaders request_with_empty_route "Route" = [RouteHeader 16]) as Hroute
    by evaluate.
  assert (addresses example_world 16 = []) as Hnone by evaluate.
  split; [exact Hroute|]. split; [exact Hnone|]. split; [evaluate|].
  unfold Destination_as_specified. rewrite Hroute.
  intros (p & u & rest & [= <-] & Haddr & _). rewrite Hnone in Haddr. discriminate Haddr.
Qed.

(** C6, as amended, on a request with the Route header
    [sip:proxy.example.com:5080], whose recipient is [sip:example.com]. *)
Lemma Destination_resolution_witness :
  Destination request_with_route example_world = Ok "proxy.example.com:5080".
Proof.
  assert (message.dest (msg request_with_route) = "") as Hdest by evaluate.
  assert (GetHeaders request_with_route "Route" = [RouteHeader 15]) as Hroute by evaluate.
  assert (addresses example_world 15 = [SipUriPtr 14]) as Haddr by evaluate.
  destruct (Destination_resolution request_with_route example_world Hdest)
    as [Hgoverns _].
  rewrite (Hgoverns 15 [] 14 [] Hroute Haddr). evaluate.
Defined.

(** C10 on a request whose Route header has no address and whose
    recipient is [sip:example.com]. *)
Lemma Destination_route_without_address_witness :
  Destination request_with_empty_route example_world = Ok "example.com:5060".
Proof.
  assert (message.dest (msg request_with_empty_route) = "") as Hdest by evaluate.
  assert (GetHeaders request_with_empty_route "Route" = [RouteHeader 16]) as Hroute
    by evaluate.
  assert (addresses example_world 16 = []) as Hnone by evaluate.
  pose proof (Destination_route_without_address request_with_empty_route example_world
                16 [] Hdest Hroute Hnone) as Hthm.
  vm_compute (Recipient _) in Hthm. cbv iota beta in Hthm.
  rewrite Hthm. evaluate.
Defined.

End Examples.

(** * More properties on the example data *)

Section MoreExamples.
Existing Instance example_collaborators.

Ltac evaluate := vm_compute; first [reflexivity | discriminate | lia | repeat constructor].

(** The headers of the example INVITE and of the example response point
    to objects of the example store. *)
Lemma example_invite_closed :
  headers_between 0 (next example_world) example_world (message.headers (msg example_invite)).
Proof.
  apply headers_between_newHeaders. repeat constructor; vm_compute; lia.
Qed.

Lemma example_response_closed :
  headers_between 0 (next example_world) example_world
    (message.headers (resp_msg example_response)).
Proof.
  apply headers_between_newHeaders. repeat constructor; vm_compute; lia.
Qed.

Lemma example_invite_request_closed :
  request_between 0 (next example_world) example_world example_invite.
Proof. split; [apply example_invite_closed|vm_compute; lia]. Qed.

(** X1 on the example INVITE. *)
Lemma NewCancelRequest_request_line_witness :
  ∃ cancel w',
    NewCancelRequest "" example_invite ∅ example_world = Ok (cancel, w') ∧
    Method cancel = CANCEL ∧ IsCancel cancel = true ∧ IsInvite cancel = false ∧
    Recipient cancel = SipUriPtr 0 ∧
    SipVersion cancel = "SIP/2.0" ∧
    Body cancel = "" ∧
    message.src (msg cancel) = "" ∧ message.dest (msg cancel) = "".
Proof.
  assert (∃ cancel w', NewCancelRequest "" example_invite ∅ example_world = Ok (cancel, w'))
    as (cancel & w' & Hrun) by (vm_compute; eauto).
  exists cancel, w'. split; [exact Hrun|].
  exact (NewCancelRequest_request_line "" example_invite ∅ example_world cancel w' Hrun).
Defined.

(** X2 on the example INVITE and the example response, which has no
    Contact header: the recipient of the ACK is that of the INVITE. *)
Lemma NewAckRequest_request_line_witness :
  ∃ ack w',
    NewAckRequest "" example_invite example_response ∅ example_world = Ok (ack, w') ∧
    Method ack = ACK ∧ IsAck ack = true ∧
    Recipient ack = SipUriPtr 0 ∧
    SipVersion ack = "SIP/2.0" ∧
    Body ack = "".
Proof.
  assert (∃ ack w',
            NewAckRequest "" example_invite example_response ∅ example_world = Ok (ack, w'))
    as (ack & w' & Hrun) by (vm_compute; eauto).
  assert ((headers.Contact (message.headers (resp_msg example_response))).2 = false)
    as Hcontact by evaluate.
  exists ack, w'. split; [exact Hrun|].
  destruct (NewAckRequest_request_line "" example_invite example_response ∅ example_world
              ack w' Hrun) as (Hmethod & Hack & _ & _ & Hrecipient & Hversion & Hbody & _).
  exact (conj Hmethod (conj Hack (conj (Hrecipient Hcontact) (conj Hversion Hbody)))).
Defined.

(** X3 on the example INVITE, whose message identifier is [inv-1]. *)
Lemma NewCancelRequest_metadata_witness :
  ∃ cancel w',
    NewCancelRequest "" example_invite ∅ example_world = Ok (cancel, w') ∧
    MessageID_of cancel = "id-0" ∧
    Fields cancel !! "request_id" = Some (MessageID_of cancel) ∧
    Fields cancel !! "cancelling_request_id" = Some "inv-1".
Proof.
  assert (∃ cancel w', NewCancelRequest "" example_invite ∅ example_world = Ok (cancel, w'))
    as (cancel & w' & Hrun) by (vm_compute; eauto).
  exists cancel, w'. split; [exact Hrun|].
  destruct (NewCancelRequest_metadata "" example_invite ∅ example_world cancel w' Hrun)
    as (Hid & Hrequest & Hcancelling & _).
  exact (conj Hid (conj Hrequest Hcancelling)).
Defined.

(** X4 on the example INVITE and the example response, whose message
    identifier is [resp-1]. *)
Lemma NewAckRequest_metadata_witness :
  ∃ ack w',
    NewAckRequest "ack-1" example_invite example_response ∅ example_world = Ok (ack, w') ∧
    MessageID_of ack = "ack-1" ∧
    Fields ack !! "request_id" = Some (MessageID_of ack) ∧
    Fields ack !! "invite_request_id" = Some "inv-1" ∧
    Fields ack !! "invite_response_id" = Some "resp-1".
Proof.
  assert (∃ ack w',
            NewAckRequest "ack-1" example_invite example_response ∅ example_world =
            Ok (ack, w'))
    as (ack & w' & Hrun) by (vm_compute; eauto).
  exists ack, w'. split; [exact Hrun|].
  destruct (NewAckRequest_metadata "ack-1" example_invite example_response ∅ example_world
              ack w' Hrun) as (Hid & Hrequest & Hinvite & Hresponse & _).
  exact (conj Hid (conj Hrequest (conj Hinvite Hresponse))).
Defined.

(** X6 on the example INVITE, which has a CSeq header. *)
Lemma NewCancelRequest_returns_iff_witness :
  ((∃ cancel w', NewCancelRequest "" example_invite ∅ example_world = Ok (cancel, w')) ↔
   (CSeq_of example_invite).2 = true) ∧
  ((CSeq_of example_invite).2 = false →
   NewCancelRequest "" example_invite ∅ example_world = Panic NilDereference).
Proof.
  exact (NewCancelRequest_returns_iff "" example_invite ∅ example_world
           (headers_wf_newHeaders _) example_invite_closed).
Defined.

(** X7 on the example INVITE and the example response. *)
Lemma NewAckRequest_returns_iff_witness :
  (∃ ack w', NewAckRequest "" example_invite example_response ∅ example_world = Ok (ack, w')) ↔
  is_Some (ViaHop_of example_invite).1 ∧
  (CSeq_of example_invite).2 = true ∧
  (GetHeaders example_invite "Route" = [] →
   Forall is_RecordRouteHeader
     (message.GetHeaders (resp_msg example_response) "Record-Route")).
Proof.
  exact (proj1 (NewAckRequest_returns_iff "" example_invite example_response ∅ example_world
                  (headers_wf_newHeaders _) (headers_wf_newHeaders _)
                  example_invite_closed example_response_closed)).
Defined.

(** X8 on the example INVITE: the Via hop, the From header and the CSeq
    header of the CANCEL. *)
Lemma NewCancelRequest_headers_witness :
  ∃ cancel w',
    NewCancelRequest "" example_invite ∅ example_world = Ok (cancel, w') ∧
    view_headers w' cancel "Via" =
      [ViaView [Some (ViaHop.mk "UDP" "client.example.com" (Some 5060%Z)
                        [("branch", Some "z9hG4bK-1")])]] ∧
    view_headers w' cancel "From" = [FromView "<sip:alice@example.com>;tag=a1"] ∧
    view_headers w' cancel "Contact" = [] ∧
    ∃ rest, view_headers w' cancel "CSeq" = CSeqView (CSeq.mk 42 CANCEL) :: rest.
Proof.
  assert (∃ cancel w', NewCancelRequest "" example_invite ∅ example_world = Ok (cancel, w'))
    as (cancel & w' & Hrun) by (vm_compute; eauto).
  exists cancel, w'. split; [exact Hrun|].
  destruct (NewCancelRequest_headers "" example_invite ∅ example_world cancel w'
              (headers_wf_newHeaders _) example_invite_closed Hrun)
    as (Hvia & Hcopied & (cseq & rest & Hcseq & Hcseq') & Hother).
  assert ("From" ∈ ["Route"; "From"; "To"; "Call-ID"]) as Hfrom by (rewrite !elem_of_cons; tauto).
  assert ("Contact" ∉ ["Via"; "Route"; "From"; "To"; "Call-ID"; "CSeq"]) as Hcontact.
  { rewrite !not_elem_of_cons. repeat split; (discriminate || apply not_elem_of_nil). }
  pose proof (Hcopied "From" Hfrom) as Hfrom'.
  vm_compute (view_headers example_world _ _) in Hfrom'.
  vm_compute (option_map _ _) in Hvia.
  vm_compute (view_headers example_world _ _) in Hcseq. injection Hcseq as <- _.
  split; [exact Hvia|]. split; [exact Hfrom'|]. split; [exact (Hother "Contact" Hcontact)|].
  exists rest. exact Hcseq'.
Defined.

(** X9 on the example INVITE and the example response: the first hop of
    the ACK has the first branch of the generator, and the To header is
    that of the response. *)
Lemma NewAckRequest_headers_witness :
  ∃ ack w',
    NewAckRequest "" example_invite example_response ∅ example_world = Ok (ack, w') ∧
    (∃ hop others rest,
       view_headers example_world example_invite "Via" = ViaView (Some hop :: others) :: rest ∧
       view_headers w' ack "Via" =
         ViaView (Some (ViaHop.withParams hop
                          (Params.Add (ViaHop.Params hop) "branch" (Some "z9hG4bK.0")))
                  :: others) :: rest) ∧
    view_headers w' ack "To" = [ToView "<sip:bob@example.com>;tag=b2"] ∧
    view_headers w' ack "Route" = [RouteView [R1]; RouteView [R2]].
Proof.
  assert (∃ ack w',
            NewAckRequest "" example_invite example_response ∅ example_world = Ok (ack, w'))
    as (ack & w' & Hrun) by (vm_compute; eauto).
  assert (GetHeaders example_invite "Route" = []) as Hnone by evaluate.
  exists ack, w'. split; [exact Hrun|].
  destruct (NewAckRequest_headers "" example_invite example_response ∅ example_world ack w'
              (headers_wf_newHeaders _) (headers_wf_newHeaders _)
              example_invite_closed example_response_closed Hrun)
    as (Hvia & _ & Hto & _ & _ & Hroute & _).
  specialize (Hroute Hnone).
  vm_compute (branches _) in Hvia.
  vm_compute (map _ _) in Hto. vm_compute (map _ _) in Hroute.
  exact (conj Hvia (conj Hto Hroute)).
Defined.

(** X10 on the example INVITE: with the two Record-Route headers of the
    example response the Route set is R1 then R2, and with both addresses
    on one header it is the Record-Route set in reverse order. *)
Lemma NewAckRequest_builds_route_set_witness :
  (∃ ack w',
     NewAckRequest "" example_invite example_response ∅ example_world = Ok (ack, w') ∧
     route_set ack w' = [R1; R2]) ∧
  (∃ ack w',
     NewAckRequest "" example_invite response_with_one_line ∅ example_world = Ok (ack, w') ∧
     route_set ack w' = rev (record_route_set response_with_one_line example_world)).
Proof.
  assert (GetHeaders example_invite "Route" = []) as Hnone by evaluate.
  split.
  - assert (∃ ack w',
              NewAckRequest "" example_invite example_response ∅ example_world = Ok (ack, w'))
      as (ack & w' & Hrun) by (vm_compute; eauto).
    exists ack, w'. split; [exact Hrun|].
    destruct (NewAckRequest_builds_route_set "" example_invite example_response ∅ example_world
                ack w' (headers_wf_newHeaders _) (headers_wf_newHeaders _)
                example_invite_closed example_response_closed Hrun)
      as (_ & Hreversed & _).
    specialize (Hreversed Hnone). vm_compute (concat _) in Hreversed. exact Hreversed.
  - assert (headers_between 0 (next example_world) example_world
              (message.headers (resp_msg response_with_one_line))) as Hclosed.
    { apply headers_between_newHeaders. repeat constructor; vm_compute; lia. }
    assert (length (message.GetHeaders (resp_msg response_with_one_line) "Record-Route") ≤ 1)
      as Hone by evaluate.
    assert (∃ ack w',
              NewAckRequest "" example_invite response_with_one_line ∅ example_world =
              Ok (ack, w'))
      as (ack & w' & Hrun) by (vm_compute; eauto).
    exists ack, w'. split; [exact Hrun|].
    destruct (NewAckRequest_builds_route_set "" example_invite response_with_one_line ∅
                example_world ack w' (headers_wf_newHeaders _) (headers_wf_newHeaders _)
                example_invite_closed Hclosed Hrun)
      as (_ & _ & Hline).
    exact (Hline Hnone Hone).
Defined.

(** X11 on the example INVITE and the example response. *)
Lemma derived_headers_are_new_witness :
  (∀ cancel w',
     NewCancelRequest "" example_invite ∅ example_world = Ok (cancel, w') →
     frame example_world w' ∧
     headers_between (next example_world) (next w') w' (message.headers (msg cancel))) ∧
  (∀ ack w',
     NewAckRequest "" example_invite example_response ∅ example_world = Ok (ack, w') →
     frame example_world w' ∧
     headers_between (next example_world) (next w') w' (message.headers (msg ack))).
Proof.
  exact (derived_headers_are_new "" example_invite example_response ∅ example_world
           (headers_wf_newHeaders _) (headers_wf_newHeaders _)
           example_invite_closed example_response_closed).
Defined.

(** X12 on the example INVITE. *)
Lemma copies_are_deep_witness :
  is_copy_of example_world example_invite
    (Clone example_invite example_world).2 (Clone example_invite example_world).1 ∧
  (∀ fields,
     is_copy_of example_world example_invite
       (WithFields example_invite fields example_world).2
       (WithFields example_invite fields example_world).1) ∧
  is_copy_of example_world example_invite
    (CopyRequest example_invite example_world).2 (CopyRequest example_invite example_world).1.
Proof.
  exact (copies_are_deep example_invite example_world
           (headers_ok_newHeaders _) example_invite_request_closed).
Defined.

(** [strings.TrimSpace] on white space of several kinds: ASCII, U+00A0,
    U+2028 and U+3000 are trimmed; U+200B, which is no white space, and
    bytes that are no encoding of a rune are kept. *)
Example TrimSpace_examples :
  strings.TrimSpace " a b " = "a b" ∧
  strings.TrimSpace (strings.of_bytes [0xC2; 0xA0]%N) = "" ∧
  strings.TrimSpace (strings.of_bytes [0x20; 0xE2; 0x80; 0xA8; 0x61; 0xE3; 0x80; 0x80; 0x0A]%N)
  = "a" ∧
  strings.TrimSpace (strings.of_bytes [0xE2; 0x80; 0x8B]%N)
  = strings.of_bytes [0xE2; 0x80; 0x8B]%N ∧
  strings.TrimSpace (strings.of_bytes [0x80; 0xC2; 0xA0]%N) = strings.of_bytes [0x80]%N ∧
  strings.TrimSpace (strings.of_bytes [0xC2; 0xA0; 0xA0]%N) = strings.of_bytes [0xA0]%N ∧
  strings.TrimSpace (strings.of_bytes [0x61; 0xC2]%N) = strings.of_bytes [0x61; 0xC2]%N.
Proof. repeat split; vm_compute; reflexivity. Qed.

(** A body that is one U+00A0 is blank: the clone has no body.  A body
    with text is kept. *)
Example Clone_blank_body :
  Body (Clone (invite_with_body (strings.of_bytes [0xC2; 0xA0]%N)) example_world).1 = "" ∧
  Body (Clone (invite_with_body "v=0") example_world).1 = "v=0".
Proof. split; vm_compute; reflexivity. Qed.

(** X13 on the example INVITE, with URIs printed as their host. *)
Lemma StartLine_of_derived_witness :
  let Uri_String := λ v, match v with
                         | SipUriView u => ("sip:" ++ SipUri.FHost u)%string
                         | OtherUriView repr => repr
                         end in
  StartLine Uri_String example_invite example_world = "INVITE sip:example.com SIP/2.0" ∧
  StartLine Uri_String (Clone example_invite example_world).1
    (Clone example_invite example_world).2 = "INVITE sip:example.com SIP/2.0" ∧
  ∃ cancel w',
    NewCancelRequest "" example_invite ∅ example_world = Ok (cancel, w') ∧
    StartLine Uri_String cancel w' = "CANCEL sip:example.com SIP/2.0".
Proof.
  intros Uri_String.
  assert (StartLine Uri_String example_invite example_world =
          "INVITE sip:example.com SIP/2.0") as Hline by evaluate.
  destruct (StartLine_of_derived Uri_String example_invite example_world
              (headers_ok_newHeaders _) example_invite_request_closed)
    as (Hclone & _ & _ & Hcancel).
  split; [exact Hline|]. split; [by rewrite Hclone|].
  assert (∃ cancel w', NewCancelRequest "" example_invite ∅ example_world = Ok (cancel, w'))
    as (cancel & w' & Hrun) by (vm_compute; eauto).
  exists cancel, w'. split; [exact Hrun|].
  pose proof (Hcancel "" ∅ cancel w' Hrun) as Hthm.
  vm_compute (_ ++ _)%string in Hthm. exact Hthm.
Defined.

(** X16 on the example INVITE, every message of the examples being on
    UDP. *)
Lemma derived_requests_resolve_alike_witness :
  Source (Clone example_invite example_world).1 (Clone example_invite example_world).2 =
    Ok "client.example.com:5060" ∧
  Destination (Clone example_invite example_world).1 (Clone example_invite example_world).2 =
    Ok "example.com:5060" ∧
  ∃ cancel w',
    NewCancelRequest "" example_invite ∅ example_world = Ok (cancel, w') ∧
    Source cancel w' = Ok "client.example.com:5060" ∧
    Destination cancel w' = Ok "example.com:5060".
Proof.
  assert (message.src (msg example_invite) = "") as Hsrc by evaluate.
  assert (message.dest (msg example_invite) = "") as Hdest by evaluate.
  assert ((ViaHop_of example_invite).2 = true) as Hhop by evaluate.
  assert (Source example_invite example_world = Ok "client.example.com:5060") as Hsource
    by evaluate.
  assert (Destination example_invite example_world = Ok "example.com:5060") as Hdestination
    by evaluate.
  destruct (derived_requests_resolve_alike example_invite example_world
              (headers_ok_newHeaders _) example_invite_request_closed Hsrc Hdest)
    as [Hcopies Hcancel].
  destruct (Hcopies (Clone example_invite example_world).1
              (Clone example_invite example_world).2) as [Hs Hd];
    [left; apply surjective_pairing|reflexivity|].
  split; [by rewrite Hs|]. split; [by rewrite Hd|].
  assert (∃ cancel w', NewCancelRequest "" example_invite ∅ example_world = Ok (cancel, w'))
    as (cancel & w' & Hrun) by (vm_compute; eauto).
  exists cancel, w'. split; [exact Hrun|].
  destruct (Hcancel "" ∅ cancel w' Hrun eq_refl) as (Hd' & Hs' & _).
  split; [by rewrite (Hs' Hhop)|by rewrite Hd'].
Defined.

End MoreExamples.
